(** * AsyncPropLoader: the 3-Bit-Protocol encoder, the decoder, the image
    verifier, the settings and the loader's stage sequence.

    The definitions follow ThreeBitProtocolEncoder.cpp, APLoaderInternal.cpp
    and AsyncPropLoader.cpp.  Bytes and machine integers are values of [Z]
    with the wrap-around of their width written out. *)

From Stdlib Require Import ZArith List Bool Lia SpecFloat.
Import ListNotations.
Local Open Scope Z_scope.

(** ** Machine integers *)

Definition u8 (x : Z) : Z := x mod 256.
Definition u32 (x : Z) : Z := x mod 4294967296.

(** ** ThreeBitProtocolEncoder *)

Module ThreeBitProtocolEncoder.

(** The object: the buffer it appends to, the position of the next pulse in
    the current byte and the current byte. *)
Record t : Type := mk {
  buffer : list Z;
  bitPos : Z;
  currByte : Z
}.

Definition IntraLongIdleTime : Z := 1.
Definition InterLongIdleTime : Z := 2.
Definition MaxBaudrate : Z := 115200.

(** The constructor clears the buffer it is given. *)
Definition new (_buffer : list Z) : t :=
  {| buffer := []; bitPos := 0; currByte := 255 |}.

Definition pushCurrByteIfNotEmpty (e : t) : t :=
  if bitPos e =? 0 then e
  else {| buffer := buffer e ++ [currByte e]; bitPos := 0; currByte := 255 |}.

(** [encodeBit] calls itself after a push; the fuel counts the nested calls.
    [encodeBit_total] below shows that two levels always suffice. *)
Fixpoint encodeBit_fuel (fuel : nat) (e : t) (bit idleBits : Z) : option t :=
  match fuel with
  | O => None
  | S fuel' =>
    let e := if 10 <=? bitPos e then pushCurrByteIfNotEmpty e else e in
    if bitPos e =? 0 then
      if bit =? 0 then
        Some {| buffer := buffer e;
                bitPos := 2 + idleBits;
                currByte := Z.land (currByte e) 254 |}
      else
        Some {| buffer := buffer e;
                bitPos := 1 + idleBits;
                currByte := currByte e |}
    else
      if bit =? 0 then
        let newPos := bitPos e + 2 + idleBits in
        if 10 <? newPos then
          encodeBit_fuel fuel' (pushCurrByteIfNotEmpty e) bit idleBits
        else
          Some {| buffer := buffer e;
                  bitPos := newPos;
                  currByte :=
                    u8 (Z.land (currByte e)
                               (Z.lnot (Z.shiftl 3 (bitPos e - 1)))) |}
      else
        let newPos := bitPos e + 1 + idleBits in
        if 10 <? newPos then
          encodeBit_fuel fuel' (pushCurrByteIfNotEmpty e) bit idleBits
        else
          Some {| buffer := buffer e;
                  bitPos := newPos;
                  currByte :=
                    u8 (Z.land (currByte e)
                               (Z.lnot (Z.shiftl 1 (bitPos e - 1)))) |}
  end.

Definition encodeBit (e : t) (bit idleBits : Z) : t :=
  match encodeBit_fuel 2 e bit idleBits with
  | Some e' => e'
  | None => e
  end.

(** The loop [for (int i = 0; i < 31; i++)] of [encodeLongInternal]. *)
Fixpoint encodeLongInternal_loop (n : nat) (e : t) (longValue : Z) : t * Z :=
  match n with
  | O => (e, longValue)
  | S n' =>
    let bit := Z.land longValue 1 in
    let longValue := Z.shiftr longValue 1 in
    encodeLongInternal_loop n' (encodeBit e bit IntraLongIdleTime) longValue
  end.

Definition encodeLongInternal (e : t) (longValue : Z) : t :=
  let '(e, longValue) := encodeLongInternal_loop 31 e longValue in
  let bit := Z.land longValue 1 in
  encodeBit e bit InterLongIdleTime.

Definition encodeLong (e : t) (longValue : Z) : t :=
  pushCurrByteIfNotEmpty (encodeLongInternal e longValue).

(** [data[index]] for an index inside the vector. *)
Definition at_ (data : list Z) (index : Z) : Z := nth (Z.to_nat index) data 0.

(** The loop over the full longs: [i] runs up to [numLongs], [index] advances
    by four in every round. *)
Fixpoint encodeBytesAsLongs_loop (n : nat) (data : list Z) (e : t) (index : Z)
  : t * Z :=
  match n with
  | O => (e, index)
  | S n' =>
    let longValue := 0 in
    let longValue := Z.lor longValue (at_ data index) in
    let longValue := u32 (Z.lor longValue (Z.shiftl (at_ data (index + 1)) 8)) in
    let longValue := u32 (Z.lor longValue (Z.shiftl (at_ data (index + 2)) 16)) in
    let longValue := u32 (Z.lor longValue (Z.shiftl (at_ data (index + 3)) 24)) in
    encodeBytesAsLongs_loop n' data (encodeLongInternal e longValue) (index + 4)
  end.

Definition encodeBytesAsLongs (e : t) (bytes : list Z) : t * Z :=
  let numBytes := Z.of_nat (length bytes) in
  let numLongs := numBytes / 4 in
  let '(e, index) := encodeBytesAsLongs_loop (Z.to_nat numLongs) bytes e 0 in
  let '(e, numLongs) :=
    if index <? numBytes then
      let longValue := 0 in
      let longValue := Z.lor longValue (at_ bytes index) in
      let index := index + 1 in
      let '(longValue, index) :=
        if index <? numBytes
        then (u32 (Z.lor longValue (Z.shiftl (at_ bytes index) 8)), index + 1)
        else (longValue, index) in
      let '(longValue, index) :=
        if index <? numBytes
        then (u32 (Z.lor longValue (Z.shiftl (at_ bytes index) 16)), index + 1)
        else (longValue, index) in
      (encodeLongInternal e longValue, numLongs + 1)
    else (e, numLongs) in
  (pushCurrByteIfNotEmpty e, numLongs).

End ThreeBitProtocolEncoder.

Module TBP := ThreeBitProtocolEncoder.

Definition EncodedShutdown : list Z :=
  [0x92; 0x92; 0x92; 0x92; 0x92; 0x92; 0x92; 0x92; 0x92; 0x92; 0xF2].
Definition EncodedLoadRAM : list Z :=
  [0xC9; 0x92; 0x92; 0x92; 0x92; 0x92; 0x92; 0x92; 0x92; 0x92; 0xF2].
Definition EncodedProgramEEPROMThenShutdown : list Z :=
  [0xCA; 0x92; 0x92; 0x92; 0x92; 0x92; 0x92; 0x92; 0x92; 0x92; 0xF2].
Definition EncodedProgramEEPROMThenRun : list Z :=
  [0x25; 0x92; 0x92; 0x92; 0x92; 0x92; 0x92; 0x92; 0x92; 0x92; 0xFE].


(** What one call of [encodeBit] does, read without the recursion: the pulse
    is put at the start of a fresh byte ([startByte]) or after the pulses
    already in the current byte ([placeBit]). *)
Definition pulseWidth (bit : Z) : Z := if bit =? 0 then 2 else 1.

Definition startByte (e : TBP.t) (bit idleBits : Z) : TBP.t :=
  {| TBP.buffer := TBP.buffer e;
     TBP.bitPos := pulseWidth bit + idleBits;
     TBP.currByte :=
       if bit =? 0 then Z.land (TBP.currByte e) 254 else TBP.currByte e |}.

Definition placeBit (e : TBP.t) (bit idleBits : Z) : TBP.t :=
  {| TBP.buffer := TBP.buffer e;
     TBP.bitPos := TBP.bitPos e + pulseWidth bit + idleBits;
     TBP.currByte :=
       u8 (Z.land (TBP.currByte e)
                  (Z.lnot (Z.shiftl (if bit =? 0 then 3 else 1)
                                    (TBP.bitPos e - 1)))) |}.

(** The same encoder in front of a buffer that already holds [pre]. *)
Definition prepend (pre : list Z) (e : TBP.t) : TBP.t :=
  {| TBP.buffer := pre ++ TBP.buffer e;
     TBP.bitPos := TBP.bitPos e;
     TBP.currByte := TBP.currByte e |}.

(** The words of a byte sequence as the documentation describes them: groups
    of four bytes, least significant byte first, the last group filled up
    with NUL bytes. *)
Definition longOfBytes (b0 b1 b2 b3 : Z) : Z :=
  b0 + 256 * b1 + 65536 * b2 + 16777216 * b3.

Fixpoint longsOfBytes (bytes : list Z) : list Z :=
  match bytes with
  | [] => []
  | [b0] => [longOfBytes b0 0 0 0]
  | [b0; b1] => [longOfBytes b0 b1 0 0]
  | [b0; b1; b2] => [longOfBytes b0 b1 b2 0]
  | b0 :: b1 :: b2 :: b3 :: rest => longOfBytes b0 b1 b2 b3 :: longsOfBytes rest
  end.

(** The complete groups of four of a byte sequence, as longs. *)
Fixpoint fullLongs (bytes : list Z) : list Z :=
  match bytes with
  | b0 :: b1 :: b2 :: b3 :: rest => longOfBytes b0 b1 b2 b3 :: fullLongs rest
  | _ => []
  end.

Definition padToLongs (bytes : list Z) : list Z :=
  bytes ++ repeat 0 (Z.to_nat ((4 - Z.of_nat (length bytes) mod 4) mod 4)).

Definition isByte (b : Z) : Prop := 0 <= b < 256.

(** The encoder without its buffer: the part of the state that decides how
    the next pulse is placed. *)
Definition dropBuffer (e : TBP.t) : TBP.t :=
  {| TBP.buffer := []; TBP.bitPos := TBP.bitPos e; TBP.currByte := TBP.currByte e |}.

(** The number of bytes that encoding [longs] appends to the buffer, computed
    long by long from an empty buffer, and the encoder state reached. *)
Fixpoint appendedBytes (longs : list Z) (e : TBP.t) (acc : Z) : Z * TBP.t :=
  match longs with
  | [] => (acc, dropBuffer e)
  | w :: longs' =>
    let e' := TBP.encodeLongInternal (dropBuffer e) w in
    appendedBytes longs' e' (acc + Z.of_nat (length (TBP.buffer e')))
  end.

(** The packing invariant.  After [k] encoded bits, the next one being bit
    [j] of its long, the open byte holds some number [c] of pulses: every
    pushed byte holds at least three, a pulse takes at least two slots and at
    most three, and four only for the last bit of a long, which can be among
    the [c] pulses only when [j < c]. *)
Definition packed (e : TBP.t) (k j : Z) : Prop :=
  exists c,
    0 <= c /\
    3 * Z.of_nat (length (TBP.buffer e)) + c <= k /\
    2 * c <= TBP.bitPos e /\
    TBP.bitPos e <= 3 * c + (if j <? c then 1 else 0) /\
    TBP.bitPos e <= 10 /\
    (TBP.bitPos e = 0 \/ 1 <= c).

(** ** Exceptions

    A function that may throw returns an [outcome]: its value, or the
    exception that leaves it. *)

Inductive ErrorCode : Type :=
  | ErrNone
  | Cancelled
  | FailedToObtainPortAccess
  | FailedToOpenPort
  | FailedToFlushOutput
  | FailedToSetBaudrate
  | FailedToSetTimeout
  | FailedToSetBytesize
  | FailedToSetParity
  | FailedToSetStopbits
  | FailedToSetFlowcontrol
  | FailedToReset
  | FailedToFlushInput
  | FailedToSendInitialBytes
  | FailedToReceivePropAuthentication
  | FailedToAuthenticateProp
  | FailedToReceiveChipVersion
  | FailedToDecodeChipVersion
  | UnsupportedChipVersion
  | FailedToSendCommand
  | FailedToEncodeImageSize
  | FailedToSendImageSize
  | FailedToSendImage
  | FailedToSendStatusPrompt
  | FailedToReceiveChecksumStatus
  | PropReportsChecksumError
  | FailedToReceiveEEPROMProgrammingStatus
  | PropReportsEEPROMProgrammingError
  | FailedToReceiveEEPROMVerificationStatus
  | PropReportsEEPROMVerificationError
  | UnhandledException.

(** The reasons [decode3BPByte] gives in its [std::runtime_error]. *)
Inductive DecodeError : Type :=
  | InsufficientBytes
  | UnexpectedByte (byte : Z).

(** The reasons given in a [std::invalid_argument]: by [verifyAndEncodeImage]
    for an image, by the setters for a setting. *)
Inductive ArgumentError : Type :=
  | ImageTooSmall
  | ImageTooBig (size : Z)
  | BaudrateTooHigh
  | InvalidResetLine
  | ResetDurationTooShort
  | ResetDurationTooLong
  | BootWaitDurationTooLong
  | BootWaitDurationTooShort.

Inductive exn : Type :=
  | runtime_error (why : DecodeError)
  | invalid_argument (why : ArgumentError)
  | port_exception                       (* a std::exception of the serial port *)
  | ActionError (errorCode : ErrorCode).

Inductive outcome (A : Type) : Type :=
  | Returns (a : A)
  | Throws (x : exn).
Arguments Returns {A} a.
Arguments Throws {A} x.

Definition bind {A B : Type} (m : outcome A) (k : A -> outcome B) : outcome B :=
  match m with
  | Returns a => k a
  | Throws x => Throws x
  end.

Notation "m ;;; k" := (bind m (fun _ => k))
  (at level 61, right associativity).

(** ** decode3BPByte

    The iterator is the list of the bytes from [iter] up to [end]; on success
    the function returns the decoded byte and the advanced iterator. *)

Fixpoint decode3BPByte_loop (n : nat) (iter : list Z) (decodedByte : Z)
  : outcome (Z * list Z) :=
  match n with
  | O => Returns (decodedByte, iter)
  | S n' =>
    match iter with
    | [] => Throws (runtime_error InsufficientBytes)
    | byte :: iter =>
      let decodedByte := Z.shiftr decodedByte 2 in
      if byte =? 0xCE then decode3BPByte_loop n' iter decodedByte
      else if byte =? 0xCF
        then decode3BPByte_loop n' iter (u8 (Z.lor decodedByte 0x40))
      else if byte =? 0xEE
        then decode3BPByte_loop n' iter (u8 (Z.lor decodedByte 0x80))
      else if byte =? 0xEF
        then decode3BPByte_loop n' iter (u8 (Z.lor decodedByte 0xC0))
      else Throws (runtime_error (UnexpectedByte byte))
    end
  end.

Definition decode3BPByte (iter : list Z) : outcome (Z * list Z) :=
  decode3BPByte_loop 4 iter 0.

(** The two bits a response byte stands for, as the documentation of the
    protocol gives them. *)
Definition bitPair (byte : Z) : option Z :=
  if byte =? 0xCE then Some 0
  else if byte =? 0xCF then Some 1
  else if byte =? 0xEE then Some 2
  else if byte =? 0xEF then Some 3
  else None.

Definition validByte (b : Z) : Prop := bitPair b <> None.

(** The three ways a call of [decode3BPByte] can go. *)
Inductive decodeCase (iter : list Z) : outcome (Z * list Z) -> Prop :=
  | decodeFour b0 b1 b2 b3 p0 p1 p2 p3 rest :
      iter = b0 :: b1 :: b2 :: b3 :: rest ->
      bitPair b0 = Some p0 -> bitPair b1 = Some p1 ->
      bitPair b2 = Some p2 -> bitPair b3 = Some p3 ->
      decodeCase iter (Returns (p0 + 4 * p1 + 16 * p2 + 64 * p3, rest))
  | decodeShort :
      (length iter < 4)%nat -> Forall validByte iter ->
      decodeCase iter (Throws (runtime_error InsufficientBytes))
  | decodeBad pre byte post :
      iter = pre ++ byte :: post -> (length pre < 4)%nat ->
      Forall validByte pre -> bitPair byte = None ->
      decodeCase iter (Throws (runtime_error (UnexpectedByte byte))).

(** ** verifyAndEncodeImage

    [encodedImage] is the caller's vector; the function returns its final
    content together with what the call returns or throws. *)
Definition verifyAndEncodeImage (image encodedImage : list Z)
  : list Z * outcome Z :=
  if Z.of_nat (length image) =? 0 then
    (encodedImage, Throws (invalid_argument ImageTooSmall))
  else if 32768 <? Z.of_nat (length image) then
    (encodedImage, Throws (invalid_argument (ImageTooBig (Z.of_nat (length image)))))
  else
    let encoder := TBP.new encodedImage in
    let '(encoder, numLongs) := TBP.encodeBytesAsLongs encoder image in
    (TBP.buffer encoder, Returns numLongs).

(** ** Settings *)

Inductive ResetLine : Type := DTR | RTS | Callback.

Record Settings : Type := mkSettings {
  baudrate : Z;                    (* uint32_t *)
  resetLine : ResetLine;
  resetCallback : option nat;      (* a function pointer, or NULL *)
  resetDuration : Z;               (* milliseconds *)
  bootWaitDuration : Z;            (* milliseconds *)
  statusMonitor : option nat       (* a pointer, or NULL *)
}.

Definition ResetLine_eqb (a b : ResetLine) : bool :=
  match a, b with
  | DTR, DTR | RTS, RTS | Callback, Callback => true
  | _, _ => false
  end.

Definition resetLineIsValid (resetLine : ResetLine) : bool :=
  ResetLine_eqb resetLine DTR || ResetLine_eqb resetLine RTS ||
  ResetLine_eqb resetLine Callback.

Definition MaxBaudrate : Z := 115200.

Definition defaultSettings : Settings :=
  {| baudrate := MaxBaudrate; resetLine := DTR; resetCallback := None;
     resetDuration := 10; bootWaitDuration := 100; statusMonitor := None |}.

(** The setters.  The argument of [setBaudrate] is a [uint32_t], a value in
    0..2^32-1; a duration is given by its count of milliseconds, a signed
    64-bit integer.  The functions compare and store the argument as it is,
    so the embedding takes it as an integer, and the theorems about them
    range over the values of these types. *)
Definition setBaudrate (s : Settings) (_baudrate : Z) : outcome Settings :=
  if MaxBaudrate <? _baudrate then Throws (invalid_argument BaudrateTooHigh)
  else Returns {| baudrate := _baudrate; resetLine := resetLine s;
                  resetCallback := resetCallback s;
                  resetDuration := resetDuration s;
                  bootWaitDuration := bootWaitDuration s;
                  statusMonitor := statusMonitor s |}.

Definition setResetLine (s : Settings) (_resetLine : ResetLine) : outcome Settings :=
  if negb (resetLineIsValid _resetLine)
  then Throws (invalid_argument InvalidResetLine)
  else Returns {| baudrate := baudrate s; resetLine := _resetLine;
                  resetCallback := resetCallback s;
                  resetDuration := resetDuration s;
                  bootWaitDuration := bootWaitDuration s;
                  statusMonitor := statusMonitor s |}.

Definition setResetDuration (s : Settings) (_resetDuration : Z) : outcome Settings :=
  if _resetDuration <? 1 then Throws (invalid_argument ResetDurationTooShort)
  else if 100 <? _resetDuration then Throws (invalid_argument ResetDurationTooLong)
  else Returns {| baudrate := baudrate s; resetLine := resetLine s;
                  resetCallback := resetCallback s;
                  resetDuration := _resetDuration;
                  bootWaitDuration := bootWaitDuration s;
                  statusMonitor := statusMonitor s |}.

Definition setBootWaitDuration (s : Settings) (_bootWaitDuration : Z)
  : outcome Settings :=
  if 150 <? _bootWaitDuration then Throws (invalid_argument BootWaitDurationTooLong)
  else if _bootWaitDuration <? 50 then Throws (invalid_argument BootWaitDurationTooShort)
  else Returns {| baudrate := baudrate s; resetLine := resetLine s;
                  resetCallback := resetCallback s;
                  resetDuration := resetDuration s;
                  bootWaitDuration := _bootWaitDuration;
                  statusMonitor := statusMonitor s |}.

Definition throws {A : Type} (r : outcome A) : Prop := exists x, r = Throws x.

(** ** The action thread *)

Inductive Action : Type :=
  | ActionNone
  | Shutdown
  | LoadRAM
  | ProgramEEPROMThenShutdown
  | ProgramEEPROMThenRun
  | Restart.

Definition Action_eqb (a b : Action) : bool :=
  match a, b with
  | ActionNone, ActionNone | Shutdown, Shutdown | LoadRAM, LoadRAM
  | ProgramEEPROMThenShutdown, ProgramEEPROMThenShutdown
  | ProgramEEPROMThenRun, ProgramEEPROMThenRun | Restart, Restart => true
  | _, _ => false
  end.

Definition actionIsValid (action : Action) : bool :=
  Action_eqb action Shutdown || Action_eqb action LoadRAM ||
  Action_eqb action ProgramEEPROMThenShutdown ||
  Action_eqb action ProgramEEPROMThenRun || Action_eqb action Restart.

Definition commandForAction (action : Action) : Z :=
  match action with
  | Shutdown => 0
  | LoadRAM => 1
  | ProgramEEPROMThenShutdown => 2
  | ProgramEEPROMThenRun => 3
  | _ => 0xffffffff
  end.

(** The table that [a_stage4a_sendCommand] picks for the action; the other
    actions make it throw. *)
Definition encodedCommand (action : Action) : outcome (list Z) :=
  match action with
  | Shutdown => Returns EncodedShutdown
  | LoadRAM => Returns EncodedLoadRAM
  | ProgramEEPROMThenShutdown => Returns EncodedProgramEEPROMThenShutdown
  | ProgramEEPROMThenRun => Returns EncodedProgramEEPROMThenRun
  | _ => Throws (ActionError FailedToSendCommand)
  end.

Inductive Status : Type :=
  | Resetting
  | EstablishingCommunications
  | SendingCommandAndImage
  | WaitingForChecksumStatus
  | WaitingForEEPROMProgrammingStatus
  | WaitingForEEPROMVerificationStatus.

(** *** Profiler *)

Module Profiler.

Inductive Stage : Type :=
  | Stage1 | Stage2a | Stage2b | Stage3 | Stage4a | Stage4b
  | Stage5 | Stage6 | Stage7 | Finished.

Definition Stage_eqb (a b : Stage) : bool :=
  match a, b with
  | Stage1, Stage1 | Stage2a, Stage2a | Stage2b, Stage2b | Stage3, Stage3
  | Stage4a, Stage4a | Stage4b, Stage4b | Stage5, Stage5 | Stage6, Stage6
  | Stage7, Stage7 | Finished, Finished => true
  | _, _ => false
  end.

(** The profiler: the stage it is in, the stages whose time it has entered in
    the summary (the first one first), how the action ended, and whether one
    of its assertions failed. *)
Record t : Type := mk {
  currStage : Stage;
  timed : list Stage;
  wasSuccessful : bool;
  errorCode : ErrorCode;
  assertionFailed : bool
}.

Definition start : t :=
  {| currStage := Stage1; timed := []; wasSuccessful := false;
     errorCode := ErrNone; assertionFailed := false |}.

Definition assert (b : bool) (p : t) : t :=
  if b then p
  else {| currStage := currStage p; timed := timed p;
          wasSuccessful := wasSuccessful p; errorCode := errorCode p;
          assertionFailed := true |}.

Definition incrementStage (p : t) : t :=
  match currStage p with
  | Stage1 => mk Stage2a (timed p) (wasSuccessful p) (errorCode p) (assertionFailed p)
  | Stage2a => mk Stage2b (timed p) (wasSuccessful p) (errorCode p) (assertionFailed p)
  | Stage2b => mk Stage3 (timed p) (wasSuccessful p) (errorCode p) (assertionFailed p)
  | Stage3 => mk Stage4a (timed p) (wasSuccessful p) (errorCode p) (assertionFailed p)
  | Stage4a => mk Stage4b (timed p) (wasSuccessful p) (errorCode p) (assertionFailed p)
  | Stage4b => mk Stage5 (timed p) (wasSuccessful p) (errorCode p) (assertionFailed p)
  | Stage5 => mk Stage6 (timed p) (wasSuccessful p) (errorCode p) (assertionFailed p)
  | Stage6 => mk Stage7 (timed p) (wasSuccessful p) (errorCode p) (assertionFailed p)
  | Stage7 | Finished => assert false p
  end.

Definition recordTime (s : Stage) (p : t) : t :=
  mk (currStage p) (timed p ++ [s]) (wasSuccessful p) (errorCode p)
     (assertionFailed p).

(** [endStage1] ... [endStage6]: the same three steps for each stage. *)
Definition endStage (s : Stage) (p : t) : t :=
  let p := assert (Stage_eqb (currStage p) s) p in
  let p := incrementStage p in
  recordTime s p.

Definition endStage7 (p : t) : t :=
  let p := assert (Stage_eqb (currStage p) Stage7) p in
  recordTime Stage7 p.

Definition endOK (p : t) : t :=
  mk Finished (timed p) true (errorCode p) (assertionFailed p).

Definition endWithError (code : ErrorCode) (p : t) : t :=
  let p :=
    match currStage p with
    | Stage7 => endStage7 p
    | Finished => assert false p
    | s => endStage s p
    end in
  mk Finished (timed p) false code (assertionFailed p).

End Profiler.

(** *** The worker

    What the action thread does is a function of the profiler and of the
    calls made so far; it may end with an [ActionError]. *)

Inductive Event : Type :=
  | StageCalled (s : Profiler.Stage)
  | LoaderUpdate (status : Status)
  | LoaderHasFinished (code : ErrorCode).

Record WorkerState : Type := mkWorker {
  profiler : Profiler.t;
  calls : list Event
}.

Definition Worker (A : Type) : Type := WorkerState -> WorkerState * outcome A.

Definition ret {A : Type} (a : A) : Worker A := fun w => (w, Returns a).

Definition seq {A B : Type} (m : Worker A) (k : A -> Worker B) : Worker B :=
  fun w =>
    match m w with
    | (w', Returns a) => k a w'
    | (w', Throws x) => (w', Throws x)
    end.

Notation "m >> k" := (seq m (fun _ => k)) (at level 62, right associativity).

Definition called (ev : Event) : Worker unit :=
  fun w => (mkWorker (profiler w) (calls w ++ [ev]), Returns tt).

Definition profile (f : Profiler.t -> Profiler.t) : Worker unit :=
  fun w => (mkWorker (f (profiler w)) (calls w), Returns tt).

Definition raise {A : Type} (x : exn) : Worker A := fun w => (w, Throws x).

Section ActionThread.

(** How the work of each stage goes in the run at hand: the serial port, the
    clock and the cancellation flag decide it. *)
Variable stageWork : Profiler.Stage -> outcome unit.

(** Whether a status monitor is set. *)
Variable a_statusMonitor : bool.

(** Every stage function does its work and, when the work has not thrown,
    ends its stage in the profiler. *)
Definition a_stage (s : Profiler.Stage) (endStage : Profiler.t -> Profiler.t)
  : Worker unit :=
  called (StageCalled s) >>
  match stageWork s with
  | Returns _ => profile endStage
  | Throws x => raise x
  end.

Definition a_stage1_preparation := a_stage Profiler.Stage1 (Profiler.endStage Profiler.Stage1).
Definition a_stage2a_reset := a_stage Profiler.Stage2a (Profiler.endStage Profiler.Stage2a).
Definition a_stage2b_waitAfterReset := a_stage Profiler.Stage2b (Profiler.endStage Profiler.Stage2b).
Definition a_stage3_establishComms := a_stage Profiler.Stage3 (Profiler.endStage Profiler.Stage3).
Definition a_stage4a_sendCommand := a_stage Profiler.Stage4a (Profiler.endStage Profiler.Stage4a).
Definition a_stage4b_sendImage := a_stage Profiler.Stage4b (Profiler.endStage Profiler.Stage4b).
Definition a_stage5_waitForChecksumStatus := a_stage Profiler.Stage5 (Profiler.endStage Profiler.Stage5).
Definition a_stage6_waitForEEPROMProgrammingStatus := a_stage Profiler.Stage6 (Profiler.endStage Profiler.Stage6).
Definition a_stage7_waitForEEPROMVerificationStatus := a_stage Profiler.Stage7 Profiler.endStage7.

Definition a_callStatusMonitorLoaderUpdate (status : Status) : Worker unit :=
  if a_statusMonitor then called (LoaderUpdate status) else ret tt.

Definition a_performAction (action : Action) : Worker unit :=
  a_stage1_preparation >>
  a_callStatusMonitorLoaderUpdate Resetting >>
  a_stage2a_reset >>
  if Action_eqb action Restart then ret tt else
  a_stage2b_waitAfterReset >>
  a_callStatusMonitorLoaderUpdate EstablishingCommunications >>
  a_stage3_establishComms >>
  a_callStatusMonitorLoaderUpdate SendingCommandAndImage >>
  a_stage4a_sendCommand >>
  if Action_eqb action Shutdown then ret tt else
  a_stage4b_sendImage >>
  a_callStatusMonitorLoaderUpdate WaitingForChecksumStatus >>
  a_stage5_waitForChecksumStatus >>
  if Action_eqb action LoadRAM then ret tt else
  a_callStatusMonitorLoaderUpdate WaitingForEEPROMProgrammingStatus >>
  a_stage6_waitForEEPROMProgrammingStatus >>
  a_callStatusMonitorLoaderUpdate WaitingForEEPROMVerificationStatus >>
  a_stage7_waitForEEPROMVerificationStatus.

Definition actionWillFinish (code : ErrorCode) : Worker unit :=
  profile (if match code with ErrNone => true | _ => false end
           then Profiler.endOK else Profiler.endWithError code) >>
  if a_statusMonitor then called (LoaderHasFinished code) else ret tt.

(** [actionThread]: the error code the action finishes with. *)
Definition actionThread (action : Action) (w : WorkerState)
  : WorkerState * ErrorCode :=
  match a_performAction action w with
  | (w', Returns _) => (fst (actionWillFinish ErrNone w'), ErrNone)
  | (w', Throws (ActionError code)) => (fst (actionWillFinish code w'), code)
  | (w', Throws _) =>
      (fst (actionWillFinish UnhandledException
              (mkWorker (Profiler.assert false (profiler w')) (calls w'))),
       UnhandledException)
  end.

End ActionThread.

(** The stage functions called in a run, in the order of the calls. *)
Fixpoint stagesCalled (evs : list Event) : list Profiler.Stage :=
  match evs with
  | [] => []
  | StageCalled s :: evs' => s :: stagesCalled evs'
  | _ :: evs' => stagesCalled evs'
  end.

(** The stages of an action as the description of the protocol lists them. *)
Definition stagesOfAction (action : Action) : list Profiler.Stage :=
  match action with
  | Restart => [Profiler.Stage1; Profiler.Stage2a]
  | Shutdown =>
      [Profiler.Stage1; Profiler.Stage2a; Profiler.Stage2b; Profiler.Stage3;
       Profiler.Stage4a]
  | LoadRAM =>
      [Profiler.Stage1; Profiler.Stage2a; Profiler.Stage2b; Profiler.Stage3;
       Profiler.Stage4a; Profiler.Stage4b; Profiler.Stage5]
  | _ =>
      [Profiler.Stage1; Profiler.Stage2a; Profiler.Stage2b; Profiler.Stage3;
       Profiler.Stage4a; Profiler.Stage4b; Profiler.Stage5; Profiler.Stage6;
       Profiler.Stage7]
  end.

Definition freshWorker : WorkerState := mkWorker Profiler.start [].

(** ** The status poll

    One round of the loop of [a_receiveStatus] meets the surroundings five
    times: the cancellation flag, the write of the prompt, [available()], the
    read of one byte, and the clock of the timeout check.  A run of the poll
    is decided by what these answer in every round. *)

Record Round : Type := mkRound {
  isCancelled : bool;          (* a_isCancelled.load() *)
  writePrompt : outcome Z;     (* write(&prompt, 1) *)
  available : outcome Z;       (* available() *)
  readByte : outcome (Z * Z);  (* read(&buffer, 1): numReceived and buffer *)
  clock : Z                    (* SteadyClock::now(), in milliseconds *)
}.

Definition ChecksumStatusTimeout : Z := 1500.
Definition EEPROMProgrammingStatusTimeout : Z := 6000.
Definition EEPROMVerificationStatusTimeout : Z := 2500.

Definition a_throwIfCancelled (cancelled : bool) : outcome unit :=
  if cancelled then Throws (ActionError Cancelled) else Returns tt.

(** The result is [None] when the rounds given end before the poll does. *)
Fixpoint a_receiveStatus_loop (timeoutTime : Z) (potentialError : ErrorCode)
         (rounds : list Round) : option (outcome bool) :=
  match rounds with
  | [] => None
  | r :: rounds' =>
    match a_throwIfCancelled (isCancelled r) with
    | Throws x => Some (Throws x)
    | Returns _ =>
      match writePrompt r with
      | Throws _ => Some (Throws (ActionError potentialError))
      | Returns _ =>
        match available r with
        | Throws _ => Some (Throws (ActionError potentialError))
        | Returns numAvailable =>
          if 0 <? numAvailable then
            match readByte r with
            | Throws _ => Some (Throws (ActionError potentialError))
            | Returns (numReceived, buffer) =>
              if numReceived =? 1 then
                if buffer =? 0xff then Some (Returns true)
                else if buffer =? 0xfe then Some (Returns false)
                else Some (Throws (ActionError potentialError))
              else Some (Throws (ActionError potentialError))
            end
          else if timeoutTime <? clock r
               then Some (Throws (ActionError potentialError))
               else a_receiveStatus_loop timeoutTime potentialError rounds'
        end
      end
    end
  end.

Definition a_receiveStatus (timeout : Z) (potentialError : ErrorCode)
           (now : Z) (rounds : list Round) : option (outcome bool) :=
  let timeoutTime := now + timeout in
  a_receiveStatus_loop timeoutTime potentialError rounds.

(** What the surroundings answer during one of the stages 5, 6 and 7. *)
Record StatusEnv : Type := mkStatusEnv {
  cancelledAtWaiting : bool;   (* at the checkpoint "waiting for ..." *)
  now : Z;                     (* the clock when the poll starts *)
  rounds : list Round;
  cancelledAtChecking : bool;  (* at the checkpoint "checking ..." *)
  cancelledAtFinishing : bool  (* at the checkpoint "finishing up" of stage 7 *)
}.

Definition a_checkPoint (cancelled : bool) : outcome unit :=
  a_throwIfCancelled cancelled.

Definition liftO {A B : Type} (m : option (outcome A)) (k : A -> outcome B)
  : option (outcome B) :=
  match m with
  | None => None
  | Some r => Some (bind r k)
  end.

(** The bodies of [a_stage5_waitForChecksumStatus],
    [a_stage6_waitForEEPROMProgrammingStatus] and
    [a_stage7_waitForEEPROMVerificationStatus] up to the call that ends the
    stage in the profiler. *)
Definition stage5Work (env : StatusEnv) : option (outcome unit) :=
  match a_checkPoint (cancelledAtWaiting env) with
  | Throws x => Some (Throws x)
  | Returns _ =>
    liftO (a_receiveStatus ChecksumStatusTimeout FailedToReceiveChecksumStatus
             (now env) (rounds env))
      (fun status =>
         a_checkPoint (cancelledAtChecking env) ;;;
         if status : bool then Throws (ActionError PropReportsChecksumError)
         else Returns tt)
  end.

Definition stage6Work (env : StatusEnv) : option (outcome unit) :=
  match a_checkPoint (cancelledAtWaiting env) with
  | Throws x => Some (Throws x)
  | Returns _ =>
    liftO (a_receiveStatus EEPROMProgrammingStatusTimeout
             FailedToReceiveEEPROMProgrammingStatus (now env) (rounds env))
      (fun status =>
         a_checkPoint (cancelledAtChecking env) ;;;
         if status : bool
         then Throws (ActionError PropReportsEEPROMProgrammingError)
         else Returns tt)
  end.

Definition stage7Work (env : StatusEnv) : option (outcome unit) :=
  match a_checkPoint (cancelledAtWaiting env) with
  | Throws x => Some (Throws x)
  | Returns _ =>
    liftO (a_receiveStatus EEPROMVerificationStatusTimeout
             FailedToReceiveEEPROMVerificationStatus (now env) (rounds env))
      (fun status =>
         a_checkPoint (cancelledAtChecking env) ;;;
         (if status : bool
          then Throws (ActionError PropReportsEEPROMVerificationError)
          else Returns tt) ;;;
         a_checkPoint (cancelledAtFinishing env))
  end.

(** A round in which the prompt is written, nothing is available and the
    timeout has not passed: the loop goes on. *)
Definition quietRound (timeoutTime : Z) (r : Round) : Prop :=
  isCancelled r = false /\
  (exists k, writePrompt r = Returns k) /\
  available r = Returns 0 /\
  clock r <= timeoutTime.

(** A round in which the poll reads the status byte [byte]. *)
Definition readsStatus (r : Round) (byte : Z) : Prop :=
  isCancelled r = false /\
  (exists k, writePrompt r = Returns k) /\
  (exists numAvailable, available r = Returns numAvailable /\ 0 < numAvailable) /\
  readByte r = Returns (1, byte).

(** ** Timing

    [a_transitDuration] computes in single precision: [numBytes] and
    [a_baudrate] are converted to [float], the product with [10000000.0f] and
    the quotient are rounded to binary32 (to nearest, ties to even; float
    expressions are taken to be evaluated in their own precision, as with
    SSE arithmetic), and the quotient is truncated to [long long].  The
    conversion of a value that is not finite or does not fit is undefined in
    C++; the model gives [None]. *)

Module Float32.

Definition prec : Z := 24.
Definition emax : Z := 128.

Definition of_Z (z : Z) : spec_float := binary_normalize prec emax z 0 false.
Definition mul : spec_float -> spec_float -> spec_float := SFmul prec emax.
Definition div : spec_float -> spec_float -> spec_float := SFdiv prec emax.

Definition to_long_long (x : spec_float) : option Z :=
  match x with
  | S754_zero _ => Some 0
  | S754_finite s m e =>
    let magnitude := if 0 <=? e then Zpos m * 2 ^ e else Zpos m / 2 ^ (- e) in
    let v := if s then - magnitude else magnitude in
    if (- 2 ^ 63 <=? v) && (v <? 2 ^ 63) then Some v else None
  | _ => None
  end.

(** The literal [10000000.0f]. *)
Definition ten_million : spec_float := S754_finite false 10000000 0.

End Float32.

Definition a_transitDuration (a_baudrate numBytes : Z) : option Z :=
  let x := Float32.div (Float32.mul (Float32.of_Z numBytes) Float32.ten_million)
                       (Float32.of_Z a_baudrate) in
  match Float32.to_long_long x with
  | Some n => Some (if n <? 1 then 1 else n)
  | None => None
  end.

(** The located mantissa [mrs] (a mantissa, a round bit and a sticky bit)
    stands for the fraction [A / B]: the mantissa is its integer part and the
    two bits tell where it lies between the mantissa and its successor. *)
Definition approx (A B : Z) (mrs : shr_record) : Prop :=
  0 < B /\ 0 <= shr_m mrs /\
  match shr_r mrs, shr_s mrs with
  | false, false => A = shr_m mrs * B
  | false, true => 2 * (shr_m mrs * B) < 2 * A < (2 * shr_m mrs + 1) * B
  | true, false => 2 * A = (2 * shr_m mrs + 1) * B
  | true, true => (2 * shr_m mrs + 1) * B < 2 * A < (2 * shr_m mrs + 2) * B
  end.

(** The value of a finite binary32 number, scaled by 2^24. *)
Definition sval (m : positive) (e : Z) : Z := Zpos m * 2 ^ (e + 24).

(** [x] is [y] up to one rounding to 24 bits: |x - y| <= x / 2^24. *)
Definition rounded (x y : Z) : Prop :=
  (2 ^ 24 - 1) * x <= 2 ^ 24 * y <= (2 ^ 24 + 1) * x.

(** ** The encoded bytes on the wire

    A byte is sent as an 8N1 frame of ten bit periods: the start bit (low),
    the eight data bits, least significant first, and the stop bit (high).
    [true] is the idle (high) level of the line. *)

Definition frame (b : Z) : list bool :=
  false :: map (Z.testbit b) [0; 1; 2; 3; 4; 5; 6; 7] ++ [true].

Definition wire (buf : list Z) : list bool := flat_map frame buf.

(** One encoded bit on the line: a low pulse of one bit period for a 1 and of
    two for a 0, followed by [gap] bit periods of high idle. *)
Definition pulse (s : Z * nat) : list bool :=
  repeat false (Z.to_nat (pulseWidth (fst s))) ++ repeat true (snd s).

Definition train (pulses : list (Z * nat)) : list bool := flat_map pulse pulses.

(** The bits of a long in the order [encodeLongInternal] takes them, each with
    the idle time it asks for. *)
Definition bitOfLong (w : Z) (i : nat) : Z := Z.land (Z.shiftr w (Z.of_nat i)) 1.

Definition symbolsOfLong (w : Z) : list (Z * nat) :=
  map (fun i => (bitOfLong w i, 1%nat)) (List.seq 0 31) ++ [(bitOfLong w 31, 2%nat)].

(** [tr] sends the bits of [syms] and leaves at least the idle time asked. *)
Definition sends (syms tr : list (Z * nat)) : Prop :=
  Forall2 (fun s t => fst t = fst s /\ (snd s <= snd t)%nat) syms tr.

(** What the receiver makes of the line: it measures every low pulse and
    takes a pulse of one bit period for a 1 and a longer one for a 0. *)
Definition readPulse (low : nat) : list Z :=
  match low with
  | O => []
  | S O => [1]
  | _ => [0]
  end.

Fixpoint readPulses_from (low : nat) (line : list bool) : list Z :=
  match line with
  | [] => readPulse low
  | false :: line' => readPulses_from (S low) line'
  | true :: line' => readPulse low ++ readPulses_from O line'
  end.

Definition readPulses (line : list bool) : list Z := readPulses_from O line.

(** The bits of a byte sequence, least significant bit of the first byte
    first. *)
Definition bitsOfByte (b : Z) : list Z :=
  map (fun i => Z.b2z (Z.testbit b (Z.of_nat i))) (List.seq 0 8).

(** The part of the line that the encoder has settled: the frames of the
    buffer and the first [bitPos] bit periods of the frame of the open byte. *)
Definition sent (e : TBP.t) : list bool :=
  wire (TBP.buffer e) ++
  firstn (Z.to_nat (TBP.bitPos e)) (frame (TBP.currByte e)).

Fixpoint eqb_line (a b : list bool) : bool :=
  match a, b with
  | [], [] => true
  | x :: a', y :: b' => Bool.eqb x y && eqb_line a' b'
  | _, _ => false
  end.

(** The open byte is a byte, and what is not settled of its frame is high. *)
Definition openStateb (e : TBP.t) : bool :=
  (0 <=? TBP.currByte e) && (TBP.currByte e <? 256) &&
  (((TBP.bitPos e =? 0) && (TBP.currByte e =? 255)) ||
   ((1 <=? TBP.bitPos e) && (TBP.bitPos e <=? 10) &&
    eqb_line (skipn (Z.to_nat (TBP.bitPos e)) (frame (TBP.currByte e)))
             (repeat true (Z.to_nat (10 - TBP.bitPos e))))).

Definition openState (e : TBP.t) : Prop := openStateb e = true.

(** One call of [encodeBit] on the state ([p], [c]) with an empty buffer: the
    line is extended by the pulse, after the rest of the frame when the open
    byte was pushed, and the state stays as [openStateb] says. *)
Definition encodeBit_check (p c bit idle : Z) : bool :=
  let e := TBP.mk [] p c in
  let e' := TBP.encodeBit e bit idle in
  negb (openStateb e) ||
  (openStateb e' && negb (TBP.bitPos e' =? 0) &&
   forallb (fun b => (0 <=? b) && (b <? 256)) (TBP.buffer e') &&
   (eqb_line (sent e') (sent e ++ pulse (bit, Z.to_nat idle)) ||
    (negb (p =? 0) &&
     eqb_line (sent e')
       (sent e ++ repeat true (Z.to_nat (10 - p)) ++ pulse (bit, Z.to_nat idle))))).

Definition zrange (n : nat) : list Z := map Z.of_nat (List.seq 0 n).

Definition encodeBit_checks : bool :=
  forallb (fun p =>
    forallb (fun c =>
      forallb (fun bit =>
        forallb (fun idle => encodeBit_check p c bit idle)
                [1; 2; 3; 4; 5; 6; 7; 8])
        [0; 1])
      (zrange 256))
    (zrange 11).

(** The encoder has put the bits [syms] on the line, each followed by the idle
    time asked for, and is in a state [openStateb] accepts. *)
Definition lineOf (e : TBP.t) (syms : list (Z * nat)) : Prop :=
  openState e /\ Forall isByte (TBP.buffer e) /\
  (syms = [] -> TBP.bitPos e = 0) /\
  exists tr, sends syms tr /\ sent e = train tr.


(** The thirty-two bits of a long, least significant first. *)
Definition bitsOfLong (w : Z) : list Z := map (bitOfLong w) (List.seq 0 32).

(** [k] pulses take at least [2 k] bit periods of the frames begun so far. *)
Definition spread (e : TBP.t) (k : Z) : Prop :=
  2 * k <= 10 * Z.of_nat (length (TBP.buffer e)) + TBP.bitPos e /\
  0 <= TBP.bitPos e <= 10.

(** An encoder as the public functions leave it: no byte is open. *)
Definition closed (e : TBP.t) : Prop :=
  TBP.bitPos e = 0 /\ TBP.currByte e = 255.

(** ** The response of the Propeller

    The byte that stands for a pair of bits in a response, and the four
    bytes of a data byte, lowest pair first. *)
Definition pairByte (p : Z) : Z :=
  if p =? 0 then 0xCE else if p =? 1 then 0xCF else if p =? 2 then 0xEE else 0xEF.

Definition responseBytes (v : Z) : list Z :=
  [pairByte (v mod 4); pairByte (v / 4 mod 4); pairByte (v / 16 mod 4);
   pairByte (v / 64 mod 4)].

(** ** The end of an action *)

Definition isFinishEvent (ev : Event) : bool :=
  match ev with
  | LoaderHasFinished _ => true
  | _ => false
  end.

(** The work of the stages in a run in which the Propeller reports a wrong
    checksum. *)
Definition checksumFails (s : Profiler.Stage) : outcome unit :=
  match s with
  | Profiler.Stage5 => Throws (ActionError PropReportsChecksumError)
  | _ => Returns tt
  end.

(** ** The pace of the status poll

    [a_receiveStatus] sleeps for [StatusPromptInterval] in every round, so
    the clock it reads in round [i] (counted from 0) is at least
    [i + 1] intervals after [start]. *)
Definition StatusPromptInterval : Z := 10.

Definition paced (start : Z) (rounds : list Round) : Prop :=
  forall i r, nth_error rounds i = Some r ->
              start + StatusPromptInterval * (Z.of_nat i + 1) <= clock r.

(** ** Sending and receiving

    The functions of the action thread that move bytes meet the surroundings
    in every round of their loop.  Time is counted in microseconds.

    The serial port keeps to its contract: [write(data, size)] takes the
    first bytes of [data], [size] at most, and returns their number;
    [read(buffer, size)] delivers the next bytes of the incoming stream,
    [size] at most, and returns their number.  So [numSent] and
    [numReceived] stay within the sizes and [size_t] never wraps. *)

Definition CancellationCheckInterval : Z := 100.   (* milliseconds *)
Definition InitBytesTimeout : Z := 1000.
Definition EarlyStage4Return : Z := 100.
Definition MinResponsivenessTimeout : Z := 1000.

(** The literals [1.5f] and [1000.0f]. *)
Definition ResponsivenessMultiplier : spec_float :=
  S754_finite false 12582912 (-23).
Definition thousand : spec_float := S754_finite false 16384000 (-14).

(** [transitDuration] in microseconds, the result in milliseconds. *)
Definition a_responsivenessTimeout (transitDuration : Z) : option Z :=
  let x := Float32.div
             (Float32.mul ResponsivenessMultiplier (Float32.of_Z transitDuration))
             thousand in
  match Float32.to_long_long x with
  | Some n => Some (Z.max n MinResponsivenessTimeout)
  | None => None
  end.

Record WriteRound : Type := mkWriteRound {
  wCancelled : bool;      (* a_isCancelled.load() *)
  wAccepts : outcome Z;   (* write: how many bytes the port can take *)
  wClock : Z              (* SteadyClock::now() *)
}.

(** The loop of [a_sendBytes]: the bytes the port has taken, and how the
    loop ends ([None] when the rounds given end before it does). *)
Fixpoint a_sendBytes_loop (bytes : list Z) (responsivenessTimeoutTime : Z)
         (potentialError : ErrorCode) (numSent : Z) (rounds : list WriteRound)
  : list Z * option (outcome unit) :=
  match rounds with
  | [] => ([], None)
  | r :: rounds' =>
    match a_throwIfCancelled (wCancelled r) with
    | Throws x => ([], Some (Throws x))
    | Returns _ =>
      match wAccepts r with
      | Throws _ => ([], Some (Throws (ActionError potentialError)))
      | Returns k =>
        let taken := firstn (Z.to_nat k) (skipn (Z.to_nat numSent) bytes) in
        let numSent := numSent + Z.of_nat (length taken) in
        if Z.of_nat (length bytes) <=? numSent then (taken, Some (Returns tt))
        else if responsivenessTimeoutTime <? wClock r
        then (taken, Some (Throws (ActionError potentialError)))
        else
          let '(sent, res) :=
            a_sendBytes_loop bytes responsivenessTimeoutTime potentialError
                             numSent rounds' in
          (taken ++ sent, res)
      end
    end
  end.

(** [a_sendBytes] returns the drain time.  The result is also [None] where
    the timing arithmetic is undefined. *)
Definition a_sendBytes (a_baudrate : Z) (bytes : list Z)
           (potentialError : ErrorCode) (now : Z) (rounds : list WriteRound)
  : list Z * option (outcome Z) :=
  let totalToSend := Z.of_nat (length bytes) in
  if totalToSend =? 0 then ([], Some (Throws (ActionError potentialError)))
  else
    match a_transitDuration a_baudrate totalToSend with
    | None => ([], None)
    | Some transitDuration =>
      let drainTime := now + transitDuration in
      match a_responsivenessTimeout transitDuration with
      | None => ([], None)
      | Some timeout =>
        let responsivenessTimeoutTime := now + 1000 * timeout in
        let '(sent, res) :=
          a_sendBytes_loop bytes responsivenessTimeoutTime potentialError 0
                           rounds in
        (sent, match res with
               | Some (Returns _) => Some (Returns drainTime)
               | Some (Throws x) => Some (Throws x)
               | None => None
               end)
      end
    end.

Record ReadRound : Type := mkReadRound {
  rCancelled : bool;      (* a_isCancelled.load() *)
  rDelivers : outcome Z;  (* read: how many bytes the port has by its timeout *)
  rClock : Z              (* SteadyClock::now() *)
}.

(** [buffer.resize(n)] *)
Definition resize (n : nat) (buffer : list Z) : list Z :=
  firstn n buffer ++ repeat 0 (n - length buffer).

(** Writing [chunk] to [data[index]], [data[index + 1]], ... *)
Definition store (buffer : list Z) (index : nat) (chunk : list Z) : list Z :=
  firstn index buffer ++ chunk ++ skipn (index + length chunk) buffer.

(** The loop of [a_receiveBytes]: the buffer, what is left of the incoming
    stream, and how the loop ends. *)
Fixpoint a_receiveBytes_loop (totalToReceive timeoutTime : Z)
         (potentialError : ErrorCode) (numReceived : Z) (buffer incoming : list Z)
         (rounds : list ReadRound)
  : list Z * list Z * option (outcome unit) :=
  match rounds with
  | [] => (buffer, incoming, None)
  | r :: rounds' =>
    match a_throwIfCancelled (rCancelled r) with
    | Throws x => (buffer, incoming, Some (Throws x))
    | Returns _ =>
      match rDelivers r with
      | Throws _ => (buffer, incoming, Some (Throws (ActionError potentialError)))
      | Returns k =>
        let chunk :=
          firstn (Z.to_nat (Z.min k (totalToReceive - numReceived))) incoming in
        let buffer := store buffer (Z.to_nat numReceived) chunk in
        let incoming := skipn (length chunk) incoming in
        let numReceived := numReceived + Z.of_nat (length chunk) in
        if totalToReceive <=? numReceived
        then (buffer, incoming, Some (Returns tt))
        else if timeoutTime <? rClock r
        then (buffer, incoming, Some (Throws (ActionError potentialError)))
        else a_receiveBytes_loop totalToReceive timeoutTime potentialError
                                 numReceived buffer incoming rounds'
      end
    end
  end.

Definition a_receiveBytes (buffer : list Z) (totalToReceive timeoutTime : Z)
           (potentialError : ErrorCode) (incoming : list Z)
           (rounds : list ReadRound)
  : list Z * list Z * option (outcome unit) :=
  if totalToReceive =? 0
  then (buffer, incoming, Some (Throws (ActionError potentialError)))
  else
    let buffer := resize (Z.to_nat totalToReceive) buffer in
    a_receiveBytes_loop totalToReceive timeoutTime potentialError 0 buffer
                        incoming rounds.
Definition InitBytes : list Z :=
  [0xf9; 0x4a; 0x25; 0xd5; 0x4a; 0xd5; 0x92; 0x95; 0x4a; 0x92; 0xd5; 0x92;
   0xca; 0xca; 0x4a; 0x95; 0xca; 0xd2; 0x92; 0xa5; 0xa9; 0xc9; 0x4a; 0x49;
   0x49; 0x2a; 0x25; 0x49; 0xa5; 0x4a; 0xaa; 0x2a; 0xa9; 0xca; 0xaa; 0x55;
   0x52; 0xaa; 0xa9; 0x29; 0x92; 0x92; 0x29; 0x25; 0x2a; 0xaa; 0x92; 0x92;
   0x55; 0xca; 0x4a; 0xca; 0xca; 0x92; 0xca; 0x92; 0x95; 0x55; 0xa9; 0x92;
   0x2a; 0xd2; 0x52; 0x92; 0x52; 0xca; 0xd2; 0xca; 0x2a; 0xff; 0xad; 0xad;
   0xad; 0xad; 0xad; 0xad; 0xad; 0xad; 0xad; 0xad; 0xad; 0xad; 0xad; 0xad;
   0xad; 0xad; 0xad; 0xad; 0xad; 0xad; 0xad; 0xad; 0xad; 0xad; 0xad; 0xad;
   0xad; 0xad; 0xad; 0xad; 0xad; 0xad; 0xad; 0xad; 0xad; 0xad; 0xad; 0xad;
   0xad; 0xad; 0xad; 0xad; 0xad; 0xad; 0xad; 0xad; 0xad; 0xad; 0xad; 0xad;
   0xad; 0xad; 0xad; 0xad; 0xad; 0xad; 0xad; 0xad; 0xad; 0xad; 0xad; 0xad;
   0xad; 0xad; 0xad; 0xad; 0xad; 0xad; 0xad; 0xad; 0xad; 0xad; 0xad; 0xad;
   0xad; 0xad; 0xad; 0xad; 0xad; 0xad; 0xad; 0xad; 0xad; 0xad; 0xad; 0xad;
   0xad; 0xad; 0xad; 0xad; 0xad; 0xad; 0xad; 0xad; 0xad; 0xad; 0xad; 0xad;
   0xad; 0xad; 0xad; 0xad; 0xad; 0xad; 0xad; 0xad; 0xad; 0xad; 0xad; 0xad;
   0xad; 0xad; 0xad; 0xad; 0xad; 0xad; 0xad; 0xad; 0xad; 0xad; 0xad; 0xad;
   0xad; 0xad; 0xad; 0xad; 0xad; 0xad; 0xad].

Definition PropAuthBytes : list Z :=
  [0xee; 0xce; 0xce; 0xcf; 0xef; 0xcf; 0xee; 0xef; 0xcf; 0xcf; 0xef; 0xef;
   0xcf; 0xce; 0xef; 0xcf; 0xee; 0xee; 0xce; 0xee; 0xef; 0xcf; 0xce; 0xee;
   0xce; 0xcf; 0xee; 0xee; 0xef; 0xcf; 0xee; 0xce; 0xee; 0xce; 0xee; 0xcf;
   0xef; 0xee; 0xef; 0xce; 0xee; 0xee; 0xcf; 0xee; 0xcf; 0xee; 0xee; 0xcf;
   0xef; 0xce; 0xcf; 0xee; 0xef; 0xee; 0xee; 0xee; 0xee; 0xef; 0xee; 0xcf;
   0xcf; 0xef; 0xee; 0xce; 0xef; 0xef; 0xef; 0xef; 0xce; 0xef; 0xee; 0xef;
   0xcf; 0xef; 0xcf; 0xcf; 0xce; 0xce; 0xce; 0xcf; 0xcf; 0xef; 0xce; 0xee;
   0xcf; 0xee; 0xef; 0xce; 0xce; 0xce; 0xef; 0xef; 0xcf; 0xcf; 0xee; 0xee;
   0xee; 0xce; 0xcf; 0xce; 0xce; 0xcf; 0xce; 0xee; 0xef; 0xee; 0xef; 0xef;
   0xcf; 0xef; 0xce; 0xce; 0xef; 0xce; 0xee; 0xce; 0xef; 0xce; 0xce; 0xee;
   0xcf; 0xcf; 0xce; 0xcf; 0xcf].

(** *** Stage 3 *)

Record Stage3Env : Type := mkStage3Env {
  cancelledAtSending : bool;         (* checkpoint "sending initial bytes" *)
  sendingNow : Z;                    (* the clock when [a_sendBytes] starts *)
  initWrites : list WriteRound;
  cancelledAtAuthenticating : bool;  (* "authenticating Propeller chip" *)
  authReads : list ReadRound;
  cancelledAtVerifying : bool;       (* "verifying Propeller chip version" *)
  versionReads : list ReadRound
}.

(** The result of a stage that sends and receives: the bytes the port has
    taken, [a_buffer], what is left of the incoming stream, and how the
    body of the stage ends (before the call that ends the stage in the
    profiler). *)
Record Exchange : Type := mkExchange {
  taken : list Z;
  a_buffer : list Z;
  incoming : list Z;
  ending : option (outcome unit)
}.

Definition a_stage3_work (a_baudrate : Z) (buffer stream : list Z)
           (env : Stage3Env) : Exchange :=
  match a_checkPoint (cancelledAtSending env) with
  | Throws x => mkExchange [] buffer stream (Some (Throws x))
  | Returns _ =>
    match a_sendBytes a_baudrate InitBytes FailedToSendInitialBytes
                      (sendingNow env) (initWrites env) with
    | (sent, None) => mkExchange sent buffer stream None
    | (sent, Some (Throws x)) => mkExchange sent buffer stream (Some (Throws x))
    | (sent, Some (Returns initTimeoutTime)) =>
      match a_checkPoint (cancelledAtAuthenticating env) with
      | Throws x => mkExchange sent buffer stream (Some (Throws x))
      | Returns _ =>
        let initTimeoutTime := initTimeoutTime + 1000 * InitBytesTimeout in
        match a_receiveBytes buffer (Z.of_nat (length PropAuthBytes))
                initTimeoutTime FailedToReceivePropAuthentication stream
                (authReads env) with
        | (buffer, stream, None) => mkExchange sent buffer stream None
        | (buffer, stream, Some (Throws x)) =>
            mkExchange sent buffer stream (Some (Throws x))
        | (buffer, stream, Some (Returns _)) =>
          if list_eq_dec Z.eq_dec PropAuthBytes buffer then
            match a_checkPoint (cancelledAtVerifying env) with
            | Throws x => mkExchange sent buffer stream (Some (Throws x))
            | Returns _ =>
              match a_receiveBytes buffer 4 initTimeoutTime
                      FailedToReceiveChipVersion stream (versionReads env) with
              | (buffer, stream, None) => mkExchange sent buffer stream None
              | (buffer, stream, Some (Throws x)) =>
                  mkExchange sent buffer stream (Some (Throws x))
              | (buffer, stream, Some (Returns _)) =>
                mkExchange sent buffer stream
                  (Some
                     match decode3BPByte buffer with
                     | Throws _ => Throws (ActionError FailedToDecodeChipVersion)
                     | Returns (version, _) =>
                       if negb (version =? 1)
                       then Throws (ActionError UnsupportedChipVersion)
                       else Returns tt
                     end)
              end
            end
          else mkExchange sent buffer stream
                 (Some (Throws (ActionError FailedToAuthenticateProp)))
        end
      end
    end
  end.

(** The error codes of stage 3. *)
Definition stage3Errors : list ErrorCode :=
  [Cancelled; FailedToSendInitialBytes; FailedToReceivePropAuthentication;
   FailedToAuthenticateProp; FailedToReceiveChipVersion;
   FailedToDecodeChipVersion; UnsupportedChipVersion].

(** A port that takes and delivers everything at once, at time 0. *)
Definition promptWrite : WriteRound := mkWriteRound false (Returns 100000) 0.
Definition promptRead : ReadRound := mkReadRound false (Returns 100000) 0.
Definition promptStage3 : Stage3Env :=
  mkStage3Env false 0 [promptWrite] false [promptRead] false [promptRead].

(** *** Stage 4 *)

Record WaitRound : Type := mkWaitRound {
  waCancelled : bool;       (* a_isCancelled.load() at the top of the loop *)
  waCancelledAfter : bool;  (* ... after the last sleep *)
  waClock : Z               (* SteadyClock::now() after a full sleep *)
}.

Fixpoint a_waitUntil_loop (waitTime timeRemaining : Z) (rounds : list WaitRound)
  : option (outcome unit) :=
  if 0 <? timeRemaining then
    match rounds with
    | [] => None
    | r :: rounds' =>
      match a_throwIfCancelled (waCancelled r) with
      | Throws x => Some (Throws x)
      | Returns _ =>
        if timeRemaining <? 1000 * CancellationCheckInterval
        then Some (a_throwIfCancelled (waCancelledAfter r))
        else a_waitUntil_loop waitTime (waitTime - waClock r) rounds'
      end
    end
  else Some (Returns tt).

Definition a_waitUntil (waitTime now : Z) (rounds : list WaitRound)
  : option (outcome unit) :=
  let timeRemaining := waitTime - now in
  a_waitUntil_loop waitTime timeRemaining rounds.

Record Stage4aEnv : Type := mkStage4aEnv {
  cancelledAtCommand : bool;   (* checkpoint "sending command" *)
  commandNow : Z;
  commandWrites : list WriteRound
}.

(** The body of [a_stage4a_sendCommand]: the bytes the port has taken, and
    [a_stage4DrainTime]. *)
Definition a_stage4a_work (a_baudrate : Z) (a_action : Action)
           (env : Stage4aEnv) : list Z * option (outcome Z) :=
  match a_checkPoint (cancelledAtCommand env) with
  | Throws x => ([], Some (Throws x))
  | Returns _ =>
    match encodedCommand a_action with
    | Throws x => ([], Some (Throws x))
    | Returns table =>
        a_sendBytes a_baudrate table FailedToSendCommand (commandNow env)
                    (commandWrites env)
    end
  end.

Record Stage4bEnv : Type := mkStage4bEnv {
  cancelledAtImageSize : bool;   (* checkpoint "sending image size" *)
  sizeNow : Z;
  sizeWrites : list WriteRound;
  cancelledAtImage : bool;       (* checkpoint "sending image" *)
  imageNow : Z;
  imageWrites : list WriteRound;
  waitNow : Z;
  waits : list WaitRound
}.

(** The body of [a_stage4b_sendImage]: the bytes the port has taken,
    [a_buffer], and [a_stage4DrainTime].  The encoder throws nothing, so the
    handler for [FailedToEncodeImageSize] is never entered. *)
Definition a_stage4b_work (a_baudrate a_imageSizeInLongs : Z)
           (a_encodedImage buffer : list Z) (a_stage4DrainTime : Z)
           (env : Stage4bEnv) : list Z * list Z * option (outcome Z) :=
  match a_checkPoint (cancelledAtImageSize env) with
  | Throws x => ([], buffer, Some (Throws x))
  | Returns _ =>
    let encoder := TBP.new buffer in
    let encoder := TBP.encodeLong encoder (u32 a_imageSizeInLongs) in
    let buffer := TBP.buffer encoder in
    match a_sendBytes a_baudrate buffer FailedToSendImageSize (sizeNow env)
                      (sizeWrites env) with
    | (sent, None) => (sent, buffer, None)
    | (sent, Some (Throws x)) => (sent, buffer, Some (Throws x))
    | (sent, Some (Returns _)) =>
      match a_checkPoint (cancelledAtImage env) with
      | Throws x => (sent, buffer, Some (Throws x))
      | Returns _ =>
        match a_sendBytes a_baudrate a_encodedImage FailedToSendImage
                          (imageNow env) (imageWrites env) with
        | (sent', None) => (sent ++ sent', buffer, None)
        | (sent', Some (Throws x)) => (sent ++ sent', buffer, Some (Throws x))
        | (sent', Some (Returns _)) =>
          match a_transitDuration a_baudrate
                  (Z.of_nat (length buffer) + Z.of_nat (length a_encodedImage)) with
          | None => (sent ++ sent', buffer, None)
          | Some transitDuration =>
            let a_stage4DrainTime := a_stage4DrainTime + transitDuration in
            match a_waitUntil (a_stage4DrainTime - 1000 * EarlyStage4Return)
                              (waitNow env) (waits env) with
            | None => (sent ++ sent', buffer, None)
            | Some (Throws x) => (sent ++ sent', buffer, Some (Throws x))
            | Some (Returns _) =>
                (sent ++ sent', buffer, Some (Returns a_stage4DrainTime))
            end
          end
        end
      end
    end
  end.

(** The error codes of stage 4. *)
Definition stage4Errors : list ErrorCode :=
  [Cancelled; FailedToSendCommand; FailedToSendImageSize; FailedToSendImage].

Definition promptStage4a : Stage4aEnv := mkStage4aEnv false 0 [promptWrite].
Definition promptStage4b : Stage4bEnv :=
  mkStage4bEnv false 0 [promptWrite] false 0 [promptWrite] 0
               [mkWaitRound false false 0].

(** ** Starting an action

    The state the public functions and the action thread share: the settings
    (the atomics of the setters), the action in progress, the cancellation
    flag, the action counter, the settings locked in for the action, and the
    encoded image with its size in longs. *)

Record Loader : Type := mkLoader {
  settings : Settings;
  a_action : Action;
  a_isCancelled : bool;
  a_counter : Z;                 (* uint32_t *)
  a_settings : Settings;         (* a_baudrate, a_resetLine, ... *)
  a_encodedImage : list Z;
  a_imageSizeInLongs : Z
}.

Definition actionRequiresImage (action : Action) : bool :=
  Action_eqb action LoadRAM || Action_eqb action ProgramEEPROMThenShutdown ||
  Action_eqb action ProgramEEPROMThenRun.

Definition isBusy (l : Loader) : bool :=
  negb (Action_eqb (a_action l) ActionNone).

Definition cancel (l : Loader) : Loader :=
  mkLoader (settings l) (a_action l) true (a_counter l) (a_settings l)
           (a_encodedImage l) (a_imageSizeInLongs l).

(** What leaves [startAction]: nothing (the thread is launched), a
    [std::logic_error] for an invalid action, a [simple::IsBusyError], or the
    exception of [verifyAndEncodeImage]. *)
Inductive StartResult : Type :=
  | Started
  | InvalidAction
  | IsBusyError
  | ImageRejected (x : exn).

(** With assertions disabled; [assert(false)] stops the program otherwise. *)
Definition startAction (l : Loader) (action : Action) (image : list Z)
  : Loader * StartResult :=
  if negb (actionIsValid action) then (l, InvalidAction)
  else if isBusy l then (l, IsBusyError)
  else
    let a_settings := settings l in
    let a_counter := u32 (a_counter l + 1) in
    if actionRequiresImage action then
      match verifyAndEncodeImage image (a_encodedImage l) with
      | (a_encodedImage, Throws x) =>
          (mkLoader (settings l) (a_action l) (a_isCancelled l) a_counter
                    a_settings a_encodedImage (a_imageSizeInLongs l),
           ImageRejected x)
      | (a_encodedImage, Returns a_imageSizeInLongs) =>
          (mkLoader (settings l) action false a_counter a_settings
                    a_encodedImage a_imageSizeInLongs,
           Started)
      end
    else
      (mkLoader (settings l) action false a_counter a_settings
                (a_encodedImage l) (a_imageSizeInLongs l),
       Started).

Definition restart (l : Loader) : Loader * StartResult :=
  startAction l Restart [].

Definition shutdown (l : Loader) : Loader * StartResult :=
  startAction l Shutdown [].

Definition loadRAM (l : Loader) (image : list Z) : Loader * StartResult :=
  startAction l LoadRAM image.

Definition programEEPROM (l : Loader) (image : list Z) (runAfterwards : bool)
  : Loader * StartResult :=
  if runAfterwards then startAction l ProgramEEPROMThenRun image
  else startAction l ProgramEEPROMThenShutdown image.

(** [finishAction], called by the action thread at its end. *)
Definition finishAction (l : Loader) : Loader :=
  mkLoader (settings l) ActionNone (a_isCancelled l) (a_counter l)
           (a_settings l) (a_encodedImage l) (a_imageSizeInLongs l).

(** [willMakeInactive]: whether it throws [hserial::ControllerRefuses]. *)
Definition willMakeInactive (l : Loader) : bool := isBusy l.

Definition idleLoader : Loader :=
  mkLoader defaultSettings ActionNone false 0 defaultSettings [] 0.

(** The value of a finite binary32 number, scaled by 2^64 (small numbers
    need more room than [sval] gives). *)
Definition sval64 (m : positive) (e : Z) : Z := Zpos m * 2 ^ (e + 64).
(** ** Basic facts about the encoder *)

Section EncoderFacts.

Import ThreeBitProtocolEncoder.

Lemma encodeBit_fuel_cases (fuel : nat) (e : t) (bit idleBits : Z) :
  encodeBit_fuel (S (S fuel)) e bit idleBits =
  Some (if bitPos e =? 0 then startByte e bit idleBits
        else if (10 <=? bitPos e) || (10 <? bitPos e + pulseWidth bit + idleBits)
             then startByte (pushCurrByteIfNotEmpty e) bit idleBits
             else placeBit e bit idleBits).
Proof.
  unfold startByte, placeBit, pulseWidth.
  cbn [encodeBit_fuel].
  destruct (bitPos e =? 0) eqn:H0.
  - assert (Hlt : (10 <=? bitPos e) = false) by (apply Z.eqb_eq in H0; rewrite H0; reflexivity).
    rewrite Hlt, H0. destruct (bit =? 0); reflexivity.
  - destruct (10 <=? bitPos e) eqn:H10; cbn [orb].
    + unfold pushCurrByteIfNotEmpty. rewrite H0. cbn [bitPos buffer currByte].
      change (0 =? 0) with true. cbv iota. destruct (bit =? 0); reflexivity.
    + rewrite H0. destruct (bit =? 0) eqn:Hb.
      * destruct (10 <? bitPos e + 2 + idleBits) eqn:Hn; [|reflexivity].
        unfold pushCurrByteIfNotEmpty. rewrite H0. cbn [bitPos buffer currByte].
        reflexivity.
      * destruct (10 <? bitPos e + 1 + idleBits) eqn:Hn; [|reflexivity].
        unfold pushCurrByteIfNotEmpty. rewrite H0. cbn [bitPos buffer currByte].
        reflexivity.
Qed.

(** [encodeBit] returns: the nesting of its calls never exceeds two. *)
Lemma encodeBit_total (fuel : nat) (e : t) (bit idleBits : Z) :
  (2 <= fuel)%nat ->
  encodeBit_fuel fuel e bit idleBits = Some (encodeBit e bit idleBits).
Proof.
  intros Hf. destruct fuel as [|[|fuel]]; try lia.
  unfold encodeBit. rewrite !encodeBit_fuel_cases. reflexivity.
Qed.

Lemma encodeBit_cases (e : t) (bit idleBits : Z) :
  encodeBit e bit idleBits =
  if bitPos e =? 0 then startByte e bit idleBits
  else if (10 <=? bitPos e) || (10 <? bitPos e + pulseWidth bit + idleBits)
       then startByte (pushCurrByteIfNotEmpty e) bit idleBits
       else placeBit e bit idleBits.
Proof.
  unfold encodeBit. rewrite encodeBit_fuel_cases. reflexivity.
Qed.


(** *** The buffer is only appended to *)

Lemma prepend_push (pre : list Z) (e : t) :
  pushCurrByteIfNotEmpty (prepend pre e) = prepend pre (pushCurrByteIfNotEmpty e).
Proof.
  unfold pushCurrByteIfNotEmpty, prepend; cbn [bitPos buffer currByte].
  destruct (bitPos e =? 0); [reflexivity|].
  cbn [bitPos buffer currByte]. now rewrite app_assoc.
Qed.

Lemma prepend_encodeBit (pre : list Z) (e : t) (bit idleBits : Z) :
  encodeBit (prepend pre e) bit idleBits = prepend pre (encodeBit e bit idleBits).
Proof.
  rewrite !encodeBit_cases. rewrite prepend_push.
  change (bitPos (prepend pre e)) with (bitPos e).
  destruct (bitPos e =? 0); [reflexivity|].
  destruct ((10 <=? bitPos e) || (10 <? bitPos e + pulseWidth bit + idleBits));
    reflexivity.
Qed.

Lemma prepend_encodeLongInternal_loop (n : nat) :
  forall (pre : list Z) (e : t) (longValue : Z),
    encodeLongInternal_loop n (prepend pre e) longValue =
    (prepend pre (fst (encodeLongInternal_loop n e longValue)),
     snd (encodeLongInternal_loop n e longValue)).
Proof.
  induction n as [|n IH]; intros pre e longValue.
  - reflexivity.
  - cbn [encodeLongInternal_loop]. rewrite prepend_encodeBit. apply IH.
Qed.

Lemma prepend_encodeLongInternal (pre : list Z) (e : t) (longValue : Z) :
  encodeLongInternal (prepend pre e) longValue =
  prepend pre (encodeLongInternal e longValue).
Proof.
  unfold encodeLongInternal. rewrite prepend_encodeLongInternal_loop.
  destruct (encodeLongInternal_loop 31 e longValue) as [e' v'].
  cbn [fst snd]. apply prepend_encodeBit.
Qed.

Lemma fold_left_cons {A B : Type} (f : A -> B -> A) (x : B) (l : list B) (a : A) :
  fold_left f (x :: l) a = fold_left f l (f a x).
Proof. reflexivity. Qed.

Lemma prepend_fold (longs : list Z) :
  forall (pre : list Z) (e : t),
    fold_left encodeLongInternal longs (prepend pre e) =
    prepend pre (fold_left encodeLongInternal longs e).
Proof.
  induction longs as [|w ws IH]; intros pre e.
  - reflexivity.
  - rewrite !fold_left_cons, prepend_encodeLongInternal. apply IH.
Qed.

(** *** Packing bytes into longs *)

Lemma lor_shift_byte (a b n : Z) :
  0 <= n -> 0 <= a < 2 ^ n -> 0 <= b ->
  Z.lor a (Z.shiftl b n) = a + b * 2 ^ n.
Proof.
  intros Hn Ha Hb.
  rewrite Z.shiftl_mul_pow2 by assumption.
  assert (Hland : Z.land a (b * 2 ^ n) = 0); [|
    now rewrite <- (Z.lxor_lor _ _ Hland), (Z.add_nocarry_lxor _ _ Hland)].
  apply Z.bits_inj'. intros i Hi.
  rewrite Z.land_spec, Z.bits_0.
  destruct (Z.lt_ge_cases i n) as [Hlt|Hge].
  - rewrite (Z.mul_pow2_bits_low b n i Hlt). apply andb_false_r.
  - assert (Hai : Z.testbit a i = false).
    { destruct (Z.eq_dec a 0) as [->|Hne]; [apply Z.bits_0|].
      apply Z.bits_above_log2; [lia|].
      apply Z.lt_le_trans with n; [|assumption].
      apply Z.log2_lt_pow2; lia. }
    rewrite Hai. reflexivity.
Qed.

Lemma long_of_four (b0 b1 b2 b3 : Z) :
  isByte b0 -> isByte b1 -> isByte b2 -> isByte b3 ->
  u32 (Z.lor (u32 (Z.lor (u32 (Z.lor (Z.lor 0 b0) (Z.shiftl b1 8)))
                         (Z.shiftl b2 16)))
             (Z.shiftl b3 24)) = longOfBytes b0 b1 b2 b3.
Proof.
  unfold isByte, u32, longOfBytes. intros H0 H1 H2 H3.
  rewrite Z.lor_0_l.
  rewrite (lor_shift_byte b0 b1 8) by lia.
  rewrite (Z.mod_small (b0 + _)) by lia.
  rewrite (lor_shift_byte _ b2 16) by lia.
  rewrite (Z.mod_small (b0 + _ + _)) by lia.
  rewrite (lor_shift_byte _ b3 24) by lia.
  rewrite Z.mod_small by lia. lia.
Qed.


Lemma at_app (full tail : list Z) (k : nat) :
  at_ (full ++ tail) (Z.of_nat (length full) + Z.of_nat k) = nth k tail 0.
Proof.
  unfold at_. rewrite <- Nat2Z.inj_add, Nat2Z.id.
  rewrite app_nth2 by lia. f_equal. lia.
Qed.

Lemma at_app0 (full tail : list Z) :
  at_ (full ++ tail) (Z.of_nat (length full)) = nth 0 tail 0.
Proof.
  rewrite <- (at_app full tail 0). f_equal. simpl. lia.
Qed.

Lemma encodeBytesAsLongs_loop_O (data : list Z) (e : t) (index : Z) :
  encodeBytesAsLongs_loop O data e index = (e, index).
Proof. reflexivity. Qed.

Lemma encodeBytesAsLongs_loop_S (n : nat) (data : list Z) (e : t) (index : Z) :
  encodeBytesAsLongs_loop (S n) data e index =
  encodeBytesAsLongs_loop n data
    (encodeLongInternal e
       (u32 (Z.lor (u32 (Z.lor (u32 (Z.lor (Z.lor 0 (at_ data index))
                                          (Z.shiftl (at_ data (index + 1)) 8)))
                               (Z.shiftl (at_ data (index + 2)) 16)))
                   (Z.shiftl (at_ data (index + 3)) 24))))
    (index + 4).
Proof. reflexivity. Qed.

Lemma longsOfBytes_four (b0 b1 b2 b3 : Z) (rest : list Z) :
  longsOfBytes (b0 :: b1 :: b2 :: b3 :: rest) =
  longOfBytes b0 b1 b2 b3 :: longsOfBytes rest.
Proof. reflexivity. Qed.

Lemma encodeBytesAsLongs_loop_spec (n : nat) :
  forall (pre full tail : list Z) (e : t),
    length full = (4 * n)%nat -> Forall isByte full ->
    encodeBytesAsLongs_loop n (pre ++ full ++ tail) e (Z.of_nat (length pre)) =
    (fold_left encodeLongInternal (longsOfBytes full) e,
     Z.of_nat (length pre) + 4 * Z.of_nat n).
Proof.
  induction n as [|n IH]; intros pre full tail e Hlen Hb.
  - destruct full; [|discriminate].
    rewrite encodeBytesAsLongs_loop_O. f_equal. lia.
  - destruct full as [|b0 [|b1 [|b2 [|b3 full]]]]; try (cbn in Hlen; lia).
    rewrite encodeBytesAsLongs_loop_S.
    rewrite (at_app0 pre), (at_app pre _ 1), (at_app pre _ 2), (at_app pre _ 3).
    change (nth 0 ((b0 :: b1 :: b2 :: b3 :: full) ++ tail) 0) with b0.
    change (nth 1 ((b0 :: b1 :: b2 :: b3 :: full) ++ tail) 0) with b1.
    change (nth 2 ((b0 :: b1 :: b2 :: b3 :: full) ++ tail) 0) with b2.
    change (nth 3 ((b0 :: b1 :: b2 :: b3 :: full) ++ tail) 0) with b3.
    inversion Hb as [|? ? H0 Hb1]; subst.
    inversion Hb1 as [|? ? H1 Hb2]; subst.
    inversion Hb2 as [|? ? H2 Hb3]; subst.
    inversion Hb3 as [|? ? H3 Hb4]; subst.
    rewrite long_of_four by assumption.
    assert (Hdata : pre ++ (b0 :: b1 :: b2 :: b3 :: full) ++ tail =
                    (pre ++ [b0; b1; b2; b3]) ++ full ++ tail)
      by (rewrite <- app_assoc; reflexivity).
    assert (Hidx : Z.of_nat (length pre) + 4 =
                   Z.of_nat (length (pre ++ [b0; b1; b2; b3])))
      by (rewrite length_app; cbn [length]; lia).
    rewrite Hdata, Hidx.
    rewrite IH; [|cbn in Hlen; lia|assumption].
    rewrite longsOfBytes_four, fold_left_cons. f_equal. lia.
Qed.

Lemma longsOfBytes_app (n : nat) :
  forall (full tail : list Z),
    length full = (4 * n)%nat ->
    longsOfBytes (full ++ tail) = longsOfBytes full ++ longsOfBytes tail.
Proof.
  induction n as [|n IH]; intros full tail Hlen.
  - destruct full; [reflexivity|discriminate].
  - destruct full as [|b0 [|b1 [|b2 [|b3 full]]]]; try (cbn in Hlen; lia).
    cbn [app longsOfBytes]. rewrite IH by (cbn in Hlen; lia). reflexivity.
Qed.

Lemma longsOfBytes_length_full (n : nat) :
  forall (full : list Z),
    length full = (4 * n)%nat -> length (longsOfBytes full) = n.
Proof.
  induction n as [|n IH]; intros full Hlen.
  - destruct full; [reflexivity|discriminate].
  - destruct full as [|b0 [|b1 [|b2 [|b3 full]]]]; try (cbn in Hlen; lia).
    cbn [longsOfBytes length]. rewrite IH by (cbn in Hlen; lia). reflexivity.
Qed.

(** Every byte sequence is a run of full groups followed by at most three
    bytes. *)
Lemma split_full_tail (bytes : list Z) :
  exists (n : nat) (full tail : list Z),
    bytes = full ++ tail /\ length full = (4 * n)%nat /\ (length tail < 4)%nat.
Proof.
  exists (length bytes / 4)%nat,
         (firstn (4 * (length bytes / 4)) bytes),
         (skipn (4 * (length bytes / 4)) bytes).
  pose proof (Nat.div_mod_eq (length bytes) 4) as Hdm.
  pose proof (Nat.mod_upper_bound (length bytes) 4) as Hub.
  repeat split.
  - symmetry. apply firstn_skipn.
  - rewrite length_firstn. lia.
  - rewrite length_skipn. lia.
Qed.


Lemma lor_byte_8 (b0 b1 : Z) :
  isByte b0 -> isByte b1 ->
  u32 (Z.lor (Z.lor 0 b0) (Z.shiftl b1 8)) = longOfBytes b0 b1 0 0.
Proof.
  unfold isByte, u32, longOfBytes. intros H0 H1.
  rewrite Z.lor_0_l, (lor_shift_byte b0 b1 8) by lia.
  rewrite Z.mod_small by lia. lia.
Qed.

Lemma lor_byte_16 (b0 b1 b2 : Z) :
  isByte b0 -> isByte b1 -> isByte b2 ->
  u32 (Z.lor (u32 (Z.lor (Z.lor 0 b0) (Z.shiftl b1 8))) (Z.shiftl b2 16)) =
  longOfBytes b0 b1 b2 0.
Proof.
  intros H0 H1 H2. rewrite lor_byte_8 by assumption.
  unfold isByte, u32, longOfBytes in *.
  rewrite (lor_shift_byte _ b2 16) by lia.
  rewrite Z.mod_small by lia. lia.
Qed.

(** [encodeBytesAsLongs] encodes the longs of the byte sequence, pushes the
    open byte and returns the number of longs. *)
Lemma encodeBytesAsLongs_unfold (e : t) (bytes : list Z) :
  encodeBytesAsLongs e bytes =
  let numBytes := Z.of_nat (length bytes) in
  let l := encodeBytesAsLongs_loop (Z.to_nat (numBytes / 4)) bytes e 0 in
  if snd l <? numBytes then
    let w0 := Z.lor 0 (at_ bytes (snd l)) in
    let w1 := if snd l + 1 <? numBytes
              then u32 (Z.lor w0 (Z.shiftl (at_ bytes (snd l + 1)) 8)) else w0 in
    let i1 := if snd l + 1 <? numBytes then snd l + 1 + 1 else snd l + 1 in
    let w2 := if i1 <? numBytes
              then u32 (Z.lor w1 (Z.shiftl (at_ bytes i1) 16)) else w1 in
    (pushCurrByteIfNotEmpty (encodeLongInternal (fst l) w2), numBytes / 4 + 1)
  else (pushCurrByteIfNotEmpty (fst l), numBytes / 4).
Proof.
  unfold encodeBytesAsLongs. cbv zeta.
  destruct (encodeBytesAsLongs_loop _ bytes e 0) as [e' index].
  cbn [fst snd].
  destruct (index <? _); [|reflexivity].
  destruct (index + 1 <? _); destruct (_ <? _); reflexivity.
Qed.

(** [encodeBytesAsLongs] encodes the longs of the byte sequence, pushes the
    open byte and returns the number of longs. *)
Lemma encodeBytesAsLongs_longs (e : t) (bytes : list Z) :
  Forall isByte bytes ->
  encodeBytesAsLongs e bytes =
  (pushCurrByteIfNotEmpty (fold_left encodeLongInternal (longsOfBytes bytes) e),
   Z.of_nat (length (longsOfBytes bytes))).
Proof.
  intros Hb.
  destruct (split_full_tail bytes) as (n & full & tail & -> & Hfull & Htail).
  apply Forall_app in Hb. destruct Hb as [Hbf Hbt].
  rewrite encodeBytesAsLongs_unfold. cbv zeta.
  assert (Hdiv : Z.of_nat (length (full ++ tail)) / 4 = Z.of_nat n).
  { rewrite length_app, Hfull.
    symmetry; apply Z.div_unique with (Z.of_nat (length tail)); lia. }
  rewrite Hdiv, Nat2Z.id.
  pose proof (encodeBytesAsLongs_loop_spec n [] full tail e Hfull Hbf) as Hloop.
  change ([] ++ full ++ tail) with (full ++ tail) in Hloop.
  change (Z.of_nat (length (@nil Z))) with 0 in Hloop.
  rewrite Hloop. clear Hloop. cbn [fst snd].
  rewrite (longsOfBytes_app n) by assumption.
  rewrite fold_left_app, !length_app, (longsOfBytes_length_full n) by assumption.
  replace (0 + 4 * Z.of_nat n) with (Z.of_nat (length full)) by lia.
  set (e' := fold_left encodeLongInternal (longsOfBytes full) e).
  destruct tail as [|b0 [|b1 [|b2 [|b3 tail]]]]; cbn [length] in Htail; try lia.
  - rewrite (proj2 (Z.ltb_ge _ _)) by (cbn [length]; lia).
    change (longsOfBytes []) with (@nil Z).
    change (fold_left encodeLongInternal [] e') with e'.
    do 2 f_equal. cbn [length]. lia.
  - rewrite (proj2 (Z.ltb_lt (Z.of_nat (length full)) _)) by (cbn [length]; lia).
    rewrite (proj2 (Z.ltb_ge (Z.of_nat (length full) + 1) _)) by (cbn [length]; lia).
    rewrite (proj2 (Z.ltb_ge (Z.of_nat (length full) + 1) _)) by (cbn [length]; lia).
    rewrite at_app0. change (nth 0 [b0] 0) with b0.
    change (longsOfBytes [b0]) with [longOfBytes b0 0 0 0].
    rewrite fold_left_cons.
    change (fold_left encodeLongInternal [] ?x) with x.
    replace (Z.lor 0 b0) with (longOfBytes b0 0 0 0)
      by (rewrite Z.lor_0_l; unfold longOfBytes; lia).
    f_equal. cbn [length]. lia.
  - rewrite (proj2 (Z.ltb_lt (Z.of_nat (length full)) _)) by (cbn [length]; lia).
    rewrite (proj2 (Z.ltb_lt (Z.of_nat (length full) + 1) _)) by (cbn [length]; lia).
    rewrite (proj2 (Z.ltb_ge (Z.of_nat (length full) + 1 + 1) _)) by (cbn [length]; lia).
    rewrite at_app0, (at_app full _ 1).
    change (nth 0 [b0; b1] 0) with b0. change (nth 1 [b0; b1] 0) with b1.
    change (longsOfBytes [b0; b1]) with [longOfBytes b0 b1 0 0].
    rewrite fold_left_cons.
    change (fold_left encodeLongInternal [] ?x) with x.
    inversion Hbt as [|? ? H0 Hb1]; subst. inversion Hb1 as [|? ? H1 _]; subst.
    rewrite lor_byte_8 by assumption.
    f_equal. cbn [length]. lia.
  - rewrite (proj2 (Z.ltb_lt (Z.of_nat (length full)) _)) by (cbn [length]; lia).
    rewrite (proj2 (Z.ltb_lt (Z.of_nat (length full) + 1) _)) by (cbn [length]; lia).
    rewrite (proj2 (Z.ltb_lt (Z.of_nat (length full) + 1 + 1) _)) by (cbn [length]; lia).
    rewrite at_app0, (at_app full _ 1).
    replace (Z.of_nat (length full) + 1 + 1)
      with (Z.of_nat (length full) + Z.of_nat 2) by lia.
    rewrite (at_app full _ 2).
    change (nth 0 [b0; b1; b2] 0) with b0. change (nth 1 [b0; b1; b2] 0) with b1.
    change (nth 2 [b0; b1; b2] 0) with b2.
    change (longsOfBytes [b0; b1; b2]) with [longOfBytes b0 b1 b2 0].
    rewrite fold_left_cons.
    change (fold_left encodeLongInternal [] ?x) with x.
    inversion Hbt as [|? ? H0 Hb1]; subst. inversion Hb1 as [|? ? H1 Hb2]; subst.
    inversion Hb2 as [|? ? H2 _]; subst.
    rewrite lor_byte_16 by assumption.
    f_equal. cbn [length]. lia.
Qed.


Lemma longsOfBytes_length (bytes : list Z) :
  Z.of_nat (length (longsOfBytes bytes)) = (Z.of_nat (length bytes) + 3) / 4.
Proof.
  destruct (split_full_tail bytes) as (n & full & tail & -> & Hfull & Htail).
  rewrite (longsOfBytes_app n), !length_app, (longsOfBytes_length_full n), Hfull
    by assumption.
  destruct tail as [|b0 [|b1 [|b2 [|b3 tail]]]]; cbn [length] in Htail; try lia;
    cbn [longsOfBytes length].
  - apply Z.div_unique with 3; lia.
  - apply Z.div_unique with 0; lia.
  - apply Z.div_unique with 1; lia.
  - apply Z.div_unique with 2; lia.
Qed.

Lemma fullLongs_app (n : nat) :
  forall (full tail : list Z),
    length full = (4 * n)%nat ->
    fullLongs (full ++ tail) = longsOfBytes full ++ fullLongs tail.
Proof.
  induction n as [|n IH]; intros full tail Hlen.
  - destruct full; [reflexivity|discriminate].
  - destruct full as [|b0 [|b1 [|b2 [|b3 full]]]]; try (cbn in Hlen; lia).
    cbn [app longsOfBytes fullLongs]. rewrite IH by (cbn in Hlen; lia). reflexivity.
Qed.

(** The longs of a byte sequence are the complete groups of the sequence
    padded with NUL bytes to a multiple of four. *)
Lemma longsOfBytes_padded (bytes : list Z) :
  longsOfBytes bytes = fullLongs (padToLongs bytes).
Proof.
  destruct (split_full_tail bytes) as (n & full & tail & -> & Hfull & Htail).
  unfold padToLongs. rewrite <- app_assoc.
  rewrite (longsOfBytes_app n), (fullLongs_app n) by assumption. f_equal.
  rewrite length_app, Hfull.
  destruct tail as [|b0 [|b1 [|b2 [|b3 tail]]]]; cbn [length] in Htail; try lia;
    cbn [length].
  - replace ((4 - Z.of_nat (4 * n + 0) mod 4) mod 4) with 0; [reflexivity|].
    replace (Z.of_nat (4 * n + 0)) with (0 + Z.of_nat n * 4) by lia.
    rewrite Z_mod_plus_full. reflexivity.
  - replace ((4 - Z.of_nat (4 * n + 1) mod 4) mod 4) with 3; [reflexivity|].
    replace (Z.of_nat (4 * n + 1)) with (1 + Z.of_nat n * 4) by lia.
    rewrite Z_mod_plus_full. reflexivity.
  - replace ((4 - Z.of_nat (4 * n + 2) mod 4) mod 4) with 2; [reflexivity|].
    replace (Z.of_nat (4 * n + 2)) with (2 + Z.of_nat n * 4) by lia.
    rewrite Z_mod_plus_full. reflexivity.
  - replace ((4 - Z.of_nat (4 * n + 3) mod 4) mod 4) with 1; [reflexivity|].
    replace (Z.of_nat (4 * n + 3)) with (3 + Z.of_nat n * 4) by lia.
    rewrite Z_mod_plus_full. reflexivity.
Qed.

Lemma padToLongs_length (bytes : list Z) :
  Z.of_nat (length (padToLongs bytes)) mod 4 = 0.
Proof.
  unfold padToLongs. rewrite length_app, repeat_length, Nat2Z.inj_add.
  pose proof (Z.mod_pos_bound (Z.of_nat (length bytes)) 4 ltac:(lia)) as Hm.
  pose proof (Z.mod_pos_bound (4 - Z.of_nat (length bytes) mod 4) 4 ltac:(lia)) as Hp.
  rewrite Z2Nat.id by lia.
  rewrite Z.add_mod_idemp_r by lia.
  rewrite <- Z.add_mod_idemp_l by lia.
  replace (Z.of_nat (length bytes) mod 4 + (4 - Z.of_nat (length bytes) mod 4))
    with (1 * 4) by lia.
  apply Z_mod_mult.
Qed.

(** *** Counting the appended bytes *)

Lemma prepend_dropBuffer (e : t) : prepend (buffer e) (dropBuffer e) = e.
Proof.
  destruct e as [b p c]. unfold prepend, dropBuffer; cbn [buffer bitPos currByte].
  now rewrite app_nil_r.
Qed.

Lemma encodeLongInternal_frame (e : t) (w : Z) :
  encodeLongInternal e w =
  prepend (buffer e) (encodeLongInternal (dropBuffer e) w).
Proof.
  rewrite <- prepend_encodeLongInternal, prepend_dropBuffer. reflexivity.
Qed.

Lemma appendedBytes_nil (e : t) (acc : Z) :
  appendedBytes [] e acc = (acc, dropBuffer e).
Proof. reflexivity. Qed.

Lemma appendedBytes_cons (w : Z) (longs : list Z) (e : t) (acc : Z) :
  appendedBytes (w :: longs) e acc =
  appendedBytes longs (encodeLongInternal (dropBuffer e) w)
    (acc + Z.of_nat (length (buffer (encodeLongInternal (dropBuffer e) w)))).
Proof. reflexivity. Qed.

Lemma dropBuffer_prepend (pre : list Z) (e : t) :
  dropBuffer (prepend pre e) = dropBuffer e.
Proof. reflexivity. Qed.

Lemma appendedBytes_prepend (longs : list Z) (pre : list Z) (e : t) (acc : Z) :
  appendedBytes longs (prepend pre e) acc = appendedBytes longs e acc.
Proof.
  destruct longs as [|w ws].
  - rewrite !appendedBytes_nil, dropBuffer_prepend. reflexivity.
  - rewrite !appendedBytes_cons, dropBuffer_prepend. reflexivity.
Qed.

Lemma appendedBytes_spec (longs : list Z) :
  forall (e : t) (acc : Z),
    Z.of_nat (length (buffer (fold_left encodeLongInternal longs e))) + acc =
    Z.of_nat (length (buffer e)) + fst (appendedBytes longs e acc) /\
    dropBuffer (fold_left encodeLongInternal longs e) =
    snd (appendedBytes longs e acc).
Proof.
  induction longs as [|w ws IH]; intros e acc.
  - rewrite appendedBytes_nil. cbn [fst snd].
    change (fold_left encodeLongInternal [] e) with e. split; [lia|reflexivity].
  - rewrite fold_left_cons, appendedBytes_cons.
    rewrite (encodeLongInternal_frame e w).
    set (e1 := encodeLongInternal (dropBuffer e) w).
    destruct (IH (prepend (buffer e) e1) (acc + Z.of_nat (length (buffer e1))))
      as [Hlen Hst].
    rewrite appendedBytes_prepend in Hlen, Hst.
    split; [|exact Hst].
    change (buffer (prepend (buffer e) e1)) with (buffer e ++ buffer e1) in Hlen.
    rewrite length_app in Hlen. lia.
Qed.

(** The size of the buffer after [encodeBytesAsLongs] on a fresh encoder. *)
Lemma encodedSize_appendedBytes (buf bytes : list Z) :
  Forall isByte bytes ->
  Z.of_nat (length (buffer (fst (encodeBytesAsLongs (new buf) bytes)))) =
  fst (appendedBytes (longsOfBytes bytes) (new buf) 0) +
  (if bitPos (snd (appendedBytes (longsOfBytes bytes) (new buf) 0)) =? 0
   then 0 else 1).
Proof.
  intros Hb. rewrite encodeBytesAsLongs_longs by assumption. cbn [fst].
  destruct (appendedBytes_spec (longsOfBytes bytes) (new buf) 0) as [Hlen Hst].
  rewrite <- Hst.
  change (bitPos (dropBuffer ?x)) with (bitPos x).
  set (e := fold_left encodeLongInternal (longsOfBytes bytes) (new buf)) in *.
  change (length (buffer (new buf))) with 0%nat in Hlen.
  unfold pushCurrByteIfNotEmpty.
  destruct (bitPos e =? 0).
  - lia.
  - cbn [buffer]. rewrite length_app. cbn [length]. lia.
Qed.

Lemma encodeBytesAsLongs_count (e : t) (bytes : list Z) :
  Forall isByte bytes ->
  snd (encodeBytesAsLongs e bytes) = (Z.of_nat (length bytes) + 3) / 4.
Proof.
  intros Hb. rewrite encodeBytesAsLongs_longs by assumption.
  apply longsOfBytes_length.
Qed.

End EncoderFacts.

(** ** At least three pulses in every pushed byte *)

Section Packing.

Import ThreeBitProtocolEncoder.

Lemma pulseWidth_range (bit : Z) : 1 <= pulseWidth bit <= 2.
Proof. unfold pulseWidth. destruct (bit =? 0); lia. Qed.

Lemma packed_encodeBit (e : t) (bit idleBits k j : Z) :
  (0 <= j < 31 /\ idleBits = IntraLongIdleTime) \/
  (j = 31 /\ idleBits = InterLongIdleTime) ->
  packed e k j ->
  packed (encodeBit e bit idleBits) (k + 1) ((j + 1) mod 32).
Proof.
  intros Hj (c & Hc & Hk & Hlo & Hhi & Hmax & Hnz).
  pose proof (pulseWidth_range bit) as Hw.
  assert (Hidle : 1 <= idleBits <= 2)
    by (unfold IntraLongIdleTime, InterLongIdleTime in Hj; lia).
  assert (Hj' : (j + 1) mod 32 = if j =? 31 then 0 else j + 1).
  { destruct (Z.eqb_spec j 31) as [->|]; [reflexivity|].
    apply Z.mod_small. lia. }
  rewrite Hj'. rewrite encodeBit_cases.
  destruct (Z.eqb_spec (bitPos e) 0) as [Hp0|Hp0].
  - (* the first pulse of a byte *)
    exists 1. unfold startByte; cbn [buffer bitPos].
    assert (c = 0) by lia. subst c.
    unfold IntraLongIdleTime, InterLongIdleTime in Hj.
    destruct (Z.eqb_spec j 31); destruct (Z.ltb_spec 0 1);
      destruct (Z.ltb_spec (j + 1) 1); lia.
  - destruct ((10 <=? bitPos e) || (10 <? bitPos e + pulseWidth bit + idleBits))
      eqn:Hfull.
    + (* the byte is pushed and the pulse starts the next one *)
      assert (Hover : 10 < bitPos e + pulseWidth bit + idleBits).
      { apply orb_true_iff in Hfull. destruct Hfull as [H|H].
        - apply Z.leb_le in H. lia.
        - now apply Z.ltb_lt in H. }
      exists 1. unfold startByte, pushCurrByteIfNotEmpty.
      rewrite (proj2 (Z.eqb_neq _ _) Hp0). cbn [buffer bitPos].
      rewrite length_app. cbn [length].
      unfold IntraLongIdleTime, InterLongIdleTime in Hj.
      assert (3 <= c).
      { destruct (Z.ltb_spec j c); lia. }
      destruct (Z.eqb_spec j 31); destruct (Z.ltb_spec 0 1);
        destruct (Z.ltb_spec (j + 1) 1); lia.
    + (* the pulse goes into the open byte *)
      apply orb_false_iff in Hfull. destruct Hfull as [H10 Hfit].
      apply Z.leb_gt in H10. apply Z.ltb_ge in Hfit.
      exists (c + 1). unfold placeBit; cbn [buffer bitPos].
      unfold IntraLongIdleTime, InterLongIdleTime in Hj.
      destruct (Z.ltb_spec j c); destruct (Z.eqb_spec j 31);
        destruct (Z.ltb_spec 0 (c + 1)); destruct (Z.ltb_spec (j + 1) (c + 1));
        lia.
Qed.

Lemma packed_encodeLongInternal_loop (n : nat) :
  forall (e : t) (longValue k j : Z),
    0 <= j -> j + Z.of_nat n <= 31 -> packed e k j ->
    packed (fst (encodeLongInternal_loop n e longValue))
           (k + Z.of_nat n) (j + Z.of_nat n).
Proof.
  induction n as [|n IH]; intros e longValue k j Hj Hn Hp.
  - cbn [encodeLongInternal_loop fst]. now rewrite !Z.add_0_r.
  - cbn [encodeLongInternal_loop].
    replace (k + Z.of_nat (S n)) with (k + 1 + Z.of_nat n) by lia.
    replace (j + Z.of_nat (S n)) with (j + 1 + Z.of_nat n) by lia.
    apply IH; [lia|lia|].
    replace (j + 1) with ((j + 1) mod 32) by (apply Z.mod_small; lia).
    apply packed_encodeBit; [left; split; [lia|reflexivity]|assumption].
Qed.

Lemma packed_encodeLongInternal (e : t) (longValue k : Z) :
  packed e k 0 -> packed (encodeLongInternal e longValue) (k + 32) 0.
Proof.
  intros Hp. unfold encodeLongInternal.
  pose proof (packed_encodeLongInternal_loop 31 e longValue k 0
                ltac:(lia) ltac:(lia) Hp) as Hloop.
  destruct (encodeLongInternal_loop 31 e longValue) as [e' v'].
  cbn [fst] in Hloop.
  replace (k + 32) with (k + Z.of_nat 31 + 1) by lia.
  exact (packed_encodeBit e' (Z.land v' 1) InterLongIdleTime
           (k + Z.of_nat 31) 31 (or_intror (conj eq_refl eq_refl)) Hloop).
Qed.

Lemma packed_fold (longs : list Z) :
  forall (e : t) (k : Z),
    packed e k 0 ->
    packed (fold_left encodeLongInternal longs e)
           (k + 32 * Z.of_nat (length longs)) 0.
Proof.
  induction longs as [|w ws IH]; intros e k Hp.
  - cbn [length]. change (fold_left encodeLongInternal [] e) with e.
    now rewrite Z.mul_0_r, Z.add_0_r.
  - rewrite fold_left_cons. cbn [length].
    replace (k + 32 * Z.of_nat (S (length ws)))
      with (k + 32 + 32 * Z.of_nat (length ws)) by lia.
    apply IH, packed_encodeLongInternal, Hp.
Qed.

Lemma packed_new (buf : list Z) : packed (new buf) 0 0.
Proof. exists 0. cbn. lia. Qed.

(** Three encoded bytes carry nine bits at least: the encoding of [n] longs
    takes at most (32 n + 2) / 3 bytes. *)
Lemma encodedSize_bound (buf bytes : list Z) :
  Forall isByte bytes ->
  3 * Z.of_nat (length (buffer (fst (encodeBytesAsLongs (new buf) bytes)))) <=
  32 * ((Z.of_nat (length bytes) + 3) / 4) + 2.
Proof.
  intros Hb. rewrite encodeBytesAsLongs_longs by assumption. cbn [fst].
  rewrite <- longsOfBytes_length.
  pose proof (packed_fold (longsOfBytes bytes) (new buf) 0 (packed_new buf))
    as (c & Hc & Hk & Hlo & Hhi & Hmax & Hnz).
  set (e := fold_left encodeLongInternal (longsOfBytes bytes) (new buf)) in *.
  unfold pushCurrByteIfNotEmpty.
  destruct (Z.eqb_spec (bitPos e) 0) as [Hp0|Hp0].
  - lia.
  - cbn [buffer]. rewrite length_app. cbn [length]. lia.
Qed.

End Packing.

Lemma Forall_isByte_repeat (b : Z) (n : nat) :
  isByte b -> Forall isByte (repeat b n).
Proof.
  intros Hb. induction n as [|n IH]; cbn [repeat]; constructor; assumption.
Qed.

(** ** The encoder: constants, packing, sizes *)

(** C1. On a fresh encoder, [encodeLong] of the command words 0, 1, 2 and 3
    leaves exactly the tables [EncodedShutdown], [EncodedLoadRAM],
    [EncodedProgramEEPROMThenShutdown] and [EncodedProgramEEPROMThenRun] in
    the buffer. *)
Theorem encodeLong_commands (buf : list Z) :
  TBP.buffer (TBP.encodeLong (TBP.new buf) 0) = EncodedShutdown /\
  TBP.buffer (TBP.encodeLong (TBP.new buf) 1) = EncodedLoadRAM /\
  TBP.buffer (TBP.encodeLong (TBP.new buf) 2) = EncodedProgramEEPROMThenShutdown /\
  TBP.buffer (TBP.encodeLong (TBP.new buf) 3) = EncodedProgramEEPROMThenRun /\
  EncodedShutdown = repeat 0x92 10 ++ [0xF2] /\
  EncodedLoadRAM = 0xC9 :: repeat 0x92 9 ++ [0xF2] /\
  EncodedProgramEEPROMThenShutdown = 0xCA :: repeat 0x92 9 ++ [0xF2] /\
  EncodedProgramEEPROMThenRun = 0x25 :: repeat 0x92 9 ++ [0xFE].
Proof.
  repeat split; vm_compute; reflexivity.
Qed.

(** The table sent for an action in stage 4a is the encoding of the action's
    command word. *)
Lemma encodedCommand_encodeLong (action : Action) (table buf : list Z) :
  encodedCommand action = Returns table ->
  TBP.buffer (TBP.encodeLong (TBP.new buf) (commandForAction action)) = table.
Proof.
  destruct action; intros H; inversion H; subst; vm_compute; reflexivity.
Qed.

(** C2. For every byte sequence, [encodeBytesAsLongs] encodes, one long after
    the other, the little-endian longs of the sequence padded with NUL bytes
    to a multiple of four, pushes the open byte, and returns the number of
    longs, which is the length divided by four and rounded up.  Five bytes
    give two longs, the second one holding the fifth byte and three NULs. *)
Theorem encodeBytesAsLongs_packs (e : TBP.t) (bytes : list Z) :
  Forall isByte bytes ->
  TBP.encodeBytesAsLongs e bytes =
    (TBP.pushCurrByteIfNotEmpty
       (fold_left TBP.encodeLongInternal (fullLongs (padToLongs bytes)) e),
     (Z.of_nat (length bytes) + 3) / 4) /\
  Z.of_nat (length (padToLongs bytes)) mod 4 = 0 /\
  Z.of_nat (length (fullLongs (padToLongs bytes))) =
    (Z.of_nat (length bytes) + 3) / 4 /\
  (forall b0 b1 b2 b3 b4, bytes = [b0; b1; b2; b3; b4] ->
     padToLongs bytes = [b0; b1; b2; b3; b4; 0; 0; 0] /\
     fullLongs (padToLongs bytes) =
       [longOfBytes b0 b1 b2 b3; longOfBytes b4 0 0 0] /\
     snd (TBP.encodeBytesAsLongs e bytes) = 2).
Proof.
  intros Hb.
  assert (Henc := encodeBytesAsLongs_longs e bytes Hb).
  rewrite longsOfBytes_length, longsOfBytes_padded in Henc.
  repeat split.
  - exact Henc.
  - apply padToLongs_length.
  - rewrite <- longsOfBytes_padded. apply longsOfBytes_length.
  - subst bytes. reflexivity.
  - subst bytes. reflexivity.
  - rewrite Henc. subst bytes. reflexivity.
Qed.

(** Five bytes are packed into two longs. *)
Lemma encodeBytesAsLongs_packs_witness :
  Forall isByte [0x11; 0x22; 0x33; 0x44; 0x55] /\
  snd (TBP.encodeBytesAsLongs (TBP.new []) [0x11; 0x22; 0x33; 0x44; 0x55]) = 2.
Proof.
  assert (Hb : Forall isByte [0x11; 0x22; 0x33; 0x44; 0x55])
    by (repeat constructor; unfold isByte; lia).
  split; [exact Hb|].
  exact (proj2 (proj2
    (proj2 (proj2 (proj2 (encodeBytesAsLongs_packs (TBP.new []) _ Hb)))
       0x11 0x22 0x33 0x44 0x55 eq_refl))).
Defined.

(** C3. A 32768-byte image of zeros is encoded into exactly 87382 bytes (and
    8192 longs), and no image of at most 32768 bytes is encoded into more. *)
Theorem encodeBytesAsLongs_zero_image (buf : list Z) :
  Z.of_nat (length (TBP.buffer
    (fst (TBP.encodeBytesAsLongs (TBP.new buf) (repeat 0 (Z.to_nat 32768)))))) =
    87382 /\
  snd (TBP.encodeBytesAsLongs (TBP.new buf) (repeat 0 (Z.to_nat 32768))) = 8192 /\
  (forall image,
     Forall isByte image -> Z.of_nat (length image) <= 32768 ->
     Z.of_nat (length (TBP.buffer
       (fst (TBP.encodeBytesAsLongs (TBP.new buf) image)))) <= 87382).
Proof.
  assert (Hb : Forall isByte (repeat 0 (Z.to_nat 32768)))
    by (apply Forall_isByte_repeat; unfold isByte; lia).
  split; [|split].
  - rewrite (encodedSize_appendedBytes buf _ Hb). vm_compute. reflexivity.
  - etransitivity; [apply encodeBytesAsLongs_count; exact Hb|].
    rewrite repeat_length, Z2Nat.id by lia. reflexivity.
  - intros image Himg Hlen.
    pose proof (encodedSize_bound buf image Himg) as Hbound.
    assert ((Z.of_nat (length image) + 3) / 4 < 8193)
      by (apply Z.div_lt_upper_bound; lia).
    lia.
Qed.

(** C10. On an empty byte vector [encodeBytesAsLongs] returns 0 and leaves a
    fresh encoder as it was: the buffer stays empty, and the open byte, still
    0xFF at position 0, is not pushed. *)
Theorem encodeBytesAsLongs_empty (buf : list Z) :
  TBP.encodeBytesAsLongs (TBP.new buf) [] =
    ({| TBP.buffer := []; TBP.bitPos := 0; TBP.currByte := 0xFF |}, 0) /\
  TBP.pushCurrByteIfNotEmpty (TBP.new buf) = TBP.new buf.
Proof.
  split; reflexivity.
Qed.

(** ** The decoder *)

Lemma bitPair_cases (byte : Z) :
  (byte = 0xCE /\ bitPair byte = Some 0) \/
  (byte = 0xCF /\ bitPair byte = Some 1) \/
  (byte = 0xEE /\ bitPair byte = Some 2) \/
  (byte = 0xEF /\ bitPair byte = Some 3) \/
  (byte <> 0xCE /\ byte <> 0xCF /\ byte <> 0xEE /\ byte <> 0xEF /\
   bitPair byte = None).
Proof.
  unfold bitPair.
  destruct (Z.eqb_spec byte 0xCE) as [->|H1]; [auto|].
  destruct (Z.eqb_spec byte 0xCF) as [->|H2]; [auto|].
  destruct (Z.eqb_spec byte 0xEE) as [->|H3]; [auto 6|].
  destruct (Z.eqb_spec byte 0xEF) as [->|H4]; [auto 6|].
  auto 10.
Qed.

Lemma bitPair_range (byte p : Z) : bitPair byte = Some p -> 0 <= p <= 3.
Proof.
  intros H. destruct (bitPair_cases byte)
    as [[_ E]|[[_ E]|[[_ E]|[[_ E]|(_ & _ & _ & _ & E)]]]];
    rewrite E in H; inversion H; lia.
Qed.

Lemma lor_pair (d p : Z) :
  0 <= d < 256 -> 0 <= p <= 3 ->
  u8 (Z.lor (Z.shiftr d 2) (64 * p)) = d / 4 + 64 * p.
Proof.
  intros Hd Hp. rewrite Z.shiftr_div_pow2 by lia. change (2 ^ 2) with 4.
  assert (Hq : 0 <= d / 4 < 2 ^ 6).
  { split; [apply Z.div_pos; lia|apply Z.div_lt_upper_bound; simpl; lia]. }
  pose proof (lor_shift_byte (d / 4) p 6 ltac:(lia) Hq ltac:(lia)) as Hl.
  rewrite Z.shiftl_mul_pow2 in Hl by lia. change (2 ^ 6) with 64 in *.
  rewrite (Z.mul_comm 64 p), Hl. unfold u8. apply Z.mod_small. lia.
Qed.

(** One round of the loop of [decode3BPByte] on a byte that is there. *)
Lemma decode3BPByte_loop_step (n : nat) (byte : Z) (iter : list Z) (d : Z) :
  0 <= d < 256 ->
  decode3BPByte_loop (S n) (byte :: iter) d =
  match bitPair byte with
  | Some p => decode3BPByte_loop n iter (d / 4 + 64 * p)
  | None => Throws (runtime_error (UnexpectedByte byte))
  end.
Proof.
  intros Hd. cbn [decode3BPByte_loop]. unfold bitPair.
  destruct (byte =? 0xCE).
  { rewrite Z.shiftr_div_pow2 by lia. f_equal. change (2 ^ 2) with 4. lia. }
  destruct (byte =? 0xCF).
  { change 0x40 with (64 * 1). rewrite lor_pair by lia. reflexivity. }
  destruct (byte =? 0xEE).
  { change 0x80 with (64 * 2). rewrite lor_pair by lia. reflexivity. }
  destruct (byte =? 0xEF).
  { change 0xC0 with (64 * 3). rewrite lor_pair by lia. reflexivity. }
  reflexivity.
Qed.

Lemma decode3BPByte_four (b0 b1 b2 b3 p0 p1 p2 p3 : Z) (rest : list Z) :
  bitPair b0 = Some p0 -> bitPair b1 = Some p1 ->
  bitPair b2 = Some p2 -> bitPair b3 = Some p3 ->
  decode3BPByte (b0 :: b1 :: b2 :: b3 :: rest) =
  Returns (p0 + 4 * p1 + 16 * p2 + 64 * p3, rest).
Proof.
  intros H0 H1 H2 H3.
  pose proof (bitPair_range _ _ H0). pose proof (bitPair_range _ _ H1).
  pose proof (bitPair_range _ _ H2). pose proof (bitPair_range _ _ H3).
  unfold decode3BPByte.
  rewrite decode3BPByte_loop_step, H0 by lia.
  change (0 / 4) with 0.
  rewrite decode3BPByte_loop_step, H1 by lia.
  replace ((0 + 64 * p0) / 4) with (16 * p0)
    by (apply Z.div_unique with 0; lia).
  rewrite decode3BPByte_loop_step, H2 by lia.
  replace ((16 * p0 + 64 * p1) / 4) with (4 * p0 + 16 * p1)
    by (apply Z.div_unique with 0; lia).
  rewrite decode3BPByte_loop_step, H3 by lia.
  replace ((4 * p0 + 16 * p1 + 64 * p2) / 4) with (p0 + 4 * p1 + 16 * p2)
    by (apply Z.div_unique with 0; lia).
  reflexivity.
Qed.


Lemma decode3BPByte_loop_insufficient (n : nat) :
  forall (iter : list Z) (d : Z),
    0 <= d < 256 -> (length iter < n)%nat -> Forall validByte iter ->
    decode3BPByte_loop n iter d = Throws (runtime_error InsufficientBytes).
Proof.
  induction n as [|n IH]; intros iter d Hd Hlen Hv; [inversion Hlen|].
  destruct iter as [|b iter]; [reflexivity|].
  inversion Hv as [|? ? Hb Hv']; subst.
  rewrite decode3BPByte_loop_step by assumption.
  destruct (bitPair b) as [p|] eqn:Hp; [|contradiction].
  pose proof (bitPair_range _ _ Hp).
  assert (0 <= d / 4 < 64)
    by (split; [apply Z.div_pos; lia|apply Z.div_lt_upper_bound; lia]).
  apply IH; [lia|cbn [length] in Hlen; lia|assumption].
Qed.

Lemma decode3BPByte_loop_unexpected (n : nat) :
  forall (pre : list Z) (byte : Z) (post : list Z) (d : Z),
    0 <= d < 256 -> (length pre < n)%nat -> Forall validByte pre ->
    bitPair byte = None ->
    decode3BPByte_loop n (pre ++ byte :: post) d =
    Throws (runtime_error (UnexpectedByte byte)).
Proof.
  induction n as [|n IH]; intros pre byte post d Hd Hlen Hv Hbyte;
    [inversion Hlen|].
  destruct pre as [|b pre]; cbn [app].
  - rewrite decode3BPByte_loop_step, Hbyte by assumption. reflexivity.
  - inversion Hv as [|? ? Hb Hv']; subst.
    rewrite decode3BPByte_loop_step by assumption.
    destruct (bitPair b) as [p|] eqn:Hp; [|contradiction].
    pose proof (bitPair_range _ _ Hp).
    assert (0 <= d / 4 < 64)
      by (split; [apply Z.div_pos; lia|apply Z.div_lt_upper_bound; lia]).
    apply IH; [lia|cbn [length] in Hlen; lia|assumption|assumption].
Qed.

Lemma decodeCase_sound (iter : list Z) (r : outcome (Z * list Z)) :
  decodeCase iter r -> decode3BPByte iter = r.
Proof.
  intros [b0 b1 b2 b3 p0 p1 p2 p3 rest -> H0 H1 H2 H3|Hlen Hv
         |pre byte post -> Hlen Hv Hbyte].
  - now apply decode3BPByte_four.
  - apply decode3BPByte_loop_insufficient; [lia|assumption|assumption].
  - apply decode3BPByte_loop_unexpected; [lia|assumption..].
Qed.

Lemma decodeCase_complete (iter : list Z) : exists r, decodeCase iter r.
Proof.
  assert (Hsome : forall b p, bitPair b = Some p -> validByte b)
    by (unfold validByte; congruence).
  destruct iter as [|b0 iter].
  { eexists. apply decodeShort; [cbn; lia|constructor]. }
  destruct (bitPair b0) as [p0|] eqn:H0.
  2:{ eexists. apply (decodeBad _ [] b0 iter); [reflexivity|cbn; lia|constructor|assumption]. }
  destruct iter as [|b1 iter].
  { eexists. apply decodeShort; [cbn; lia|repeat constructor; eauto]. }
  destruct (bitPair b1) as [p1|] eqn:H1.
  2:{ eexists. apply (decodeBad _ [b0] b1 iter);
        [reflexivity|cbn; lia|repeat constructor; eauto|assumption]. }
  destruct iter as [|b2 iter].
  { eexists. apply decodeShort; [cbn; lia|repeat constructor; eauto]. }
  destruct (bitPair b2) as [p2|] eqn:H2.
  2:{ eexists. apply (decodeBad _ [b0; b1] b2 iter);
        [reflexivity|cbn; lia|repeat constructor; eauto|assumption]. }
  destruct iter as [|b3 iter].
  { eexists. apply decodeShort; [cbn; lia|repeat constructor; eauto]. }
  destruct (bitPair b3) as [p3|] eqn:H3.
  2:{ eexists. apply (decodeBad _ [b0; b1; b2] b3 iter);
        [reflexivity|cbn; lia|repeat constructor; eauto|assumption]. }
  eexists. eapply decodeFour; eauto.
Qed.

Lemma decodeCase_iff (iter : list Z) (r : outcome (Z * list Z)) :
  decode3BPByte iter = r <-> decodeCase iter r.
Proof.
  split; [|apply decodeCase_sound].
  intros <-. destruct (decodeCase_complete iter) as [r Hr].
  now rewrite (decodeCase_sound _ _ Hr).
Qed.

(** C4. [decode3BPByte] returns exactly on an input that starts with four
    bytes of the set 0xCE, 0xCF, 0xEE, 0xEF; it then has consumed these four
    bytes, and the byte it returns holds their bit pairs (0xCE is 00, 0xCF is
    01, 0xEE is 10, 0xEF is 11), the first one lowest.  It throws exactly when
    the input ends before the fourth byte (insufficient bytes) or one of the
    bytes it consumes is outside the set (unexpected byte). *)
Theorem decode3BPByte_spec (iter : list Z) :
  (forall v rest,
     decode3BPByte iter = Returns (v, rest) <->
     exists b0 b1 b2 b3 p0 p1 p2 p3,
       iter = b0 :: b1 :: b2 :: b3 :: rest /\
       bitPair b0 = Some p0 /\ bitPair b1 = Some p1 /\
       bitPair b2 = Some p2 /\ bitPair b3 = Some p3 /\
       v = p0 + 4 * p1 + 16 * p2 + 64 * p3) /\
  (decode3BPByte iter = Throws (runtime_error InsufficientBytes) <->
     (length iter < 4)%nat /\ Forall validByte iter) /\
  (forall byte,
     decode3BPByte iter = Throws (runtime_error (UnexpectedByte byte)) <->
     exists pre post,
       iter = pre ++ byte :: post /\ (length pre < 4)%nat /\
       Forall validByte pre /\ bitPair byte = None) /\
  (bitPair 0xCE = Some 0 /\ bitPair 0xCF = Some 1 /\
   bitPair 0xEE = Some 2 /\ bitPair 0xEF = Some 3 /\
   forall b, b <> 0xCE -> b <> 0xCF -> b <> 0xEE -> b <> 0xEF -> bitPair b = None).
Proof.
  repeat split.
  - intros H. apply decodeCase_iff in H. inversion H; subst.
    repeat eexists; eauto.
  - intros (b0 & b1 & b2 & b3 & p0 & p1 & p2 & p3 & -> & H0 & H1 & H2 & H3 & ->).
    now apply decode3BPByte_four.
  - apply decodeCase_iff in H. now inversion H.
  - apply decodeCase_iff in H. now inversion H.
  - intros [Hlen Hv]. apply decodeCase_iff. now constructor.
  - intros H. apply decodeCase_iff in H. inversion H; subst.
    repeat eexists; eauto.
  - intros (pre & post & -> & Hlen & Hv & Hbyte).
    apply decodeCase_iff. now econstructor.
  - intros b H1 H2 H3 H4.
    destruct (bitPair_cases b)
      as [[E _]|[[E _]|[[E _]|[[E _]|(_ & _ & _ & _ & E)]]]]; congruence.
Qed.

(** ** The image verifier *)

(** C5. [verifyAndEncodeImage] throws [std::invalid_argument], leaving the
    caller's vector alone, exactly when the image is empty or longer than
    32768 bytes.  For every other image it returns the number of longs and
    leaves in the vector the encoding of the longs of the image padded with
    NUL bytes. *)
Theorem verifyAndEncodeImage_spec (image encodedImage : list Z) :
  Forall isByte image ->
  (throws (snd (verifyAndEncodeImage image encodedImage)) <->
     Z.of_nat (length image) = 0 \/ 32768 < Z.of_nat (length image)) /\
  (Z.of_nat (length image) = 0 ->
     verifyAndEncodeImage image encodedImage =
     (encodedImage, Throws (invalid_argument ImageTooSmall))) /\
  (32768 < Z.of_nat (length image) ->
     verifyAndEncodeImage image encodedImage =
     (encodedImage,
      Throws (invalid_argument (ImageTooBig (Z.of_nat (length image)))))) /\
  (1 <= Z.of_nat (length image) <= 32768 ->
     verifyAndEncodeImage image encodedImage =
     (TBP.buffer
        (TBP.pushCurrByteIfNotEmpty
           (fold_left TBP.encodeLongInternal (fullLongs (padToLongs image))
              (TBP.new encodedImage))),
      Returns ((Z.of_nat (length image) + 3) / 4)) /\
     fst (verifyAndEncodeImage image encodedImage) =
       TBP.buffer (fst (TBP.encodeBytesAsLongs (TBP.new encodedImage) image))).
Proof.
  intros Hb.
  assert (Henc := encodeBytesAsLongs_longs (TBP.new encodedImage) image Hb).
  rewrite longsOfBytes_length, longsOfBytes_padded in Henc.
  unfold verifyAndEncodeImage. rewrite Henc. clear Henc.
  destruct (Z.eqb_spec (Z.of_nat (length image)) 0) as [H0|H0].
  { split; [split|split; [|split]].
    - intros _. now left.
    - intros _. exists (invalid_argument ImageTooSmall). reflexivity.
    - reflexivity.
    - lia.
    - lia. }
  destruct (Z.ltb_spec 32768 (Z.of_nat (length image))) as [Hbig|Hbig].
  { split; [split|split; [|split]].
    - intros _. now right.
    - intros _. eexists. reflexivity.
    - lia.
    - reflexivity.
    - lia. }
  split; [split|split; [|split]].
  - intros [x Hx]. discriminate Hx.
  - lia.
  - lia.
  - lia.
  - intros _. split; reflexivity.
Qed.

(** An image of four bytes is accepted and encoded as one long. *)
Lemma verifyAndEncodeImage_spec_witness :
  Forall isByte [0xAA; 0xBB; 0xCC; 0xDD] /\
  snd (verifyAndEncodeImage [0xAA; 0xBB; 0xCC; 0xDD] []) = Returns 1.
Proof.
  assert (Hb : Forall isByte [0xAA; 0xBB; 0xCC; 0xDD])
    by (repeat constructor; unfold isByte; lia).
  split; [exact Hb|].
  destruct (verifyAndEncodeImage_spec [0xAA; 0xBB; 0xCC; 0xDD] [] Hb)
    as (_ & _ & _ & Hok).
  destruct (Hok ltac:(cbn; lia)) as [Heq _].
  rewrite Heq. reflexivity.
Defined.

(** ** The settings *)

(** C6, as the code has it.  What a setter throws is a
    [std::invalid_argument], with the reason of the check that failed, and
    nothing else.  [setBaudrate], whose argument is a [uint32_t], throws
    exactly when the baudrate exceeds 115200; [setResetDuration] exactly when
    the count of the duration is outside 1..100 ms, too short below 1 and too
    long above 100; [setBootWaitDuration] exactly when it is outside
    50..150 ms, too long above 150 and too short below 50.  Otherwise each
    stores its argument and changes no other setting.  [setResetLine] stores
    each of the three reset lines. *)
Theorem setters_validate (s : Settings) (_baudrate ms : Z) :
  0 <= _baudrate < 2 ^ 32 ->
  - 2 ^ 63 <= ms < 2 ^ 63 ->
  (throws (setBaudrate s _baudrate) <-> 115200 < _baudrate) /\
  (115200 < _baudrate ->
     setBaudrate s _baudrate = Throws (invalid_argument BaudrateTooHigh)) /\
  (_baudrate <= 115200 ->
     setBaudrate s _baudrate =
     Returns (mkSettings _baudrate (resetLine s) (resetCallback s)
                (resetDuration s) (bootWaitDuration s) (statusMonitor s))) /\
  (throws (setResetDuration s ms) <-> ~ (1 <= ms <= 100)) /\
  (ms < 1 ->
     setResetDuration s ms = Throws (invalid_argument ResetDurationTooShort)) /\
  (100 < ms ->
     setResetDuration s ms = Throws (invalid_argument ResetDurationTooLong)) /\
  (1 <= ms <= 100 ->
     setResetDuration s ms =
     Returns (mkSettings (baudrate s) (resetLine s) (resetCallback s) ms
                (bootWaitDuration s) (statusMonitor s))) /\
  (throws (setBootWaitDuration s ms) <-> ~ (50 <= ms <= 150)) /\
  (150 < ms ->
     setBootWaitDuration s ms =
     Throws (invalid_argument BootWaitDurationTooLong)) /\
  (ms < 50 ->
     setBootWaitDuration s ms =
     Throws (invalid_argument BootWaitDurationTooShort)) /\
  (50 <= ms <= 150 ->
     setBootWaitDuration s ms =
     Returns (mkSettings (baudrate s) (resetLine s) (resetCallback s)
                (resetDuration s) ms (statusMonitor s))) /\
  (forall line,
     setResetLine s line =
     Returns (mkSettings (baudrate s) line (resetCallback s) (resetDuration s)
                (bootWaitDuration s) (statusMonitor s))).
Proof.
  intros _ _.
  assert (Hline : forall line,
     setResetLine s line =
     Returns (mkSettings (baudrate s) line (resetCallback s) (resetDuration s)
                (bootWaitDuration s) (statusMonitor s)))
    by (intros []; reflexivity).
  revert Hline. generalize (setResetLine s). intros setLine Hline.
  unfold throws, setBaudrate, setResetDuration, setBootWaitDuration, MaxBaudrate.
  destruct (Z.ltb_spec 115200 _baudrate); destruct (Z.ltb_spec ms 1);
    destruct (Z.ltb_spec 100 ms); destruct (Z.ltb_spec 150 ms);
    destruct (Z.ltb_spec ms 50); try lia;
    repeat split; intros; try lia; try reflexivity;
    try (eexists; reflexivity);
    try (match goal with H : exists _, _ |- _ => destruct H; discriminate end);
    try apply Hline.
Qed.

Lemma setters_validate_witness :
  setBaudrate defaultSettings 9600 =
    Returns (mkSettings 9600 DTR None 10 100 None) /\
  setBaudrate defaultSettings 230400 =
    Throws (invalid_argument BaudrateTooHigh) /\
  setResetDuration defaultSettings 0 =
    Throws (invalid_argument ResetDurationTooShort) /\
  setBootWaitDuration defaultSettings 75 =
    Returns (mkSettings 115200 DTR None 10 75 None).
Proof.
  destruct (setters_validate defaultSettings 9600 0 ltac:(lia) ltac:(lia))
    as (_ & _ & Hbaud & _ & Hshort & _).
  destruct (setters_validate defaultSettings 230400 75 ltac:(lia) ltac:(lia))
    as (_ & Hhigh & _ & _ & _ & _ & _ & _ & _ & _ & Hboot & _).
  split; [exact (Hbaud ltac:(lia))|].
  split; [exact (Hhigh ltac:(lia))|].
  split; [exact (Hshort ltac:(lia))|].
  exact (Hboot ltac:(lia)).
Defined.

(** C6, as the specification words it, fails for [setBaudrate]: the baudrate
    0 is outside 1..115200 and is stored all the same. *)
Lemma setBaudrate_accepts_zero :
  ~ (1 <= 0 <= 115200) /\
  setBaudrate defaultSettings 0 =
  Returns (mkSettings 0 DTR None 10 100 None) /\
  ~ throws (setBaudrate defaultSettings 0).
Proof.
  repeat split.
  - lia.
  - intros [x Hx]. discriminate Hx.
Qed.

(** ** The stages of an action *)

Ltac unfold_worker :=
  cbv [actionThread a_performAction a_stage1_preparation a_stage2a_reset
       a_stage2b_waitAfterReset a_stage3_establishComms a_stage4a_sendCommand
       a_stage4b_sendImage a_stage5_waitForChecksumStatus
       a_stage6_waitForEEPROMProgrammingStatus
       a_stage7_waitForEEPROMVerificationStatus a_stage seq
       a_callStatusMonitorLoaderUpdate Action_eqb called profile raise ret
       freshWorker].

Ltac run_stages stageWork :=
  repeat match goal with
         | |- context [stageWork ?s] =>
             destruct (stageWork s) as [[]|?]; cbn -[stagesOfAction]
         end.

(** The stage functions are called in the order of the action's list of
    stages, and none is called that is not on the list. *)
Lemma a_performAction_prefix (stageWork : Profiler.Stage -> outcome unit)
      (mon : bool) (action : Action) :
  actionIsValid action = true ->
  exists rest,
    stagesOfAction action =
    stagesCalled (calls (fst (a_performAction stageWork mon action freshWorker)))
      ++ rest.
Proof.
  intros Hvalid.
  destruct action; try discriminate Hvalid; destruct mon;
    unfold_worker; cbn -[stagesOfAction]; run_stages stageWork;
    cbn; eexists; reflexivity.
Qed.

(** When the work of every stage on the list succeeds, the action returns
    normally after the last stage on its list. *)
Lemma a_performAction_success (stageWork : Profiler.Stage -> outcome unit)
      (mon : bool) (action : Action) :
  actionIsValid action = true ->
  (forall s, In s (stagesOfAction action) -> stageWork s = Returns tt) ->
  let w := fst (a_performAction stageWork mon action freshWorker) in
  snd (a_performAction stageWork mon action freshWorker) = Returns tt /\
  stagesCalled (calls w) = stagesOfAction action /\
  Profiler.timed (profiler w) = stagesOfAction action /\
  Profiler.assertionFailed (profiler w) = false /\
  snd (actionThread stageWork mon action freshWorker) = ErrNone /\
  Profiler.wasSuccessful
    (profiler (fst (actionThread stageWork mon action freshWorker))) = true.
Proof.
  intros Hvalid Hwork.
  destruct action; try discriminate Hvalid; destruct mon;
    cbn in Hwork;
    unfold actionThread, a_performAction, a_stage1_preparation, a_stage2a_reset,
      a_stage2b_waitAfterReset, a_stage3_establishComms, a_stage4a_sendCommand,
      a_stage4b_sendImage, a_stage5_waitForChecksumStatus,
      a_stage6_waitForEEPROMProgrammingStatus,
      a_stage7_waitForEEPROMVerificationStatus, a_stage;
    repeat match goal with
           | |- context [stageWork ?s] =>
               rewrite (Hwork s) by (repeat (first [left; reflexivity | right]))
           end;
    cbn; repeat split; reflexivity.
Qed.

(** C7. For every started action the stage functions are called in the order
    1, 2a, 2b, 3, 4a, 4b, 5, 6, 7, and the action returns normally (it is
    reported as finished without error) after stage 2a for Restart, after
    stage 4a for Shutdown, after stage 5 for LoadRAM and after stage 7 for
    the two EEPROM actions, when the work of these stages succeeds; no later
    stage is called in any run. *)
Theorem a_performAction_stages (stageWork : Profiler.Stage -> outcome unit)
        (mon : bool) (action : Action) :
  actionIsValid action = true ->
  let run := a_performAction stageWork mon action freshWorker in
  (exists rest,
     stagesOfAction action = stagesCalled (calls (fst run)) ++ rest) /\
  ((forall s, In s (stagesOfAction action) -> stageWork s = Returns tt) ->
     snd run = Returns tt /\
     stagesCalled (calls (fst run)) = stagesOfAction action /\
     Profiler.timed (profiler (fst run)) = stagesOfAction action /\
     Profiler.assertionFailed (profiler (fst run)) = false /\
     snd (actionThread stageWork mon action freshWorker) = ErrNone) /\
  (exists rest,
     [Profiler.Stage1; Profiler.Stage2a; Profiler.Stage2b; Profiler.Stage3;
      Profiler.Stage4a; Profiler.Stage4b; Profiler.Stage5; Profiler.Stage6;
      Profiler.Stage7] = stagesOfAction action ++ rest) /\
  stagesOfAction Restart = [Profiler.Stage1; Profiler.Stage2a] /\
  stagesOfAction Shutdown =
    [Profiler.Stage1; Profiler.Stage2a; Profiler.Stage2b; Profiler.Stage3;
     Profiler.Stage4a] /\
  stagesOfAction LoadRAM =
    [Profiler.Stage1; Profiler.Stage2a; Profiler.Stage2b; Profiler.Stage3;
     Profiler.Stage4a; Profiler.Stage4b; Profiler.Stage5] /\
  stagesOfAction ProgramEEPROMThenShutdown =
    [Profiler.Stage1; Profiler.Stage2a; Profiler.Stage2b; Profiler.Stage3;
     Profiler.Stage4a; Profiler.Stage4b; Profiler.Stage5; Profiler.Stage6;
     Profiler.Stage7] /\
  stagesOfAction ProgramEEPROMThenRun =
    [Profiler.Stage1; Profiler.Stage2a; Profiler.Stage2b; Profiler.Stage3;
     Profiler.Stage4a; Profiler.Stage4b; Profiler.Stage5; Profiler.Stage6;
     Profiler.Stage7].
Proof.
  intros Hvalid run. subst run.
  split; [now apply a_performAction_prefix|].
  split.
  { intros Hwork.
    destruct (a_performAction_success stageWork mon action Hvalid Hwork)
      as (H1 & H2 & H3 & H4 & H5 & _).
    repeat split; assumption. }
  split.
  { destruct action; try discriminate Hvalid; cbn; eexists; reflexivity. }
  repeat split.
Qed.

(** A Restart whose two stages succeed calls stage 1 and stage 2a only. *)
Lemma a_performAction_stages_witness :
  actionIsValid Restart = true /\
  stagesCalled
    (calls (fst (a_performAction (fun _ => Returns tt) true Restart freshWorker))) =
  [Profiler.Stage1; Profiler.Stage2a].
Proof.
  split; [reflexivity|].
  exact (proj1 (proj2 (proj1 (proj2
    (a_performAction_stages (fun _ => Returns tt) true Restart eq_refl))
    (fun _ _ => eq_refl)))).
Defined.

(** ** The status poll *)

Lemma a_receiveStatus_loop_quiet (timeoutTime : Z) (err : ErrorCode)
      (quiet rest : list Round) :
  Forall (quietRound timeoutTime) quiet ->
  a_receiveStatus_loop timeoutTime err (quiet ++ rest) =
  a_receiveStatus_loop timeoutTime err rest.
Proof.
  induction 1 as [|r quiet (Hc & [k Hw] & Ha & Ht) _ IH]; [reflexivity|].
  cbn [app a_receiveStatus_loop].
  rewrite Hc, Hw, Ha. cbn.
  rewrite (proj2 (Z.ltb_ge timeoutTime (clock r))) by assumption.
  exact IH.
Qed.

Lemma a_receiveStatus_loop_reads (timeoutTime : Z) (err : ErrorCode)
      (r : Round) (byte : Z) (later : list Round) :
  readsStatus r byte ->
  a_receiveStatus_loop timeoutTime err (r :: later) =
  Some (if byte =? 0xff then Returns true
        else if byte =? 0xfe then Returns false
        else Throws (ActionError err)).
Proof.
  intros (Hc & [k Hw] & (n & Ha & Hn) & Hr).
  cbn [a_receiveStatus_loop]. rewrite Hc, Hw, Ha, Hr. cbn.
  rewrite (proj2 (Z.ltb_lt 0 n)) by assumption.
  destruct (byte =? 255); [reflexivity|].
  destruct (byte =? 254); reflexivity.
Qed.

Lemma a_receiveStatus_reads (timeout : Z) (err : ErrorCode) (start : Z)
      (quiet : list Round) (r : Round) (byte : Z) (later : list Round) :
  Forall (quietRound (start + timeout)) quiet ->
  readsStatus r byte ->
  a_receiveStatus timeout err start (quiet ++ r :: later) =
  Some (if byte =? 0xff then Returns true
        else if byte =? 0xfe then Returns false
        else Throws (ActionError err)).
Proof.
  intros Hq Hr. unfold a_receiveStatus.
  rewrite a_receiveStatus_loop_quiet by assumption.
  now apply a_receiveStatus_loop_reads.
Qed.

(** C8. Whenever the status poll reads a status byte, after any number of
    rounds without one, it returns false (success) exactly when the byte is
    0xFE and true (failure) exactly when it is 0xFF, and throws an
    [ActionError] with the receive error code of the stage for every other
    byte.  In stage 5 the failure status ends the action with
    PropReportsChecksumError, the success status lets the stage return, and
    any other byte ends it with FailedToReceiveChecksumStatus. *)
Theorem a_receiveStatus_classifies (timeout : Z) (err : ErrorCode) (start : Z)
        (quiet : list Round) (r : Round) (byte : Z) (later : list Round) :
  Forall (quietRound (start + timeout)) quiet ->
  readsStatus r byte ->
  let poll := a_receiveStatus timeout err start (quiet ++ r :: later) in
  (poll = Some (Returns false) <-> byte = 0xFE) /\
  (poll = Some (Returns true) <-> byte = 0xFF) /\
  (poll = Some (Throws (ActionError err)) <-> byte <> 0xFE /\ byte <> 0xFF) /\
  (timeout = ChecksumStatusTimeout ->
   let stage5 := stage5Work (mkStatusEnv false start (quiet ++ r :: later) false false) in
   (byte = 0xFF -> stage5 = Some (Throws (ActionError PropReportsChecksumError))) /\
   (byte = 0xFE -> stage5 = Some (Returns tt)) /\
   (byte <> 0xFE -> byte <> 0xFF ->
    stage5 = Some (Throws (ActionError FailedToReceiveChecksumStatus)))).
Proof.
  intros Hq Hr poll. subst poll.
  rewrite (a_receiveStatus_reads timeout err start quiet r byte later Hq Hr).
  split; [|split; [|split]].
  - destruct (Z.eqb_spec byte 0xff); [|destruct (Z.eqb_spec byte 0xfe)];
      (split; intros H; [try discriminate H|]; try reflexivity; try lia;
       try assumption; try contradiction).
  - destruct (Z.eqb_spec byte 0xff); [|destruct (Z.eqb_spec byte 0xfe)];
      (split; intros H; [try discriminate H|]; try reflexivity; try lia;
       try assumption; try contradiction).
  - destruct (Z.eqb_spec byte 0xff); [|destruct (Z.eqb_spec byte 0xfe)];
      (split; intros H; [try discriminate H|]; try reflexivity; try lia;
       try tauto).
  - intros -> stage5. subst stage5. unfold stage5Work.
    cbn [a_checkPoint a_throwIfCancelled cancelledAtWaiting now rounds
         cancelledAtChecking].
    rewrite (a_receiveStatus_reads _ _ start quiet r _ later Hq Hr).
    split; [|split].
    + intros ->. reflexivity.
    + intros ->. reflexivity.
    + intros H1 H2.
      destruct (Z.eqb_spec byte 0xff); [contradiction|].
      destruct (Z.eqb_spec byte 0xfe); [contradiction|reflexivity].
Qed.

(** Stages 6 and 7 read their status the same way, each with its own codes:
    the failure status ends the action with the stage's "Prop reports" code. *)
Lemma stage67Work_failure (start : Z) (r : Round) (later : list Round) :
  readsStatus r 0xFF ->
  stage6Work (mkStatusEnv false start (r :: later) false false) =
    Some (Throws (ActionError PropReportsEEPROMProgrammingError)) /\
  stage7Work (mkStatusEnv false start (r :: later) false false) =
    Some (Throws (ActionError PropReportsEEPROMVerificationError)).
Proof.
  intros Hr. unfold stage6Work, stage7Work.
  cbn [a_checkPoint a_throwIfCancelled cancelledAtWaiting now rounds
       cancelledAtChecking cancelledAtFinishing].
  rewrite (a_receiveStatus_reads _ _ start [] r _ later (Forall_nil _) Hr).
  rewrite (a_receiveStatus_reads _ _ start [] r _ later (Forall_nil _) Hr).
  split; reflexivity.
Qed.

(** One round without an answer, then the status byte 0xFE: success. *)
Lemma a_receiveStatus_classifies_witness :
  a_receiveStatus 1500 FailedToReceiveChecksumStatus 0
    ([mkRound false (Returns 1) (Returns 0) (Throws port_exception) 10] ++
     mkRound false (Returns 1) (Returns 1) (Returns (1, 0xFE)) 20 :: []) =
  Some (Returns false).
Proof.
  refine (proj2 (proj1 (a_receiveStatus_classifies 1500
            FailedToReceiveChecksumStatus 0
            [mkRound false (Returns 1) (Returns 0) (Throws port_exception) 10]
            (mkRound false (Returns 1) (Returns 1) (Returns (1, 0xFE)) 20)
            0xFE [] _ _)) eq_refl).
  - repeat constructor. exists 1. reflexivity. cbn. lia.
  - repeat split; try reflexivity.
    + exists 1. reflexivity.
    + exists 1. split; [reflexivity|lia].
Defined.

(** ** Single precision rounding *)

Lemma approx_bounds A B mrs :
  approx A B mrs -> shr_m mrs * B <= A < (shr_m mrs + 1) * B.
Proof.
  destruct mrs as [m r s]. unfold approx. cbn [shr_m shr_r shr_s].
  intros (HB & Hm & H). destruct r, s; lia.
Qed.

Lemma shr_1_approx A B mrs : approx A B mrs -> approx A (2 * B) (shr_1 mrs).
Proof.
  destruct mrs as [m r s]. unfold approx. cbn [shr_m shr_r shr_s].
  intros (HB & Hm & H).
  destruct m as [|[p|p|]|p]; try lia; destruct r, s;
    cbn [shr_1 shr_m shr_r shr_s orb];
    rewrite ?(Pos2Z.inj_xI p), ?(Pos2Z.inj_xO p) in *;
    (split; [lia|split; [lia|lia]]).
Qed.

Lemma iter_pos_shr_1_approx (p : positive) :
  forall A B mrs, approx A B mrs ->
    approx A (2 ^ Zpos p * B) (iter_pos shr_1 p mrs).
Proof.
  induction p as [p IH|p IH|]; intros A B mrs H; cbn [iter_pos].
  - rewrite (Pos2Z.inj_xI p).
    replace (2 ^ (2 * Z.pos p + 1) * B) with (2 ^ Z.pos p * (2 ^ Z.pos p * (2 * B))).
    + apply IH, IH, shr_1_approx, H.
    + replace (2 * Z.pos p + 1) with (Z.pos p + Z.pos p + 1) by lia.
      rewrite !Z.pow_add_r by lia. rewrite Z.pow_1_r. ring.
  - rewrite (Pos2Z.inj_xO p).
    replace (2 ^ (2 * Z.pos p) * B) with (2 ^ Z.pos p * (2 ^ Z.pos p * B)).
    + apply IH, IH, H.
    + replace (2 * Z.pos p) with (Z.pos p + Z.pos p) by lia.
      rewrite Z.pow_add_r by lia. ring.
  - change (2 ^ 1) with 2. apply shr_1_approx, H.
Qed.

Lemma shr_approx A B mrs e n :
  0 <= n -> approx A B mrs ->
  approx A (2 ^ n * B) (fst (shr mrs e n)) /\ snd (shr mrs e n) = e + n.
Proof.
  intros Hn H. destruct n as [|p|p]; try lia; cbn [shr fst snd].
  - split; [|lia]. change (2 ^ 0) with 1. now rewrite Z.mul_1_l.
  - split; [|reflexivity]. now apply iter_pos_shr_1_approx.
Qed.

Lemma digits2_bounds (p : positive) :
  2 ^ (Zpos (digits2_pos p) - 1) <= Zpos p < 2 ^ Zpos (digits2_pos p).
Proof.
  induction p as [p IH|p IH|]; cbn [digits2_pos].
  - rewrite Pos2Z.inj_succ, (Pos2Z.inj_xI p).
    replace (Z.succ (Z.pos (digits2_pos p)) - 1) with (Z.succ (Z.pos (digits2_pos p) - 1)) by lia.
    rewrite !Z.pow_succ_r by lia. lia.
  - rewrite Pos2Z.inj_succ, (Pos2Z.inj_xO p).
    replace (Z.succ (Z.pos (digits2_pos p)) - 1) with (Z.succ (Z.pos (digits2_pos p) - 1)) by lia.
    rewrite !Z.pow_succ_r by lia. lia.
  - cbn. lia.
Qed.

Lemma digits2_unique (p : positive) (k : Z) :
  2 ^ (k - 1) <= Zpos p < 2 ^ k -> Zpos (digits2_pos p) = k.
Proof.
  intros [Hlo Hhi]. pose proof (digits2_bounds p) as [Dlo Dhi].
  set (d := Zpos (digits2_pos p)) in *.
  assert (0 < k).
  { destruct k as [|k|k];
      [cbn in Hhi; lia|lia|rewrite Z.pow_neg_r in Hhi by lia; lia]. }
  destruct (Z.lt_trichotomy d k) as [Hlt|[Heq|Hgt]]; [|assumption|].
  - assert (2 ^ d <= 2 ^ (k - 1)) by (apply Z.pow_le_mono_r; lia). lia.
  - assert (2 ^ k <= 2 ^ (d - 1)) by (apply Z.pow_le_mono_r; lia). lia.
Qed.

(** Rounding to nearest, ties to even, of a located mantissa. *)
Lemma round_nearest_even_approx A B mrs :
  approx A B mrs ->
  let m' := round_nearest_even (shr_m mrs) (loc_of_shr_record mrs) in
  shr_m mrs <= m' <= shr_m mrs + 1 /\
  2 * (m' * B) - B <= 2 * A <= 2 * (m' * B) + B.
Proof.
  destruct mrs as [m r s]. unfold approx. cbn [shr_m shr_r shr_s].
  intros (HB & Hm & H).
  destruct r, s; cbn [loc_of_shr_record round_nearest_even shr_m];
    try destruct (Z.even m); lia.
Qed.

Section Binary32.

Lemma fexp_normal (e : Z) : -125 <= e -> fexp 24 128 e = e - 24.
Proof. intros H. unfold fexp, emin. lia. Qed.

(** [binary_round_aux] on a mantissa of at least 24 digits that
    approximates A/B: the result is a normal number mr * 2^er with
    er = ex + K and | mr * 2^K - A/B | <= 2^K / 2. *)
Lemma binary_round_aux_correct (mx : positive) (ex : Z) (lx : location) (A B : Z) :
  let d := Zpos (digits2_pos mx) in
  24 <= d -> -149 <= ex -> ex + d <= 127 ->
  approx A B (shr_record_of_loc (Zpos mx) lx) ->
  exists (mr : positive) (K : Z),
    binary_round_aux 24 128 false (Zpos mx) ex lx = S754_finite false mr (ex + K) /\
    d - 24 <= K <= d - 23 /\
    2 ^ 23 <= Zpos mr < 2 ^ 24 /\
    2 * (Zpos mr * 2 ^ K * B) - 2 ^ (d - 24) * B <= 2 * A <=
    2 * (Zpos mr * 2 ^ K * B) + 2 ^ (d - 24) * B.
Proof.
  intros d Hd Hex Hmax Happ.
  pose proof (digits2_bounds mx) as Hdig. fold d in Hdig.
  assert (HB : 0 < B) by apply Happ.
  assert (Hin : Zpos mx * B <= A < (Zpos mx + 1) * B).
  { apply approx_bounds in Happ.
    destruct lx as [|[| |]]; exact Happ. }
  unfold binary_round_aux, shr_fexp.
  change (Zdigits2 (Z.pos mx)) with d.
  rewrite fexp_normal by lia.
  replace (d + ex - 24 - ex) with (d - 24) by lia.
  destruct (shr_approx A B (shr_record_of_loc (Z.pos mx) lx) ex (d - 24)
              ltac:(lia) Happ) as [Happ1 He1].
  destruct (shr (shr_record_of_loc (Z.pos mx) lx) ex (d - 24)) as [mrs' e'].
  cbn [fst snd] in Happ1, He1. subst e'.
  set (P := 2 ^ (d - 24) * B) in *.
  assert (HP : 0 < P) by (apply Z.mul_pos_pos; [apply Z.pow_pos_nonneg|]; lia).
  assert (Hsplit : 2 ^ d = 2 ^ 24 * 2 ^ (d - 24)).
  { rewrite <- Z.pow_add_r by lia. f_equal. lia. }
  assert (Hsplit' : 2 ^ (d - 1) = 2 ^ 23 * 2 ^ (d - 24)).
  { rewrite <- Z.pow_add_r by lia. f_equal. lia. }
  pose proof (approx_bounds _ _ _ Happ1) as Hin1.
  pose proof (round_nearest_even_approx _ _ _ Happ1) as [Hm1 Herr].
  set (m' := shr_m mrs') in *.
  set (m1 := round_nearest_even m' (loc_of_shr_record mrs')) in *.
  assert (Hm'lo : 2 ^ 23 <= m').
  { assert (2 ^ 23 * P < (m' + 1) * P).
    { unfold P at 1. rewrite Z.mul_assoc, <- Hsplit'. nia. }
    nia. }
  assert (Hm'hi : m' < 2 ^ 24).
  { assert (m' * P < 2 ^ 24 * P).
    { unfold P at 2. rewrite Z.mul_assoc, <- Hsplit. nia. }
    nia. }
  destruct (Z.eq_dec m1 (2 ^ 24)) as [Hcarry|Hnocarry].
  - (* the rounding carried into bit 24 *)
    rewrite Hcarry.
    change (Zdigits2 (2 ^ 24)) with 25.
    rewrite fexp_normal by lia.
    replace (25 + (ex + (d - 24)) - 24 - (ex + (d - 24))) with 1 by lia.
    cbn [shr shr_record_of_loc iter_pos shr_1 shr_m].
    exists (2 ^ 23)%positive, (d - 23).
    replace (ex + (d - 24) + 1) with (ex + (d - 23)) by lia.
    rewrite (proj2 (Z.leb_le (ex + (d - 23)) (128 - 24))) by lia.
    split; [reflexivity|]. split; [lia|]. split; [cbn; lia|].
    replace (2 ^ (d - 23)) with (2 * 2 ^ (d - 24))
      by (rewrite <- Z.pow_succ_r by lia; f_equal; lia).
    change (Z.pos (2 ^ 23)) with (2 ^ 23).
    rewrite Hcarry in Herr. fold P in Herr.
    replace (2 ^ 23 * (2 * 2 ^ (d - 24)) * B) with (2 ^ 24 * P)
      by (unfold P; change (2 ^ 24) with (2 ^ 23 * 2); ring).
    lia.
  - assert (Hm1pos : 2 ^ 23 <= m1 < 2 ^ 24) by lia.
    destruct m1 as [|q|q] eqn:Eq; try lia.
    assert (Hdq : Zpos (digits2_pos q) = 24) by (apply digits2_unique; lia).
    cbn [Zdigits2]. rewrite Hdq.
    rewrite fexp_normal by lia.
    replace (24 + (ex + (d - 24)) - 24 - (ex + (d - 24))) with 0 by lia.
    cbn [shr shr_record_of_loc shr_m].
    exists q, (d - 24).
    rewrite (proj2 (Z.leb_le (ex + (d - 24)) (128 - 24))) by lia.
    split; [reflexivity|]. split; [lia|]. split; [lia|].
    fold P. replace (Z.pos q * 2 ^ (d - 24) * B) with (Z.pos q * P)
      by (unfold P; ring).
    lia.
Qed.


Lemma binary_round_aux_rounded (mx : positive) (ex : Z) (lx : location) (A B : Z) :
  let d := Zpos (digits2_pos mx) in
  24 <= d -> -24 <= ex -> ex + d <= 127 ->
  approx A B (shr_record_of_loc (Zpos mx) lx) ->
  exists (mr : positive) (er : Z),
    binary_round_aux 24 128 false (Zpos mx) ex lx = S754_finite false mr er /\
    ex + d - 24 <= er <= ex + d - 23 /\
    2 ^ 23 <= Zpos mr < 2 ^ 24 /\
    rounded (B * sval mr er) (A * 2 ^ (ex + 24)) /\
    (d = 24 -> lx = loc_Exact -> mr = mx /\ er = ex).
Proof.
  intros d Hd Hex Hmax Happ.
  destruct (binary_round_aux_correct mx ex lx A B Hd ltac:(lia) Hmax Happ)
    as (mr & K & Heq & HK & Hmr & Herr).
  fold d in HK, Herr.
  assert (HB : 0 < B) by apply Happ.
  exists mr, (ex + K). split; [exact Heq|]. split; [lia|]. split; [exact Hmr|].
  assert (HT : 0 < 2 ^ K) by (apply Z.pow_pos_nonneg; lia).
  assert (HU : 0 < 2 ^ (ex + 24)) by (apply Z.pow_pos_nonneg; lia).
  assert (HTd : 2 ^ (d - 24) <= 2 ^ K) by (apply Z.pow_le_mono_r; lia).
  split.
  - unfold rounded, sval.
    replace (ex + K + 24) with (K + (ex + 24)) by lia.
    rewrite Z.pow_add_r by lia.
    set (T := 2 ^ K) in *. set (U := 2 ^ (ex + 24)) in *.
    set (x := Z.pos mr * T * B) in *.
    replace (B * (Z.pos mr * (T * U))) with (x * U) by (unfold x; ring).
    assert (Hw : 2 ^ 23 * (2 ^ (d - 24) * B) <= x).
    { unfold x. 
      assert (2 ^ 23 * (2 ^ (d - 24) * B) <= 2 ^ 23 * (T * B)) by nia.
      assert (2 ^ 23 * (T * B) <= Z.pos mr * (T * B)) by nia.
      lia. }
    assert (H1 : (2 ^ 24 - 1) * x <= 2 ^ 24 * A) by lia.
    assert (H2 : 2 ^ 24 * A <= (2 ^ 24 + 1) * x) by lia.
    split.
    + replace ((2 ^ 24 - 1) * (x * U)) with ((2 ^ 24 - 1) * x * U) by ring.
      replace (2 ^ 24 * (A * U)) with (2 ^ 24 * A * U) by ring.
      apply Z.mul_le_mono_nonneg_r; lia.
    + replace ((2 ^ 24 + 1) * (x * U)) with ((2 ^ 24 + 1) * x * U) by ring.
      replace (2 ^ 24 * (A * U)) with (2 ^ 24 * A * U) by ring.
      apply Z.mul_le_mono_nonneg_r; lia.
  - intros Hd24 ->. cbn [shr_record_of_loc] in Happ.
    destruct Happ as (_ & _ & HA). cbn [shr_m shr_r shr_s] in HA. subst A.
    rewrite Hd24 in Herr, HK. change (2 ^ (24 - 24)) with 1 in Herr.
    pose proof (digits2_bounds mx) as Hdig. fold d in Hdig. rewrite Hd24 in Hdig.
    assert (K = 0).
    { destruct (Z.eq_dec K 0) as [|HK0]; [assumption|].
      assert (K = 1) by lia. subst K. change (2 ^ 1) with 2 in Herr. nia. }
    subst K. change (2 ^ 0) with 1 in Herr.
    split; [|lia].
    assert (Z.pos mr = Z.pos mx) by nia. congruence.
Qed.

Lemma approx_exact (m : Z) :
  0 <= m -> approx m 1 (shr_record_of_loc m loc_Exact).
Proof.
  intros Hm. unfold approx. cbn [shr_record_of_loc shr_m shr_r shr_s]. lia.
Qed.

Lemma pos_iter_xO (m d : positive) :
  Zpos (Pos.iter xO m d) = Zpos m * 2 ^ Zpos d.
Proof.
  induction d as [|d IH] using Pos.peano_ind.
  - cbn [Pos.iter]. rewrite (Pos2Z.inj_xO m). change (2 ^ 1) with 2. lia.
  - rewrite Pos.iter_succ, (Pos2Z.inj_xO (Pos.iter xO m d)), IH.
    rewrite Pos2Z.inj_succ, Z.pow_succ_r by lia. ring.
Qed.

(** The conversion of an unsigned integer below 2^32 to binary32. *)
Lemma of_Z_rounded (n : Z) :
  1 <= n < 2 ^ 32 ->
  exists (m : positive) (e : Z),
    binary_normalize 24 128 n 0 false = S754_finite false m e /\
    2 ^ 23 <= Zpos m < 2 ^ 24 /\ -23 <= e <= 9 /\
    rounded (sval m e) (n * 2 ^ 24) /\
    (n < 2 ^ 24 -> sval m e = n * 2 ^ 24 /\ e <= 0).
Proof.
  intros Hn. destruct n as [|p|p]; try lia.
  cbn [binary_normalize]. unfold binary_round.
  pose proof (digits2_bounds p) as Hdig.
  set (dp := Zpos (digits2_pos p)) in *.
  assert (Hdp : 1 <= dp <= 32).
  { split; [unfold dp; lia|].
    destruct (Z.le_gt_cases dp 32) as [|Hgt]; [assumption|].
    assert (2 ^ 32 <= 2 ^ (dp - 1)) by (apply Z.pow_le_mono_r; lia). lia. }
  rewrite Z.add_0_r.
  destruct (Z.lt_ge_cases dp 24) as [Hsmall|Hbig].
  - (* fewer than 24 digits: the mantissa is shifted left *)
    assert (Hf : fexp 24 128 dp = dp - 24) by (unfold fexp, emin; lia).
    rewrite Hf. unfold shl_align.
    replace (dp - 24 - 0) with (- (24 - dp)) by lia.
    destruct (24 - dp) as [|k|k] eqn:Hk; try lia.
    cbn [Z.opp].
    assert (Hmz : Zpos (Pos.iter xO p k) = Zpos p * 2 ^ (24 - dp))
      by (rewrite pos_iter_xO, Hk; reflexivity).
    set (mz := Pos.iter xO p k) in *.
    assert (H23 : 2 ^ 23 = 2 ^ (dp - 1) * 2 ^ (24 - dp))
      by (rewrite <- Z.pow_add_r by lia; f_equal; lia).
    assert (H24 : 2 ^ 24 = 2 ^ dp * 2 ^ (24 - dp))
      by (rewrite <- Z.pow_add_r by lia; f_equal; lia).
    assert (Hpos : 0 < 2 ^ (24 - dp)) by (apply Z.pow_pos_nonneg; lia).
    assert (Hrange : 2 ^ 23 <= Zpos mz < 2 ^ 24) by (rewrite Hmz, H23, H24; nia).
    assert (Hdz : Zpos (digits2_pos mz) = 24) by (apply digits2_unique; lia).
    destruct (binary_round_aux_rounded mz (dp - 24) loc_Exact (Zpos mz) 1)
      as (mr & er & Heq & Her & Hmr & Hr & Hexact).
    { lia. } { lia. } { lia. }
    { apply approx_exact. lia. }
    destruct (Hexact Hdz eq_refl) as [-> ->].
    exists mz, (dp - 24). split; [exact Heq|]. split; [lia|]. split; [lia|].
    assert (Hval : sval mz (dp - 24) = Zpos p * 2 ^ 24).
    { unfold sval. rewrite Hmz. replace (dp - 24 + 24) with dp by lia.
      rewrite H24. ring. }
    split.
    + rewrite Hval. unfold rounded. lia.
    + intros _. split; [exact Hval|lia].
  - (* 24 digits or more: rounding proper *)
    assert (Hf : fexp 24 128 dp = dp - 24) by (unfold fexp, emin; lia).
    rewrite Hf. unfold shl_align.
    destruct (dp - 24 - 0) as [|k|k] eqn:Hk; try lia.
    + destruct (binary_round_aux_rounded p 0 loc_Exact (Zpos p) 1)
        as (mr & er & Heq & Her & Hmr & Hr & Hexact).
      { fold dp. lia. } { lia. } { fold dp. lia. } { apply approx_exact. lia. }
      fold dp in Her.
      exists mr, er. split; [exact Heq|]. split; [lia|]. split; [lia|].
      change (2 ^ (0 + 24)) with (2 ^ 24) in Hr. rewrite Z.mul_1_l in Hr.
      split; [exact Hr|].
      intros Hlt. assert (dp = 24) by lia.
      destruct (Hexact ltac:(assumption) eq_refl) as [-> ->].
      split; [|lia]. unfold sval. reflexivity.
    + destruct (binary_round_aux_rounded p 0 loc_Exact (Zpos p) 1)
        as (mr & er & Heq & Her & Hmr & Hr & Hexact).
      { fold dp. lia. } { lia. } { fold dp. lia. } { apply approx_exact. lia. }
      fold dp in Her.
      exists mr, er. split; [exact Heq|]. split; [lia|]. split; [lia|].
      change (2 ^ (0 + 24)) with (2 ^ 24) in Hr. rewrite Z.mul_1_l in Hr.
      split; [exact Hr|].
      intros Hlt. exfalso.
      assert (2 ^ 24 <= 2 ^ (dp - 1)) by (apply Z.pow_le_mono_r; lia). lia.
Qed.


(** The product of a normal number and 10000000.0f. *)
Lemma mul_ten_million_rounded (mN : positive) (eN : Z) :
  2 ^ 23 <= Zpos mN < 2 ^ 24 -> -24 <= eN <= 9 ->
  exists (mP : positive) (eP : Z),
    SFmul 24 128 (S754_finite false mN eN) (S754_finite false 10000000 0) =
    S754_finite false mP eP /\
    2 ^ 23 <= Zpos mP < 2 ^ 24 /\ eN + 23 <= eP <= eN + 25 /\
    rounded (sval mP eP) (10000000 * sval mN eN).
Proof.
  intros HmN HeN. cbn [SFmul xorb].
  pose proof (digits2_bounds (mN * 10000000)) as Hdig.
  set (d := Zpos (digits2_pos (mN * 10000000))) in *.
  rewrite Pos2Z.inj_mul in Hdig.
  assert (Hd : 47 <= d <= 48).
  { split.
    - destruct (Z.le_gt_cases 47 d) as [|Hlt]; [assumption|].
      assert (2 ^ d <= 2 ^ 46) by (apply Z.pow_le_mono_r; lia). nia.
    - destruct (Z.le_gt_cases d 48) as [|Hgt]; [assumption|].
      assert (2 ^ 48 <= 2 ^ (d - 1)) by (apply Z.pow_le_mono_r; lia). nia. }
  destruct (binary_round_aux_rounded (mN * 10000000) (eN + 0) loc_Exact
              (Zpos (mN * 10000000)) 1)
    as (mP & eP & Heq & HeP & HmP & Hr & _).
  { fold d. lia. } { lia. } { fold d. lia. } { apply approx_exact. lia. }
  fold d in HeP.
  exists mP, eP. split; [exact Heq|]. split; [exact HmP|]. split; [lia|].
  rewrite Z.mul_1_l in Hr.
  replace (10000000 * sval mN eN) with (Z.pos (mN * 10000000) * 2 ^ (eN + 0 + 24)).
  - exact Hr.
  - unfold sval. rewrite Pos2Z.inj_mul, Z.add_0_r. ring.
Qed.

Lemma new_location_approx (nb q r : Z) :
  0 < nb -> 0 <= q -> 0 <= r < nb ->
  approx (q * nb + r) nb (shr_record_of_loc q (new_location nb r)).
Proof.
  intros Hnb Hq Hr. unfold approx, new_location.
  destruct (Z.even nb) eqn:Hev.
  - unfold new_location_even.
    destruct (Z.eqb_spec r 0) as [->|Hr0].
    + cbn [shr_record_of_loc shr_m shr_r shr_s]. lia.
    + destruct (Z.compare_spec (2 * r) nb);
        cbn [shr_record_of_loc shr_m shr_r shr_s]; lia.
  - unfold new_location_odd.
    assert (Hodd : exists k, nb = 2 * k + 1).
    { apply Z.odd_spec. rewrite <- Z.negb_even, Hev. reflexivity. }
    destruct Hodd as [k Hk].
    destruct (Z.eqb_spec r 0) as [->|Hr0].
    + cbn [shr_record_of_loc shr_m shr_r shr_s]. lia.
    + destruct (Z.compare_spec (2 * r + 1) nb);
        cbn [shr_record_of_loc shr_m shr_r shr_s]; lia.
Qed.

(** The quotient of two normal numbers. *)
Lemma div_rounded (mP mB : positive) (eP eB : Z) :
  2 ^ 23 <= Zpos mP < 2 ^ 24 -> 2 ^ 23 <= Zpos mB < 2 ^ 24 ->
  -24 <= eB -> eB <= eP -> eP - eB <= 100 ->
  exists (mQ : positive) (eQ : Z),
    SFdiv 24 128 (S754_finite false mP eP) (S754_finite false mB eB) =
    S754_finite false mQ eQ /\
    2 ^ 23 <= Zpos mQ < 2 ^ 24 /\ eP - eB - 24 <= eQ <= eP - eB - 22 /\
    rounded (sval mB eB * sval mQ eQ) (sval mP eP * 2 ^ 24).
Proof.
  intros HmP HmB HeB Hle Hhi. cbn [SFdiv xorb].
  unfold SFdiv_core_binary.
  assert (HdP : Zdigits2 (Zpos mP) = 24) by (apply digits2_unique; lia).
  assert (HdB : Zdigits2 (Zpos mB) = 24) by (apply digits2_unique; lia).
  rewrite HdP, HdB.
  replace (24 + eP - (24 + eB)) with (eP - eB) by lia.
  rewrite fexp_normal by lia.
  rewrite Z.min_l by lia.
  replace (eP - eB - (eP - eB - 24)) with 24 by lia.
  cbv iota beta.
  rewrite Z.shiftl_mul_pow2 by lia.
  pose proof (Z_div_mod (Zpos mP * 2 ^ 24) (Zpos mB) ltac:(lia)) as Hdm.
  destruct (Z.div_eucl (Zpos mP * 2 ^ 24) (Zpos mB)) as [q r].
  destruct Hdm as [Hdm Hr].
  assert (Hq : 2 ^ 23 <= q < 2 ^ 25) by nia.
  destruct q as [|qq|qq]; try lia.
  pose proof (digits2_bounds qq) as Hdig.
  set (d := Zpos (digits2_pos qq)) in *.
  assert (Hd : 24 <= d <= 25).
  { split.
    - destruct (Z.le_gt_cases 24 d) as [|Hlt]; [assumption|].
      assert (2 ^ d <= 2 ^ 23) by (apply Z.pow_le_mono_r; lia). lia.
    - destruct (Z.le_gt_cases d 25) as [|Hgt]; [assumption|].
      assert (2 ^ 25 <= 2 ^ (d - 1)) by (apply Z.pow_le_mono_r; lia). lia. }
  destruct (binary_round_aux_rounded qq (eP - eB - 24)
              (new_location (Zpos mB) r) (Zpos mP * 2 ^ 24) (Zpos mB))
    as (mQ & eQ & Heq & HeQ & HmQ & Hrd & _).
  { fold d. lia. } { lia. } { fold d. lia. }
  { rewrite Hdm. rewrite (Z.mul_comm (Zpos mB) (Zpos qq)).
    apply new_location_approx; lia. }
  fold d in HeQ.
  exists mQ, eQ. split; [exact Heq|]. split; [exact HmQ|]. split; [lia|].
  replace (eP - eB - 24 + 24) with (eP - eB) in Hrd by lia.
  (* scale both sides by 2^(eB + 24) *)
  unfold rounded in *. 
  assert (HU : 0 < 2 ^ (eB + 24)) by (apply Z.pow_pos_nonneg; lia).
  assert (HsP : sval mP eP * 2 ^ 24 =
                Zpos mP * 2 ^ 24 * 2 ^ (eP - eB) * 2 ^ (eB + 24)).
  { unfold sval. replace (eP + 24) with (eP - eB + (eB + 24)) by lia.
    rewrite Z.pow_add_r by lia. ring. }
  assert (HsB : sval mB eB * sval mQ eQ =
                Zpos mB * sval mQ eQ * 2 ^ (eB + 24)).
  { unfold sval at 1. ring. }
  rewrite HsP, HsB.
  set (U := 2 ^ (eB + 24)) in *.
  set (x := Zpos mB * sval mQ eQ) in *.
  set (y := Zpos mP * 2 ^ 24 * 2 ^ (eP - eB)) in *.
  destruct Hrd as [H1 H2].
  split.
  - replace ((2 ^ 24 - 1) * (x * U)) with ((2 ^ 24 - 1) * x * U) by ring.
    replace (2 ^ 24 * (y * U)) with (2 ^ 24 * y * U) by ring.
    apply Z.mul_le_mono_nonneg_r; lia.
  - replace ((2 ^ 24 + 1) * (x * U)) with ((2 ^ 24 + 1) * x * U) by ring.
    replace (2 ^ 24 * (y * U)) with (2 ^ 24 * y * U) by ring.
    apply Z.mul_le_mono_nonneg_r; lia.
Qed.


(** The truncation of a normal number below 2^62. *)
Lemma to_long_long_floor (mQ : positive) (eQ : Z) :
  2 ^ 23 <= Zpos mQ < 2 ^ 24 -> -24 <= eQ <= 38 ->
  exists t,
    Float32.to_long_long (S754_finite false mQ eQ) = Some t /\
    0 <= t /\ t * 2 ^ 24 <= sval mQ eQ < (t + 1) * 2 ^ 24.
Proof.
  intros HmQ HeQ. unfold Float32.to_long_long, sval.
  destruct (Z.leb_spec 0 eQ) as [Hpos|Hneg].
  - exists (Zpos mQ * 2 ^ eQ).
    assert (H1 : 0 < 2 ^ eQ) by (apply Z.pow_pos_nonneg; lia).
    assert (H2 : 2 ^ eQ <= 2 ^ 38) by (apply Z.pow_le_mono_r; lia).
    assert (Hv : 0 <= Zpos mQ * 2 ^ eQ < 2 ^ 63).
    { split; [lia|].
      apply Z.le_lt_trans with (Zpos mQ * 2 ^ 38); [nia|].
      change (2 ^ 63) with (2 ^ 25 * 2 ^ 38). nia. }
    rewrite (proj2 (Z.leb_le (- 2 ^ 63) _)) by lia.
    rewrite (proj2 (Z.ltb_lt _ (2 ^ 63))) by lia.
    split; [reflexivity|]. split; [lia|].
    rewrite Z.pow_add_r by lia. lia.
  - set (k := - eQ) in *.
    assert (Hk : 1 <= k <= 24) by lia.
    assert (H1 : 0 < 2 ^ k) by (apply Z.pow_pos_nonneg; lia).
    assert (H2 : 0 < 2 ^ (24 - k)) by (apply Z.pow_pos_nonneg; lia).
    pose proof (Z.div_mod (Zpos mQ) (2 ^ k) ltac:(lia)) as Hdm.
    pose proof (Z.mod_pos_bound (Zpos mQ) (2 ^ k) H1) as Hrem.
    assert (Ht : 0 <= Zpos mQ / 2 ^ k) by (apply Z.div_pos; lia).
    assert (Ht' : Zpos mQ / 2 ^ k <= Zpos mQ) by (apply Z.div_le_upper_bound; nia).
    exists (Zpos mQ / 2 ^ k).
    rewrite (proj2 (Z.leb_le (- 2 ^ 63) _)) by lia.
    rewrite (proj2 (Z.ltb_lt _ (2 ^ 63))) by lia.
    split; [reflexivity|]. split; [lia|].
    replace (eQ + 24) with (24 - k) by lia.
    assert (H24 : 2 ^ 24 = 2 ^ k * 2 ^ (24 - k))
      by (rewrite <- Z.pow_add_r by lia; f_equal; lia).
    rewrite H24.
    set (t := Zpos mQ / 2 ^ k) in *. set (rem := Zpos mQ mod 2 ^ k) in *.
    set (U := 2 ^ (24 - k)) in *. set (V := 2 ^ k) in *.
    rewrite Hdm. nia.
Qed.

End Binary32.

(** ** The transit duration *)

(** C9, as the code has it.  For every byte count n from 1 up to 2^32 - 1 and
    every baudrate b in 1..115200 the transit duration is max(1, t)
    microseconds for a t that the single precision arithmetic keeps within a
    relative error of 2^-22 and one microsecond of q = n * 10000000 / b:
    (1 - 2^-22) * q - 1 < t <= (1 + 2^-22) * q. *)
Theorem a_transitDuration_bound (b n : Z) :
  1 <= n < 2 ^ 32 -> 1 <= b <= 115200 ->
  exists t,
    a_transitDuration b n = Some (Z.max 1 t) /\ 0 <= t /\
    2 ^ 22 * (t * b) <= (2 ^ 22 + 1) * (n * 10000000) /\
    (2 ^ 22 - 1) * (n * 10000000) < 2 ^ 22 * ((t + 1) * b).
Proof.
  intros Hn Hb.
  destruct (of_Z_rounded n Hn) as (mN & eN & HfN & HmN & HeN & HrN & _).
  destruct (of_Z_rounded b ltac:(lia)) as (mB & eB & HfB & HmB & HeB & _ & HxB).
  destruct (HxB ltac:(lia)) as [HsB HeB0].
  destruct (mul_ten_million_rounded mN eN HmN ltac:(lia))
    as (mP & eP & HfP & HmP & HeP & HrP).
  destruct (div_rounded mP mB eP eB HmP HmB ltac:(lia) ltac:(lia) ltac:(lia))
    as (mQ & eQ & HfQ & HmQ & HeQ & HrQ).
  destruct (to_long_long_floor mQ eQ HmQ ltac:(lia)) as (t & Ht & Ht0 & Hfloor).
  exists t.
  split.
  { unfold a_transitDuration, Float32.of_Z, Float32.mul, Float32.div,
      Float32.ten_million, Float32.prec, Float32.emax.
    rewrite HfN, HfB, HfP, HfQ, Ht.
    f_equal. destruct (Z.ltb_spec t 1); lia. }
  split; [exact Ht0|].
  unfold rounded in *. rewrite HsB in HrQ.
  set (sN := sval mN eN) in *. set (sP := sval mP eP) in *.
  set (sQ := sval mQ eQ) in *.
  assert (Hlo : (t * b) * 2 ^ 24 <= b * sQ) by nia.
  assert (Hhi : b * sQ < ((t + 1) * b) * 2 ^ 24) by nia.
  replace (b * 2 ^ 24 * sQ) with (2 ^ 24 * (b * sQ)) in HrQ by ring.
  set (X := b * sQ) in *. set (T := t * b) in *.
  replace ((t + 1) * b) with (T + b) in * by (unfold T; ring).
  change (2 ^ 24) with 16777216 in *. change (2 ^ 22) with 4194304.
  split; lia.
Qed.


(** The 250 initial bytes at 115200 bps. *)
Lemma a_transitDuration_bound_witness :
  exists t,
    a_transitDuration 115200 250 = Some (Z.max 1 t) /\ 0 <= t /\
    2 ^ 22 * (t * 115200) <= (2 ^ 22 + 1) * (250 * 10000000) /\
    (2 ^ 22 - 1) * (250 * 10000000) < 2 ^ 22 * ((t + 1) * 115200).
Proof.
  apply (a_transitDuration_bound 115200 250); lia.
Defined.

(** C9, as the specification words it, fails: 900 bytes at 115200 bps take
    exactly 78125 microseconds, and the single precision computation gives
    78124.  The product 9000000000 lies halfway between two binary32 numbers
    and is rounded to 8789062 * 2^10 = 8999999488; the quotient by 115200 is
    78124.9955..., rounded to 78124.9921875 and truncated to 78124. *)
Lemma a_transitDuration_not_exact :
  a_transitDuration 115200 900 = Some 78124 /\
  Z.max 1 (900 * 10000000 / 115200) = 78125 /\
  (900 * 10000000) mod 115200 = 0.
Proof.
  repeat split; vm_compute; reflexivity.
Qed.

(** * Further properties of the code *)

(** ** The line *)

Lemma encodeBit_checks_true : encodeBit_checks = true.
Proof. vm_compute. reflexivity. Qed.

Lemma zrange_In (n : nat) (z : Z) : 0 <= z < Z.of_nat n -> In z (zrange n).
Proof.
  intros Hz. unfold zrange. apply in_map_iff. exists (Z.to_nat z).
  split; [lia|]. apply in_seq. lia.
Qed.

Lemma eqb_line_eq (a : list bool) : forall b, eqb_line a b = true -> a = b.
Proof.
  induction a as [|x a IH]; intros [|y b] H; try discriminate H.
  - reflexivity.
  - cbn [eqb_line] in H. apply andb_true_iff in H. destruct H as [Hxy Hab].
    apply Bool.eqb_prop in Hxy. subst y. f_equal. now apply IH.
Qed.

Lemma encodeBit_check_true (p c bit idle : Z) :
  0 <= p <= 10 -> 0 <= c < 256 -> bit = 0 \/ bit = 1 -> 1 <= idle <= 8 ->
  encodeBit_check p c bit idle = true.
Proof.
  intros Hp Hc Hbit Hidle.
  pose proof encodeBit_checks_true as H. unfold encodeBit_checks in H.
  rewrite forallb_forall in H. specialize (H p (zrange_In 11 p ltac:(lia))).
  rewrite forallb_forall in H. specialize (H c (zrange_In 256 c ltac:(lia))).
  rewrite forallb_forall in H.
  specialize (H bit ltac:(destruct Hbit as [->| ->]; cbn; auto)).
  rewrite forallb_forall in H.
  apply (H idle).
  assert (Hc' : idle = 1 \/ idle = 2 \/ idle = 3 \/ idle = 4 \/ idle = 5 \/
                idle = 6 \/ idle = 7 \/ idle = 8) by lia.
  destruct Hc' as [->|[->|[->|[->|[->|[->|[->| ->]]]]]]]; cbn; auto 10.
Qed.

Lemma wire_app (a b : list Z) : wire (a ++ b) = wire a ++ wire b.
Proof. unfold wire. apply flat_map_app. Qed.

Lemma sent_prepend (pre : list Z) (e : TBP.t) :
  sent (prepend pre e) = wire pre ++ sent e.
Proof.
  unfold sent, prepend; cbn [TBP.buffer TBP.bitPos TBP.currByte].
  now rewrite wire_app, app_assoc.
Qed.

Lemma openState_range (e : TBP.t) :
  openState e ->
  0 <= TBP.currByte e < 256 /\ 0 <= TBP.bitPos e <= 10 /\
  (TBP.bitPos e = 0 -> TBP.currByte e = 255).
Proof.
  unfold openState, openStateb. intros H.
  apply andb_true_iff in H. destruct H as [Hc H].
  apply andb_true_iff in Hc. destruct Hc as [Hc0 Hc1].
  apply Z.leb_le in Hc0. apply Z.ltb_lt in Hc1.
  apply orb_true_iff in H. destruct H as [H|H].
  - apply andb_true_iff in H. destruct H as [Hp Hc].
    apply Z.eqb_eq in Hp. apply Z.eqb_eq in Hc. lia.
  - apply andb_true_iff in H. destruct H as [Hp _].
    apply andb_true_iff in Hp. destruct Hp as [Hp1 Hp2].
    apply Z.leb_le in Hp1. apply Z.leb_le in Hp2. lia.
Qed.

Lemma isByte_forallb (l : list Z) :
  forallb (fun b => (0 <=? b) && (b <? 256)) l = true -> Forall isByte l.
Proof.
  intros H. apply Forall_forall. intros b Hb.
  rewrite forallb_forall in H. specialize (H b Hb).
  apply andb_true_iff in H. destruct H as [H0 H1].
  apply Z.leb_le in H0. apply Z.ltb_lt in H1. split; assumption.
Qed.

(** What one call of [encodeBit] adds to the line. *)
Lemma encodeBit_sent (e : TBP.t) (bit idle : Z) :
  openState e -> bit = 0 \/ bit = 1 -> 1 <= idle <= 8 ->
  openState (TBP.encodeBit e bit idle) /\
  TBP.bitPos (TBP.encodeBit e bit idle) <> 0 /\
  (Forall isByte (TBP.buffer e) ->
   Forall isByte (TBP.buffer (TBP.encodeBit e bit idle))) /\
  exists pad,
    (TBP.bitPos e = 0 -> pad = O) /\
    sent (TBP.encodeBit e bit idle) =
    sent e ++ repeat true pad ++ pulse (bit, Z.to_nat idle).
Proof.
  intros Hopen Hbit Hidle.
  destruct (openState_range e Hopen) as (Hc & Hp & _).
  pose proof (encodeBit_check_true (TBP.bitPos e) (TBP.currByte e) bit idle
                Hp Hc Hbit Hidle) as Hchk.
  unfold encodeBit_check in Hchk.
  change (TBP.mk [] (TBP.bitPos e) (TBP.currByte e)) with (dropBuffer e) in Hchk.
  change (openStateb (dropBuffer e)) with (openStateb e) in Hchk.
  rewrite Hopen in Hchk. cbn [negb orb] in Hchk.
  set (e' := TBP.encodeBit (dropBuffer e) bit idle) in *.
  assert (Henc : TBP.encodeBit e bit idle = prepend (TBP.buffer e) e').
  { unfold e'. rewrite <- prepend_encodeBit. now rewrite prepend_dropBuffer. }
  assert (Hsent : sent e = wire (TBP.buffer e) ++ sent (dropBuffer e)).
  { rewrite <- sent_prepend. now rewrite prepend_dropBuffer. }
  rewrite Henc, Hsent. clear Henc Hsent.
  apply andb_true_iff in Hchk. destruct Hchk as [Hchk Hline].
  apply andb_true_iff in Hchk. destruct Hchk as [Hchk Hbytes].
  apply andb_true_iff in Hchk. destruct Hchk as [Hopen' Hnz].
  split; [exact Hopen'|].
  split.
  { change (TBP.bitPos (prepend (TBP.buffer e) e')) with (TBP.bitPos e').
    apply negb_true_iff, Z.eqb_neq in Hnz. exact Hnz. }
  split.
  { intros Hbuf. change (TBP.buffer (prepend (TBP.buffer e) e'))
      with (TBP.buffer e ++ TBP.buffer e').
    apply Forall_app. split; [exact Hbuf|now apply isByte_forallb]. }
  rewrite sent_prepend.
  apply orb_true_iff in Hline. destruct Hline as [Hline|Hline].
  - exists O. split; [reflexivity|].
    apply eqb_line_eq in Hline. rewrite Hline. cbn [repeat app].
    now rewrite app_assoc.
  - apply andb_true_iff in Hline. destruct Hline as [Hp0 Hline].
    apply negb_true_iff, Z.eqb_neq in Hp0.
    exists (Z.to_nat (10 - TBP.bitPos e)). split; [contradiction|].
    apply eqb_line_eq in Hline. rewrite Hline. now rewrite app_assoc.
Qed.

Lemma train_app (a b : list (Z * nat)) : train (a ++ b) = train a ++ train b.
Proof. unfold train. apply flat_map_app. Qed.

Lemma train_one (s : Z * nat) : train [s] = pulse s.
Proof. unfold train. cbn [flat_map]. apply app_nil_r. Qed.

Lemma pulse_pad (b : Z) (n pad : nat) :
  pulse (b, n) ++ repeat true pad = pulse (b, (n + pad)%nat).
Proof.
  unfold pulse; cbn [fst snd]. now rewrite <- app_assoc, <- repeat_app.
Qed.

Lemma sends_app (s1 s2 t1 t2 : list (Z * nat)) :
  sends s1 t1 -> sends s2 t2 -> sends (s1 ++ s2) (t1 ++ t2).
Proof. unfold sends. apply Forall2_app. Qed.

Lemma sends_nil_inv (tr : list (Z * nat)) : sends [] tr -> tr = [].
Proof. intros H. inversion H. reflexivity. Qed.

Lemma snoc_case {A : Type} (l : list A) :
  l = [] \/ exists l0 x, l = l0 ++ [x].
Proof.
  induction l as [|x l _] using rev_ind; [now left|right; now exists l, x].
Qed.

(** Idle time after the last pulse lengthens the gap of that pulse. *)
Lemma sends_pad (syms tr : list (Z * nat)) (pad : nat) :
  sends syms tr -> (syms = [] -> pad = O) ->
  exists tr', sends syms tr' /\ train tr ++ repeat true pad = train tr'.
Proof.
  intros Hs Hpad.
  destruct (snoc_case syms) as [->|(s0 & s & ->)].
  - rewrite (Hpad eq_refl). exists tr. split; [exact Hs|]. cbn [repeat].
    apply app_nil_r.
  - apply Forall2_app_inv_l in Hs. destruct Hs as (t0 & t1 & H0 & H1 & ->).
    inversion H1 as [|x [b n] xs ts [Hb Hn] Hnil]; subst.
    inversion Hnil; subst. cbn [fst snd] in *.
    exists (t0 ++ [(b, (n + pad)%nat)]). split.
    + apply sends_app; [exact H0|]. constructor; [|constructor].
      cbn [fst snd]. split; [exact Hb|lia].
    + rewrite !train_app, !train_one, <- app_assoc. f_equal. apply pulse_pad.
Qed.

Lemma land_1_cases (x : Z) : Z.land x 1 = 0 \/ Z.land x 1 = 1.
Proof.
  pose proof (Z.land_ones x 1 ltac:(lia)) as H.
  change (Z.ones 1) with 1 in H. change (2 ^ 1) with 2 in H.
  pose proof (Z.mod_pos_bound x 2). lia.
Qed.

Lemma lineOf_encodeBit (e : TBP.t) (syms : list (Z * nat)) (bit idle : Z) :
  lineOf e syms -> bit = 0 \/ bit = 1 -> 1 <= idle <= 8 ->
  lineOf (TBP.encodeBit e bit idle) (syms ++ [(bit, Z.to_nat idle)]).
Proof.
  intros (Hopen & Hbuf & Hnil & tr & Hs & Hline) Hbit Hidle.
  destruct (encodeBit_sent e bit idle Hopen Hbit Hidle)
    as (Hopen' & Hnz & Hbuf' & pad & Hpad & Hsent).
  split; [exact Hopen'|]. split; [exact (Hbuf' Hbuf)|].
  split. { intros H. now apply app_eq_nil in H as [_ H]. }
  destruct (sends_pad syms tr pad Hs (fun H => Hpad (Hnil H)))
    as (tr' & Hs' & Htr').
  exists (tr' ++ [(bit, Z.to_nat idle)]). split.
  - apply sends_app; [exact Hs'|]. constructor; [|constructor].
    cbn [fst snd]. split; [reflexivity|lia].
  - rewrite Hsent, Hline, app_assoc, Htr', train_app, train_one. reflexivity.
Qed.

Lemma bitOfLong_shift (v : Z) (i : nat) :
  bitOfLong (Z.shiftr v 1) i = bitOfLong v (S i).
Proof.
  unfold bitOfLong. rewrite Z.shiftr_shiftr by lia. do 2 f_equal. lia.
Qed.

Lemma encodeLongInternal_loop_S (n : nat) (e : TBP.t) (v : Z) :
  TBP.encodeLongInternal_loop (S n) e v =
  TBP.encodeLongInternal_loop n (TBP.encodeBit e (Z.land v 1) 1) (Z.shiftr v 1).
Proof. reflexivity. Qed.

Lemma lineOf_encodeLongInternal_loop (n : nat) :
  forall e v syms, lineOf e syms ->
  lineOf (fst (TBP.encodeLongInternal_loop n e v))
         (syms ++ map (fun i => (bitOfLong v i, 1%nat)) (List.seq 0 n)) /\
  snd (TBP.encodeLongInternal_loop n e v) = Z.shiftr v (Z.of_nat n).
Proof.
  induction n as [|n IH]; intros e v syms H.
  - cbn [List.seq map]. rewrite app_nil_r. split; [exact H|].
    cbn [TBP.encodeLongInternal_loop snd Z.of_nat]. now rewrite Z.shiftr_0_r.
  - rewrite encodeLongInternal_loop_S.
    pose proof (lineOf_encodeBit e syms (Z.land v 1) 1 H (land_1_cases v)
                  ltac:(lia)) as H1.
    destruct (IH _ (Z.shiftr v 1) _ H1) as [H2 H3]. split.
    + replace (syms ++ map (fun i => (bitOfLong v i, 1%nat)) (List.seq 0 (S n)))
        with ((syms ++ [(Z.land v 1, Z.to_nat 1)]) ++
              map (fun i => (bitOfLong (Z.shiftr v 1) i, 1%nat)) (List.seq 0 n));
        [exact H2|].
      rewrite <- app_assoc. f_equal. cbn [List.seq map app]. f_equal.
      rewrite <- seq_shift, map_map. apply map_ext. intros i.
      now rewrite bitOfLong_shift.
    + rewrite H3, Z.shiftr_shiftr by lia. f_equal. lia.
Qed.

Lemma lineOf_encodeLongInternal (e : TBP.t) (w : Z) (syms : list (Z * nat)) :
  lineOf e syms -> lineOf (TBP.encodeLongInternal e w) (syms ++ symbolsOfLong w).
Proof.
  intros H. unfold TBP.encodeLongInternal.
  destruct (lineOf_encodeLongInternal_loop 31 e w syms H) as [H1 H2].
  destruct (TBP.encodeLongInternal_loop 31 e w) as [e1 v1].
  cbn [fst snd] in H1, H2. subst v1.
  unfold symbolsOfLong. rewrite app_assoc.
  exact (lineOf_encodeBit e1 _ (Z.land (Z.shiftr w 31) 1) 2 H1
           (land_1_cases _) ltac:(lia)).
Qed.

Lemma lineOf_fold (ws : list Z) :
  forall e syms, lineOf e syms ->
  lineOf (fold_left TBP.encodeLongInternal ws e)
         (syms ++ flat_map symbolsOfLong ws).
Proof.
  induction ws as [|w ws IH]; intros e syms H.
  - cbn [flat_map]. rewrite app_nil_r. exact H.
  - rewrite fold_left_cons. cbn [flat_map]. rewrite app_assoc.
    apply IH. now apply lineOf_encodeLongInternal.
Qed.

Lemma lineOf_new (buf : list Z) : lineOf (TBP.new buf) [].
Proof.
  split; [reflexivity|]. split; [constructor|]. split; [reflexivity|].
  exists []. split; [constructor|reflexivity].
Qed.

Lemma openState_tail (e : TBP.t) :
  openState e -> TBP.bitPos e <> 0 ->
  frame (TBP.currByte e) =
  firstn (Z.to_nat (TBP.bitPos e)) (frame (TBP.currByte e)) ++
  repeat true (Z.to_nat (10 - TBP.bitPos e)).
Proof.
  intros H Hp. unfold openState, openStateb in H.
  apply andb_true_iff in H. destruct H as [_ H].
  apply orb_true_iff in H. destruct H as [H|H].
  - apply andb_true_iff in H. destruct H as [H _]. apply Z.eqb_eq in H.
    contradiction.
  - apply andb_true_iff in H. destruct H as [_ H]. apply eqb_line_eq in H.
    rewrite <- H. symmetry. apply firstn_skipn.
Qed.

(** Pushing the open byte puts the rest of its frame, all idle, on the line. *)
Lemma lineOf_push (e : TBP.t) (syms : list (Z * nat)) :
  lineOf e syms ->
  Forall isByte (TBP.buffer (TBP.pushCurrByteIfNotEmpty e)) /\
  TBP.bitPos (TBP.pushCurrByteIfNotEmpty e) = 0 /\
  TBP.currByte (TBP.pushCurrByteIfNotEmpty e) = 255 /\
  exists tr, sends syms tr /\
             wire (TBP.buffer (TBP.pushCurrByteIfNotEmpty e)) = train tr.
Proof.
  intros (Hopen & Hbuf & Hnil & tr & Hs & Hline).
  destruct (openState_range e Hopen) as (Hc & Hp & Hc0).
  unfold TBP.pushCurrByteIfNotEmpty.
  destruct (Z.eqb_spec (TBP.bitPos e) 0) as [Hp0|Hp0].
  - split; [exact Hbuf|]. split; [exact Hp0|]. split; [exact (Hc0 Hp0)|].
    exists tr. split; [exact Hs|]. rewrite <- Hline. unfold sent.
    rewrite Hp0. cbn [Z.to_nat firstn]. now rewrite app_nil_r.
  - cbn [TBP.buffer TBP.bitPos TBP.currByte].
    split. { apply Forall_app. split; [exact Hbuf|]. constructor; [exact Hc|constructor]. }
    split; [reflexivity|]. split; [reflexivity|].
    destruct (sends_pad syms tr (Z.to_nat (10 - TBP.bitPos e)) Hs)
      as (tr' & Hs' & Htr').
    { intros H. elim Hp0. exact (Hnil H). }
    exists tr'. split; [exact Hs'|].
    rewrite <- Htr', <- Hline, wire_app. unfold sent. rewrite <- app_assoc.
    f_equal. unfold wire at 1. cbn [flat_map]. rewrite app_nil_r.
    now apply openState_tail.
Qed.

(** X19. The contract of [encodeBit].  For every idle time from 1 to 8
    bit periods, on an encoder whose open byte is a byte with nothing but
    high level after the part settled so far, [encodeBit] extends the line
    by the pulse of the bit (one bit period low for a 1, two for a 0)
    followed by exactly the idle time asked for; before the pulse it leaves
    the line high for the rest of the frame when it had to push the open
    byte, and adds nothing when the open byte was empty.  The encoder is
    left in such a state again, with the pulse in its open byte, and the
    bytes pushed are values from 0 to 255. *)
Theorem encodeBit_contract (e : TBP.t) (bit idleBits : Z) :
  openState e -> bit = 0 \/ bit = 1 -> 1 <= idleBits <= 8 ->
  openState (TBP.encodeBit e bit idleBits) /\
  TBP.bitPos (TBP.encodeBit e bit idleBits) <> 0 /\
  (Forall isByte (TBP.buffer e) ->
   Forall isByte (TBP.buffer (TBP.encodeBit e bit idleBits))) /\
  exists pad,
    (TBP.bitPos e = 0 -> pad = O) /\
    sent (TBP.encodeBit e bit idleBits) =
    sent e ++ repeat true pad ++ pulse (bit, Z.to_nat idleBits).
Proof.
  intros Hopen Hbit Hidle.
  destruct (encodeBit_sent e bit idleBits Hopen Hbit Hidle)
    as (H1 & H2 & H3 & pad & H4 & H5).
  split; [exact H1|]. split; [exact H2|]. split; [exact H3|].
  exists pad. split; assumption.
Qed.

(** A 0 with eight bit periods of idle fills a frame: the byte 0xFE. *)
Lemma encodeBit_contract_witness :
  openState (TBP.encodeBit (TBP.new []) 0 8) /\
  TBP.bitPos (TBP.encodeBit (TBP.new []) 0 8) <> 0.
Proof.
  destruct (encodeBit_contract (TBP.new []) 0 8 eq_refl (or_introl eq_refl)
              ltac:(lia)) as (H1 & H2 & _).
  split; assumption.
Defined.

(** X1. What [encodeBytesAsLongs] puts on the serial line.  Sent as 8N1
    frames (a low start bit, the eight data bits from the least significant
    one, a high stop bit), the encoded buffer is a train of low pulses, one
    for each bit of each little-endian long of the padded input, the bits of a
    long from the least significant one: a low pulse of one bit period for a
    1 and of two bit periods for a 0, followed by at least one bit period of
    high idle inside a long and by at least two after the last bit of a long. *)
Theorem encodeBytesAsLongs_line (buf bytes : list Z) :
  Forall isByte bytes ->
  exists tr,
    sends (flat_map symbolsOfLong (fullLongs (padToLongs bytes))) tr /\
    wire (TBP.buffer (fst (TBP.encodeBytesAsLongs (TBP.new buf) bytes))) =
    train tr.
Proof.
  intros Hb. rewrite encodeBytesAsLongs_longs by assumption. cbn [fst].
  rewrite <- longsOfBytes_padded.
  pose proof (lineOf_fold (longsOfBytes bytes) (TBP.new buf) []
                (lineOf_new buf)) as H.
  cbn [app] in H. apply lineOf_push in H.
  destruct H as (_ & _ & _ & H). exact H.
Qed.

Lemma encodeBytesAsLongs_line_witness :
  exists tr,
    sends (flat_map symbolsOfLong (fullLongs (padToLongs [1; 2; 3; 4; 5]))) tr /\
    wire (TBP.buffer (fst (TBP.encodeBytesAsLongs (TBP.new []) [1; 2; 3; 4; 5]))) =
    train tr.
Proof.
  apply (encodeBytesAsLongs_line [] [1; 2; 3; 4; 5]).
  repeat constructor; unfold isByte; lia.
Defined.

(** X2. What [encodeLong] puts on the serial line: the thirty-two bits of the
    low 32 bits of the value, least significant first, as a train of low
    pulses with the widths and idle times of the protocol; the buffer holds
    whole, valid bytes only. *)
Theorem encodeLong_line (buf : list Z) (w : Z) :
  Forall isByte (TBP.buffer (TBP.encodeLong (TBP.new buf) w)) /\
  exists tr,
    sends (symbolsOfLong w) tr /\
    wire (TBP.buffer (TBP.encodeLong (TBP.new buf) w)) = train tr.
Proof.
  unfold TBP.encodeLong.
  pose proof (lineOf_encodeLongInternal (TBP.new buf) w [] (lineOf_new buf))
    as H.
  cbn [app] in H. apply lineOf_push in H.
  destruct H as (Hbytes & _ & _ & H). split; assumption.
Qed.

(** ** Reading the line back *)

Lemma readPulses_from_low (k : nat) :
  forall low line,
    readPulses_from low (repeat false k ++ line) =
    readPulses_from (low + k) line.
Proof.
  induction k as [|k IH]; intros low line.
  - now rewrite Nat.add_0_r.
  - cbn [repeat app readPulses_from]. rewrite IH. f_equal. lia.
Qed.

Lemma readPulses_from_high (k : nat) (line : list bool) :
  readPulses_from O (repeat true k ++ line) = readPulses_from O line.
Proof.
  induction k as [|k IH]; [reflexivity|].
  cbn [repeat app readPulses_from readPulse]. exact IH.
Qed.

Lemma readPulses_pulse (b : Z) (n : nat) (line : list bool) :
  b = 0 \/ b = 1 -> (1 <= n)%nat ->
  readPulses_from O (pulse (b, n) ++ line) = b :: readPulses_from O line.
Proof.
  intros Hb Hn. unfold pulse; cbn [fst snd]. rewrite <- app_assoc.
  rewrite readPulses_from_low. destruct n as [|n]; [lia|].
  cbn [repeat app readPulses_from]. rewrite readPulses_from_high.
  destruct Hb as [->| ->]; reflexivity.
Qed.

Lemma readPulses_train (tr : list (Z * nat)) :
  Forall (fun t => (fst t = 0 \/ fst t = 1) /\ (1 <= snd t)%nat) tr ->
  readPulses (train tr) = map fst tr.
Proof.
  unfold readPulses, train.
  induction 1 as [|[b n] tr [Hb Hn] _ IH]; [reflexivity|].
  cbn [flat_map map fst snd] in *. rewrite readPulses_pulse by assumption.
  now rewrite IH.
Qed.

Lemma sends_read (syms tr : list (Z * nat)) :
  sends syms tr ->
  Forall (fun s => (fst s = 0 \/ fst s = 1) /\ (1 <= snd s)%nat) syms ->
  readPulses (train tr) = map fst syms.
Proof.
  intros Hs Hsyms.
  assert (H : Forall (fun t => (fst t = 0 \/ fst t = 1) /\ (1 <= snd t)%nat) tr /\
              map fst tr = map fst syms).
  { induction Hs as [|s t syms tr [Hf Hg] _ IH]; [split; constructor|].
    inversion Hsyms as [|? ? [Hb Hn] Hrest]; subst.
    destruct (IH Hrest) as [IH1 IH2]. split.
    - constructor; [|exact IH1]. rewrite Hf. split; [exact Hb|lia].
    - cbn [map]. now rewrite Hf, IH2. }
  destruct H as [H1 H2]. now rewrite readPulses_train.
Qed.

Lemma bitOfLong_cases (w : Z) (i : nat) : bitOfLong w i = 0 \/ bitOfLong w i = 1.
Proof. apply land_1_cases. Qed.

Lemma symbolsOfLong_bits (w : Z) :
  map fst (symbolsOfLong w) = bitsOfLong w /\
  Forall (fun s => (fst s = 0 \/ fst s = 1) /\ (1 <= snd s)%nat) (symbolsOfLong w).
Proof.
  split.
  - unfold symbolsOfLong, bitsOfLong. rewrite map_app, map_map.
    change 32%nat with (31 + 1)%nat. rewrite seq_app, map_app. reflexivity.
  - unfold symbolsOfLong. apply Forall_app. split.
    + apply Forall_map, Forall_forall. intros i _. cbn [fst snd].
      split; [apply bitOfLong_cases|lia].
    + constructor; [|constructor]. cbn [fst snd].
      split; [apply bitOfLong_cases|lia].
Qed.

Lemma symbols_bits (ws : list Z) :
  map fst (flat_map symbolsOfLong ws) = flat_map bitsOfLong ws /\
  Forall (fun s => (fst s = 0 \/ fst s = 1) /\ (1 <= snd s)%nat)
         (flat_map symbolsOfLong ws).
Proof.
  induction ws as [|w ws [IH1 IH2]]; [split; constructor|].
  destruct (symbolsOfLong_bits w) as [H1 H2].
  cbn [flat_map]. split.
  - now rewrite map_app, H1, IH1.
  - apply Forall_app. split; assumption.
Qed.

Lemma bitOfLong_testbit (w : Z) (i : nat) :
  bitOfLong w i = Z.b2z (Z.testbit w (Z.of_nat i)).
Proof.
  unfold bitOfLong.
  pose proof (Z.land_ones (Z.shiftr w (Z.of_nat i)) 1 ltac:(lia)) as H.
  change (Z.ones 1) with 1 in H. change (2 ^ 1) with 2 in H. rewrite H.
  rewrite <- Z.bit0_mod, Z.shiftr_spec by lia. reflexivity.
Qed.

Lemma map_seq_shift {A : Type} (f : nat -> A) (n k : nat) :
  forall m, map f (List.seq (n + m) k) = map (fun i => f (n + i)%nat) (List.seq m k).
Proof.
  induction k as [|k IH]; intros m; [reflexivity|].
  cbn [List.seq map]. f_equal.
  rewrite <- Nat.add_succ_r. apply IH.
Qed.

Lemma bits_low_byte (b r : Z) (k : nat) :
  isByte b ->
  map (bitOfLong (b + 256 * r)) (List.seq 0 (8 + k)) =
  bitsOfByte b ++ map (bitOfLong r) (List.seq 0 k).
Proof.
  intros Hb. rewrite seq_app, map_app. f_equal.
  - unfold bitsOfByte. apply map_ext_in. intros i Hi. apply in_seq in Hi.
    rewrite bitOfLong_testbit. f_equal.
    rewrite <- (Z.mod_pow2_bits_low (b + 256 * r) 8) by lia. f_equal.
    change (2 ^ 8) with 256. rewrite Z.mul_comm, Z_mod_plus_full.
    apply Z.mod_small. exact Hb.
  - change (0 + 8)%nat with (8 + 0)%nat. rewrite map_seq_shift.
    apply map_ext. intros i. rewrite !bitOfLong_testbit. f_equal.
    replace (Z.of_nat (8 + i)) with (Z.of_nat i + 8) by lia.
    rewrite <- Z.div_pow2_bits by lia. f_equal.
    change (2 ^ 8) with 256. rewrite Z.mul_comm, Z_div_plus_full by lia.
    rewrite Z.div_small by exact Hb. reflexivity.
Qed.

Lemma bitsOfLong_bytes (b0 b1 b2 b3 : Z) :
  isByte b0 -> isByte b1 -> isByte b2 -> isByte b3 ->
  bitsOfLong (longOfBytes b0 b1 b2 b3) =
  bitsOfByte b0 ++ bitsOfByte b1 ++ bitsOfByte b2 ++ bitsOfByte b3.
Proof.
  intros H0 H1 H2 H3. unfold bitsOfLong, longOfBytes.
  replace (b0 + 256 * b1 + 65536 * b2 + 16777216 * b3)
    with (b0 + 256 * (b1 + 256 * (b2 + 256 * (b3 + 256 * 0)))) by ring.
  change 32%nat with (8 + (8 + (8 + (8 + 0))))%nat.
  rewrite !bits_low_byte by assumption.
  cbn [List.seq map]. now rewrite app_nil_r.
Qed.

Lemma fullLongs_bits (n : nat) :
  forall l, length l = (4 * n)%nat -> Forall isByte l ->
            flat_map bitsOfLong (fullLongs l) = flat_map bitsOfByte l.
Proof.
  induction n as [|n IH]; intros l Hlen Hb.
  - destruct l; [reflexivity|discriminate Hlen].
  - destruct l as [|b0 [|b1 [|b2 [|b3 l]]]]; cbn [length] in Hlen; try lia.
    inversion Hb as [|? ? H0 Hb0]; subst.
    inversion Hb0 as [|? ? H1 Hb1]; subst.
    inversion Hb1 as [|? ? H2 Hb2]; subst.
    inversion Hb2 as [|? ? H3 Hb3]; subst.
    change (fullLongs (b0 :: b1 :: b2 :: b3 :: l))
      with (longOfBytes b0 b1 b2 b3 :: fullLongs l).
    cbn [flat_map]. rewrite bitsOfLong_bytes by assumption.
    rewrite IH by (assumption || lia). now rewrite <- !app_assoc.
Qed.

Lemma padToLongs_isByte (bytes : list Z) :
  Forall isByte bytes -> Forall isByte (padToLongs bytes).
Proof.
  intros H. unfold padToLongs. apply Forall_app. split; [exact H|].
  apply Forall_forall. intros x Hx. apply repeat_spec in Hx. subst x.
  unfold isByte. lia.
Qed.

Lemma bitsOfByte_inj (a b : Z) :
  isByte a -> isByte b -> bitsOfByte a = bitsOfByte b -> a = b.
Proof.
  intros Ha Hb H. unfold bitsOfByte in H. cbn [List.seq map] in H.
  injection H as H0 H1 H2 H3 H4 H5 H6 H7.
  apply Z.b2z_inj in H0, H1, H2, H3, H4, H5, H6, H7.
  apply Z.bits_inj'. intros n Hn.
  destruct (Z.lt_ge_cases n 8) as [Hlt|Hge].
  - assert (Hc : n = 0 \/ n = 1 \/ n = 2 \/ n = 3 \/ n = 4 \/ n = 5 \/ n = 6 \/
                 n = 7) by lia.
    destruct Hc as [->|[->|[->|[->|[->|[->|[->| ->]]]]]]]; assumption.
  - rewrite <- (Z.mod_small a (2 ^ 8)), <- (Z.mod_small b (2 ^ 8))
      by assumption.
    now rewrite !Z.mod_pow2_bits_high by lia.
Qed.

Lemma bitsOfBytes_inj (l1 : list Z) :
  forall l2, Forall isByte l1 -> Forall isByte l2 ->
             flat_map bitsOfByte l1 = flat_map bitsOfByte l2 -> l1 = l2.
Proof.
  induction l1 as [|a l1 IH]; intros [|b l2] H1 H2 H.
  - reflexivity.
  - discriminate H.
  - discriminate H.
  - inversion H1 as [|? ? Ha H1']; subst. inversion H2 as [|? ? Hb H2']; subst.
    cbn [flat_map] in H.
    assert (Hhead : bitsOfByte a = bitsOfByte b).
    { apply (f_equal (firstn 8)) in H.
      rewrite !firstn_app in H.
      unfold bitsOfByte in H at 1 2 3 4. cbn [List.seq map length Nat.sub firstn] in H.
      rewrite !app_nil_r in H. exact H. }
    rewrite Hhead in H. apply app_inv_head in H.
    f_equal; [now apply bitsOfByte_inj|now apply IH].
Qed.

(** The receiver reads the bits of the padded bytes off the encoded buffer. *)
Lemma readPulses_encoded (buf bytes : list Z) :
  Forall isByte bytes ->
  readPulses (wire (TBP.buffer (fst (TBP.encodeBytesAsLongs (TBP.new buf) bytes)))) =
  flat_map bitsOfByte (padToLongs bytes).
Proof.
  intros Hb. rewrite encodeBytesAsLongs_longs by assumption. cbn [fst].
  rewrite longsOfBytes_padded.
  pose proof (lineOf_fold (fullLongs (padToLongs bytes)) (TBP.new buf) []
                (lineOf_new buf)) as H.
  cbn [app] in H. apply lineOf_push in H.
  destruct H as (_ & _ & _ & tr & Hs & Hw). rewrite Hw.
  destruct (symbols_bits (fullLongs (padToLongs bytes))) as [Hbits Hsyms].
  rewrite (sends_read _ _ Hs Hsyms), Hbits.
  pose proof (padToLongs_length bytes) as Hlen.
  apply (fullLongs_bits (Z.to_nat (Z.of_nat (length (padToLongs bytes)) / 4))).
  - pose proof (Z.div_mod (Z.of_nat (length (padToLongs bytes))) 4 ltac:(lia)).
    pose proof (Z.div_pos (Z.of_nat (length (padToLongs bytes))) 4
                  ltac:(lia) ltac:(lia)).
    lia.
  - now apply padToLongs_isByte.
Qed.

(** X3. The encoding can be read back.  A receiver that measures the low
    pulses of the line, as the Propeller does, and takes a pulse of one bit
    period for a 1 and a longer one for a 0 reads off the buffer written by
    [encodeBytesAsLongs] exactly the bits of the input padded with NUL bytes
    to a multiple of four, least significant bit of the first byte first.
    So two inputs with the same encoding are equal after padding. *)
Theorem encodeBytesAsLongs_decodable (buf bytes : list Z) :
  Forall isByte bytes ->
  readPulses (wire (TBP.buffer (fst (TBP.encodeBytesAsLongs (TBP.new buf) bytes)))) =
  flat_map bitsOfByte (padToLongs bytes) /\
  forall buf' bytes',
    Forall isByte bytes' ->
    TBP.buffer (fst (TBP.encodeBytesAsLongs (TBP.new buf') bytes')) =
    TBP.buffer (fst (TBP.encodeBytesAsLongs (TBP.new buf) bytes)) ->
    padToLongs bytes' = padToLongs bytes.
Proof.
  intros Hb. split; [now apply readPulses_encoded|].
  intros buf' bytes' Hb' Heq.
  apply bitsOfBytes_inj; try now apply padToLongs_isByte.
  rewrite <- (readPulses_encoded buf' bytes' Hb').
  rewrite <- (readPulses_encoded buf bytes Hb). now rewrite Heq.
Qed.

Lemma encodeBytesAsLongs_decodable_witness :
  readPulses (wire (TBP.buffer (fst (TBP.encodeBytesAsLongs (TBP.new []) [5; 255])))) =
  flat_map bitsOfByte (padToLongs [5; 255]).
Proof.
  refine (proj1 (encodeBytesAsLongs_decodable [] [5; 255] _)).
  repeat constructor; unfold isByte; lia.
Defined.

(** ** Appending to a buffer in use *)

Lemma closed_prepend (e : TBP.t) :
  closed e -> e = prepend (TBP.buffer e) (TBP.new []).
Proof.
  destruct e as [b p c]. intros [Hp Hc]. cbn [TBP.bitPos TBP.currByte] in Hp, Hc.
  subst p c. unfold prepend, TBP.new; cbn [TBP.buffer TBP.bitPos TBP.currByte].
  now rewrite app_nil_r.
Qed.

Lemma closed_frame (pre : list Z) (e : TBP.t) :
  closed e -> closed (prepend pre e).
Proof. intros H. exact H. Qed.

Lemma encodeLong_frame (pre : list Z) (e : TBP.t) (w : Z) :
  TBP.encodeLong (prepend pre e) w = prepend pre (TBP.encodeLong e w).
Proof.
  unfold TBP.encodeLong. now rewrite prepend_encodeLongInternal, prepend_push.
Qed.

Lemma encodeBytesAsLongs_frame (pre : list Z) (e : TBP.t) (bytes : list Z) :
  Forall isByte bytes ->
  fst (TBP.encodeBytesAsLongs (prepend pre e) bytes) =
  prepend pre (fst (TBP.encodeBytesAsLongs e bytes)).
Proof.
  intros Hb. rewrite !encodeBytesAsLongs_longs by assumption. cbn [fst].
  now rewrite prepend_fold, prepend_push.
Qed.

Lemma encodeLong_closed (buf : list Z) (w : Z) :
  closed (TBP.encodeLong (TBP.new buf) w).
Proof.
  unfold TBP.encodeLong.
  pose proof (lineOf_encodeLongInternal (TBP.new buf) w [] (lineOf_new buf)) as H.
  apply lineOf_push in H. destruct H as (_ & Hp & Hc & _). split; assumption.
Qed.

Lemma encodeBytesAsLongs_closed (buf bytes : list Z) :
  Forall isByte bytes ->
  closed (fst (TBP.encodeBytesAsLongs (TBP.new buf) bytes)) /\
  Forall isByte (TBP.buffer (fst (TBP.encodeBytesAsLongs (TBP.new buf) bytes))).
Proof.
  intros Hb. rewrite encodeBytesAsLongs_longs by assumption. cbn [fst].
  pose proof (lineOf_fold (longsOfBytes bytes) (TBP.new buf) []
                (lineOf_new buf)) as H.
  apply lineOf_push in H. destruct H as (Hbuf & Hp & Hc & _).
  split; [split|]; assumption.
Qed.

(** X4. The public functions of the encoder append.  On an encoder whose
    open byte is empty (as the constructor and every public function leave
    it), [encodeLong] and [encodeBytesAsLongs] keep what the buffer holds and
    add to it exactly the bytes they write into an empty buffer; these are
    values from 0 to 255, and the open byte is empty again afterwards, so
    the calls can be chained. *)
Theorem encoder_appends (e : TBP.t) (w : Z) (bytes : list Z) :
  closed e -> Forall isByte bytes ->
  (TBP.buffer (TBP.encodeLong e w) =
     TBP.buffer e ++ TBP.buffer (TBP.encodeLong (TBP.new []) w) /\
   closed (TBP.encodeLong e w)) /\
  (TBP.buffer (fst (TBP.encodeBytesAsLongs e bytes)) =
     TBP.buffer e ++
     TBP.buffer (fst (TBP.encodeBytesAsLongs (TBP.new []) bytes)) /\
   closed (fst (TBP.encodeBytesAsLongs e bytes)) /\
   Forall isByte (TBP.buffer (fst (TBP.encodeBytesAsLongs (TBP.new []) bytes)))).
Proof.
  intros He Hb. pose proof (closed_prepend e He) as Hpre.
  destruct (encodeBytesAsLongs_closed [] bytes Hb) as [Hc Hbuf].
  split.
  - rewrite Hpre at 1 3. rewrite encodeLong_frame. split; [reflexivity|].
    apply closed_frame. exact (encodeLong_closed [] w).
  - rewrite Hpre at 1 3. rewrite encodeBytesAsLongs_frame by assumption.
    split; [reflexivity|]. split; [apply closed_frame; exact Hc|exact Hbuf].
Qed.

Lemma encoder_appends_witness :
  TBP.buffer (TBP.encodeLong (TBP.encodeLong (TBP.new []) 1) 2) =
  TBP.buffer (TBP.encodeLong (TBP.new []) 1) ++
  TBP.buffer (TBP.encodeLong (TBP.new []) 2).
Proof.
  refine (proj1 (proj1 (encoder_appends (TBP.encodeLong (TBP.new []) 1) 2 [7]
                          _ _))).
  - split; reflexivity.
  - repeat constructor; unfold isByte; lia.
Defined.

(** ** How many bytes *)

Lemma spread_encodeBit (e : TBP.t) (bit idleBits k : Z) :
  1 <= idleBits <= 2 -> spread e k ->
  spread (TBP.encodeBit e bit idleBits) (k + 1).
Proof.
  intros Hidle [Hk Hp]. pose proof (pulseWidth_range bit) as Hw.
  unfold spread. rewrite encodeBit_cases.
  destruct (Z.eqb_spec (TBP.bitPos e) 0) as [Hp0|Hp0].
  - unfold startByte; cbn [TBP.buffer TBP.bitPos]. lia.
  - destruct ((10 <=? TBP.bitPos e) ||
              (10 <? TBP.bitPos e + pulseWidth bit + idleBits)) eqn:Hfull.
    + unfold startByte, TBP.pushCurrByteIfNotEmpty.
      rewrite (proj2 (Z.eqb_neq _ _) Hp0). cbn [TBP.buffer TBP.bitPos].
      rewrite length_app. cbn [length]. lia.
    + apply orb_false_iff in Hfull. destruct Hfull as [H10 Hfit].
      apply Z.leb_gt in H10. apply Z.ltb_ge in Hfit.
      unfold placeBit; cbn [TBP.buffer TBP.bitPos]. lia.
Qed.

Lemma spread_encodeLongInternal_loop (n : nat) :
  forall (e : TBP.t) (longValue k : Z),
    spread e k ->
    spread (fst (TBP.encodeLongInternal_loop n e longValue)) (k + Z.of_nat n).
Proof.
  induction n as [|n IH]; intros e longValue k H.
  - cbn [TBP.encodeLongInternal_loop fst]. now rewrite Z.add_0_r.
  - rewrite encodeLongInternal_loop_S.
    replace (k + Z.of_nat (S n)) with (k + 1 + Z.of_nat n) by lia.
    apply IH. apply spread_encodeBit; [lia|assumption].
Qed.

Lemma spread_encodeLongInternal (e : TBP.t) (longValue k : Z) :
  spread e k -> spread (TBP.encodeLongInternal e longValue) (k + 32).
Proof.
  intros H. unfold TBP.encodeLongInternal.
  pose proof (spread_encodeLongInternal_loop 31 e longValue k H) as Hloop.
  destruct (TBP.encodeLongInternal_loop 31 e longValue) as [e' v'].
  cbn [fst] in Hloop.
  replace (k + 32) with (k + Z.of_nat 31 + 1) by lia.
  apply spread_encodeBit; [unfold TBP.InterLongIdleTime; lia|assumption].
Qed.

Lemma spread_fold (longs : list Z) :
  forall (e : TBP.t) (k : Z),
    spread e k ->
    spread (fold_left TBP.encodeLongInternal longs e)
           (k + 32 * Z.of_nat (length longs)).
Proof.
  induction longs as [|w ws IH]; intros e k H.
  - cbn [length]. change (fold_left TBP.encodeLongInternal [] e) with e.
    now rewrite Z.mul_0_r, Z.add_0_r.
  - rewrite fold_left_cons. cbn [length].
    replace (k + 32 * Z.of_nat (S (length ws)))
      with (k + 32 + 32 * Z.of_nat (length ws)) by lia.
    apply IH, spread_encodeLongInternal, H.
Qed.

Lemma spread_new (buf : list Z) : spread (TBP.new buf) 0.
Proof. unfold spread. cbn. lia. Qed.

Lemma spread_push (e : TBP.t) (k : Z) :
  spread e k ->
  2 * k <= 10 * Z.of_nat (length (TBP.buffer (TBP.pushCurrByteIfNotEmpty e))).
Proof.
  intros [Hk Hp]. unfold TBP.pushCurrByteIfNotEmpty.
  destruct (Z.eqb_spec (TBP.bitPos e) 0) as [Hp0|Hp0].
  - lia.
  - cbn [TBP.buffer]. rewrite length_app. cbn [length]. lia.
Qed.

(** X5. The size of the encoding.  The buffer written by
    [encodeBytesAsLongs] for [n] longs holds at least [32 n / 5] bytes (a
    frame of ten bit periods has room for five pulses at most) and at most
    [(32 n + 2) / 3] bytes (every byte but the last carries three pulses at
    least). *)
Theorem encodedSize_bounds (buf bytes : list Z) :
  Forall isByte bytes ->
  let size :=
    Z.of_nat (length (TBP.buffer (fst (TBP.encodeBytesAsLongs (TBP.new buf) bytes)))) in
  let numLongs := (Z.of_nat (length bytes) + 3) / 4 in
  snd (TBP.encodeBytesAsLongs (TBP.new buf) bytes) = numLongs /\
  32 * numLongs <= 5 * size /\ 3 * size <= 32 * numLongs + 2.
Proof.
  intros Hb size numLongs.
  split; [now apply encodeBytesAsLongs_count|].
  split; [|now apply encodedSize_bound].
  subst size numLongs. rewrite encodeBytesAsLongs_longs by assumption. cbn [fst].
  rewrite <- longsOfBytes_length.
  pose proof (spread_push _ _ (spread_fold (longsOfBytes bytes) (TBP.new buf) 0
                                 (spread_new buf))) as H.
  lia.
Qed.

Lemma encodedSize_bounds_witness :
  32 * 2 <=
  5 * Z.of_nat (length (TBP.buffer
        (fst (TBP.encodeBytesAsLongs (TBP.new []) [1; 2; 3; 4; 5])))).
Proof.
  refine (proj1 (proj2 (encodedSize_bounds [] [1; 2; 3; 4; 5] _))).
  repeat constructor; unfold isByte; lia.
Defined.

(** ** The decoder and the response of the Propeller *)

Lemma bitPair_pairByte (p : Z) : 0 <= p <= 3 -> bitPair (pairByte p) = Some p.
Proof.
  intros Hp.
  assert (Hc : p = 0 \/ p = 1 \/ p = 2 \/ p = 3) by lia.
  destruct Hc as [->|[->|[->| ->]]]; reflexivity.
Qed.

Lemma pairByte_bitPair (b p : Z) : bitPair b = Some p -> pairByte p = b.
Proof.
  intros H.
  destruct (bitPair_cases b)
    as [[-> E]|[[-> E]|[[-> E]|[[-> E]|(_ & _ & _ & _ & E)]]]];
    rewrite E in H; inversion H; reflexivity.
Qed.

Lemma decode3BPByte_returns (iter : list Z) (v : Z) (rest : list Z) :
  decode3BPByte iter = Returns (v, rest) ->
  0 <= v < 256 /\ iter = responseBytes v ++ rest.
Proof.
  intros H. apply decodeCase_iff in H.
  remember (Returns (v, rest)) as r eqn:Hr.
  destruct H as [b0 b1 b2 b3 p0 p1 p2 p3 rest' Hiter H0 H1 H2 H3| |];
    try discriminate Hr.
  assert (Hv : p0 + 4 * p1 + 16 * p2 + 64 * p3 = v) by congruence.
  assert (Hrest : rest' = rest) by congruence.
  clear Hr. subst v rest'.
  pose proof (bitPair_range _ _ H0). pose proof (bitPair_range _ _ H1).
  pose proof (bitPair_range _ _ H2). pose proof (bitPair_range _ _ H3).
  split; [lia|]. subst iter. unfold responseBytes. cbn [app].
  replace ((p0 + 4 * p1 + 16 * p2 + 64 * p3) mod 4) with p0
    by (Z.div_mod_to_equations; lia).
  replace ((p0 + 4 * p1 + 16 * p2 + 64 * p3) / 4 mod 4) with p1
    by (Z.div_mod_to_equations; lia).
  replace ((p0 + 4 * p1 + 16 * p2 + 64 * p3) / 16 mod 4) with p2
    by (Z.div_mod_to_equations; lia).
  replace ((p0 + 4 * p1 + 16 * p2 + 64 * p3) / 64 mod 4) with p3
    by (Z.div_mod_to_equations; lia).
  now rewrite (pairByte_bitPair _ _ H0), (pairByte_bitPair _ _ H1),
    (pairByte_bitPair _ _ H2), (pairByte_bitPair _ _ H3).
Qed.

Lemma decode3BPByte_responseBytes (v : Z) (rest : list Z) :
  0 <= v < 256 -> decode3BPByte (responseBytes v ++ rest) = Returns (v, rest).
Proof.
  intros Hv. unfold responseBytes. cbn [app].
  rewrite (decode3BPByte_four _ _ _ _ (v mod 4) (v / 4 mod 4) (v / 16 mod 4)
             (v / 64 mod 4))
    by (apply bitPair_pairByte; Z.div_mod_to_equations; lia).
  do 2 f_equal. Z.div_mod_to_equations; lia.
Qed.

(** X6. [decode3BPByte] is the inverse of the Propeller's encoding of a
    response byte.  Whatever it returns is a value from 0 to 255, and the
    four bytes it has consumed are the bytes that stand for the four bit
    pairs of that value, lowest pair first; conversely the four bytes of any
    value from 0 to 255 are decoded to that value, and what follows them in
    the input is left. *)
Theorem decode3BPByte_inverse (iter : list Z) (v : Z) (rest : list Z) :
  (decode3BPByte iter = Returns (v, rest) ->
   0 <= v < 256 /\ iter = responseBytes v ++ rest) /\
  (0 <= v < 256 -> decode3BPByte (responseBytes v ++ rest) = Returns (v, rest)).
Proof.
  split; [apply decode3BPByte_returns|apply decode3BPByte_responseBytes].
Qed.

Lemma decode3BPByte_inverse_witness :
  decode3BPByte (responseBytes 1 ++ [7]) = Returns (1, [7]).
Proof.
  refine (proj2 (decode3BPByte_inverse [] 1 [7]) _). lia.
Defined.

(** ** The bookkeeping of an action *)

Lemma actionWillFinish_error (mon : bool) (code : ErrorCode) (w : WorkerState) :
  code <> ErrNone ->
  actionWillFinish mon code w =
  (mkWorker (Profiler.endWithError code (profiler w))
            (if mon then calls w ++ [LoaderHasFinished code] else calls w),
   Returns tt).
Proof.
  intros Hne. destruct code; try (elim Hne; reflexivity); destruct mon;
    reflexivity.
Qed.

Ltac unfold_worker_in H :=
  cbv [actionThread a_performAction a_stage1_preparation a_stage2a_reset
       a_stage2b_waitAfterReset a_stage3_establishComms a_stage4a_sendCommand
       a_stage4b_sendImage a_stage5_waitForChecksumStatus
       a_stage6_waitForEEPROMProgrammingStatus
       a_stage7_waitForEEPROMVerificationStatus a_stage seq
       a_callStatusMonitorLoaderUpdate Action_eqb called profile raise ret
       freshWorker] in H.

Ltac stage_step stageWork Hthrow Hrun s :=
  match type of Hrun with
  | context [stageWork s] =>
      let E := fresh "E" in
      let x := fresh "x" in
      destruct (stageWork s) as [[]|x] eqn:E;
      [|let code := fresh "code" in
        let Hne := fresh "Hne" in
        destruct (Hthrow s x E) as (code & -> & Hne)];
      cbn -[actionWillFinish] in Hrun
  | _ => idtac
  end.

Ltac solve_in :=
  let s := fresh "s" in
  let H := fresh "H" in
  intros s H; cbn in H; repeat (destruct H as [<-|H]; [assumption|]);
  contradiction.

Ltac finished_leaf run stages p :=
  subst run; subst stages p; cbn;
  split; [reflexivity|]; split; [reflexivity|]; split; [reflexivity|];
  split; [solve_in|];
  split;
  [let Hok := fresh "Hok" in
   intros Hok;
   first [contradiction
         |split; [reflexivity|split; [reflexivity|solve_in]]]|];
  split;
  [let Hbad := fresh "Hbad" in
   intros Hbad;
   first [elim Hbad; reflexivity
         |split; [reflexivity|split; [reflexivity|assumption]]]|];
  let Hmon := fresh "Hmon" in
  intros Hmon; first [discriminate Hmon|split; reflexivity].

(** X7. The bookkeeping of an action.  Whatever the stages do, as long as
    they throw nothing but an [ActionError] with an error code (which is all
    they throw), [actionThread] leaves the profiler finished, with no failed
    assertion and with one time entered for every stage function called, the
    failing one included; every stage called before the last one has
    returned.  The action is reported successful exactly when all the stages
    of its list were called and returned; otherwise the error code reported
    and stored in the summary is the one thrown by the last stage called.
    With a status monitor, [loaderHasFinished] is its last call, with that
    code, and is called once. *)
Theorem actionThread_bookkeeping (stageWork : Profiler.Stage -> outcome unit)
      (mon : bool) (action : Action) :
  actionIsValid action = true ->
  (forall s x, stageWork s = Throws x ->
               exists code, x = ActionError code /\ code <> ErrNone) ->
  let run := actionThread stageWork mon action freshWorker in
  let stages := stagesCalled (calls (fst run)) in
  let p := profiler (fst run) in
  Profiler.currStage p = Profiler.Finished /\
  Profiler.assertionFailed p = false /\
  Profiler.timed p = stages /\
  (forall s, In s (removelast stages) -> stageWork s = Returns tt) /\
  (snd run = ErrNone ->
   Profiler.wasSuccessful p = true /\ stages = stagesOfAction action /\
   forall s, In s stages -> stageWork s = Returns tt) /\
  (snd run <> ErrNone ->
   Profiler.wasSuccessful p = false /\ Profiler.errorCode p = snd run /\
   stageWork (last stages Profiler.Finished) = Throws (ActionError (snd run))) /\
  (mon = true ->
   last (calls (fst run)) (StageCalled Profiler.Finished) =
     LoaderHasFinished (snd run) /\
   existsb isFinishEvent (removelast (calls (fst run))) = false).
Proof.
  intros Hvalid Hthrow run stages p.
  assert (Hrun : actionThread stageWork mon action freshWorker = run)
    by reflexivity.
  clearbody run.
  destruct action; try discriminate Hvalid; destruct mon;
    unfold_worker_in Hrun; cbn -[actionWillFinish] in Hrun;
    stage_step stageWork Hthrow Hrun Profiler.Stage1;
    stage_step stageWork Hthrow Hrun Profiler.Stage2a;
    stage_step stageWork Hthrow Hrun Profiler.Stage2b;
    stage_step stageWork Hthrow Hrun Profiler.Stage3;
    stage_step stageWork Hthrow Hrun Profiler.Stage4a;
    stage_step stageWork Hthrow Hrun Profiler.Stage4b;
    stage_step stageWork Hthrow Hrun Profiler.Stage5;
    stage_step stageWork Hthrow Hrun Profiler.Stage6;
    stage_step stageWork Hthrow Hrun Profiler.Stage7;
    try (rewrite actionWillFinish_error in Hrun by assumption);
    cbn in Hrun; finished_leaf run stages p.
Qed.

(** A LoadRAM whose checksum the Propeller rejects. *)
Lemma actionThread_bookkeeping_witness :
  Profiler.wasSuccessful
    (profiler (fst (actionThread checksumFails true LoadRAM freshWorker))) = false /\
  Profiler.errorCode
    (profiler (fst (actionThread checksumFails true LoadRAM freshWorker))) =
  snd (actionThread checksumFails true LoadRAM freshWorker) /\
  checksumFails
    (last (stagesCalled
             (calls (fst (actionThread checksumFails true LoadRAM freshWorker))))
          Profiler.Finished) =
  Throws (ActionError (snd (actionThread checksumFails true LoadRAM freshWorker))).
Proof.
  refine (proj1 (proj2 (proj2 (proj2 (proj2 (proj2
    (actionThread_bookkeeping checksumFails true LoadRAM eq_refl _)))))) _).
  - intros s x H. destruct s; try discriminate H.
    exists PropReportsChecksumError. split; [|discriminate].
    unfold checksumFails in H. congruence.
  - discriminate.
Defined.

(** ** What the status poll can end with *)

Lemma a_receiveStatus_loop_inv (timeoutTime : Z) (err : ErrorCode)
      (rounds : list Round) :
  forall res,
    a_receiveStatus_loop timeoutTime err rounds = Some res ->
    match res with
    | Returns false => exists r, In r rounds /\ readByte r = Returns (1, 0xFE)
    | Returns true => exists r, In r rounds /\ readByte r = Returns (1, 0xFF)
    | Throws x => x = ActionError Cancelled \/ x = ActionError err
    end.
Proof.
  induction rounds as [|r rounds IH]; intros res H; [discriminate H|].
  cbn [a_receiveStatus_loop] in H.
  destruct (isCancelled r).
  { cbn in H. inversion H. now left. }
  cbn [a_throwIfCancelled] in H.
  destruct (writePrompt r) as [k|x]; [|inversion H; now right].
  destruct (available r) as [numAvailable|x]; [|inversion H; now right].
  destruct (0 <? numAvailable).
  - destruct (readByte r) as [[numReceived buffer]|x] eqn:Hread;
      [|inversion H; now right].
    destruct (Z.eqb_spec numReceived 1) as [->|_]; [|inversion H; now right].
    destruct (Z.eqb_spec buffer 0xff) as [->|_].
    { inversion H. exists r. split; [now left|assumption]. }
    destruct (Z.eqb_spec buffer 0xfe) as [->|_].
    { inversion H. exists r. split; [now left|assumption]. }
    inversion H. now right.
  - destruct (timeoutTime <? clock r); [inversion H; now right|].
    specialize (IH res H).
    destruct res as [[|]|x]; try exact IH;
      destruct IH as (r' & Hin & Hr'); exists r'; (split; [now right|assumption]).
Qed.

(** X8. What the stages 5, 6 and 7 can end with.  Each of them returns
    normally only when the poll has read the status byte 0xFE from the
    Propeller; it throws its own "Propeller reports ..." error only when the
    poll has read 0xFF; and all it ever throws is [Cancelled], the receive
    error of the stage, or that report. *)
Theorem status_stages_outcomes (env : StatusEnv) :
  let success := exists r, In r (rounds env) /\ readByte r = Returns (1, 0xFE) in
  let failure := exists r, In r (rounds env) /\ readByte r = Returns (1, 0xFF) in
  let ends (work : option (outcome unit)) (receive report : ErrorCode) :=
    (work = Some (Returns tt) -> success) /\
    (work = Some (Throws (ActionError report)) -> failure) /\
    (forall x, work = Some (Throws x) ->
               x = ActionError Cancelled \/ x = ActionError receive \/
               x = ActionError report) in
  ends (stage5Work env) FailedToReceiveChecksumStatus PropReportsChecksumError /\
  ends (stage6Work env) FailedToReceiveEEPROMProgrammingStatus
       PropReportsEEPROMProgrammingError /\
  ends (stage7Work env) FailedToReceiveEEPROMVerificationStatus
       PropReportsEEPROMVerificationError.
Proof.
  intros success failure ends. subst ends success failure. cbv beta.
  unfold stage5Work, stage6Work, stage7Work, a_checkPoint, a_receiveStatus.
  destruct (cancelledAtWaiting env); cbn [a_throwIfCancelled].
  { repeat split; intros; try discriminate; try (inversion H; auto). }
  repeat split.
  all: match goal with
       | |- context [a_receiveStatus_loop ?T ?err ?rs] =>
           pose proof (a_receiveStatus_loop_inv T err rs) as Hinv;
           destruct (a_receiveStatus_loop T err rs) as [[[|]|y]|];
           [specialize (Hinv _ eq_refl)..|clear Hinv]
       end.
  all: cbn [liftO bind]; destruct (cancelledAtChecking env);
    cbn [a_throwIfCancelled bind]; try destruct (cancelledAtFinishing env);
    cbn [a_throwIfCancelled bind].
  all: intros; try discriminate; try assumption.
  all: try match goal with
           | H : Some _ = Some _ |- _ => inversion H; subst; clear H
           end.
  all: try (destruct Hinv as [Hc|Hc]; discriminate Hc).
  all: try (destruct Hinv as [->| ->]); auto; try discriminate.
Qed.

(** ** How long the status poll goes on *)

Lemma a_receiveStatus_loop_ends (timeoutTime : Z) (err : ErrorCode)
      (rounds : list Round) :
  forall first,
    (forall i r, nth_error rounds i = Some r ->
                 first + StatusPromptInterval * Z.of_nat i <= clock r) ->
    rounds <> [] ->
    timeoutTime <
      first + StatusPromptInterval * (Z.of_nat (length rounds) - 1) ->
    exists res, a_receiveStatus_loop timeoutTime err rounds = Some res.
Proof.
  unfold StatusPromptInterval.
  induction rounds as [|r rounds IH]; intros first Hpace Hne Hlen;
    [now elim Hne|].
  cbn [a_receiveStatus_loop].
  destruct (a_throwIfCancelled (isCancelled r)); [|eauto].
  destruct (writePrompt r); [|eauto].
  destruct (available r) as [numAvailable|]; [|eauto].
  destruct (0 <? numAvailable).
  { destruct (readByte r) as [[numReceived buffer]|]; [|eauto].
    destruct (numReceived =? 1); [|eauto].
    destruct (buffer =? 255); [eauto|]. destruct (buffer =? 254); eauto. }
  destruct (Z.ltb_spec timeoutTime (clock r)) as [Hlate|Hearly]; [eauto|].
  pose proof (Hpace O r eq_refl) as H0. cbn [Z.of_nat] in H0.
  cbn [length] in Hlen.
  apply (IH (first + 10)).
  - intros i r' Hr'. specialize (Hpace (S i) r' Hr'). lia.
  - intros ->. cbn [length] in Hlen. lia.
  - lia.
Qed.

(** X9. The status poll is bounded.  As every round of [a_receiveStatus]
    takes [StatusPromptInterval] (10 ms) at least, the poll ends, with a
    status or an error, within [timeout / 10 + 1] rounds: it sends at most
    that many prompts (151 for the checksum status, 601 and 251 for the
    EEPROM stages). *)
Theorem a_receiveStatus_bounded (timeout : Z) (err : ErrorCode) (start : Z)
        (rounds : list Round) :
  0 <= timeout -> paced start rounds ->
  timeout / StatusPromptInterval < Z.of_nat (length rounds) ->
  exists res, a_receiveStatus timeout err start rounds = Some res.
Proof.
  intros Htimeout Hpace Hlen. unfold a_receiveStatus.
  unfold paced, StatusPromptInterval in *.
  apply (a_receiveStatus_loop_ends _ _ _ (start + 10)).
  - intros i r Hr. specialize (Hpace i r Hr). unfold StatusPromptInterval. lia.
  - intros ->. cbn [length] in Hlen.
    pose proof (Z.div_pos timeout 10 Htimeout ltac:(lia)). lia.
  - unfold StatusPromptInterval.
    pose proof (Z.div_mod timeout 10 ltac:(lia)).
    pose proof (Z.mod_pos_bound timeout 10 ltac:(lia)). lia.
Qed.

(** No answer for 30 ms: with a timeout of 20 ms the poll gives up in the
    third round. *)
Lemma a_receiveStatus_bounded_witness :
  exists res,
    a_receiveStatus 20 FailedToReceiveChecksumStatus 0
      [mkRound false (Returns 1) (Returns 0) (Throws port_exception) 10;
       mkRound false (Returns 1) (Returns 0) (Throws port_exception) 20;
       mkRound false (Returns 1) (Returns 0) (Throws port_exception) 30] =
    Some res.
Proof.
  apply a_receiveStatus_bounded.
  - lia.
  - intros [|[|[|i]]] r H; cbn in H; inversion H; subst;
      unfold StatusPromptInterval; cbn [clock]; try lia.
    destruct i; discriminate.
  - reflexivity.
Defined.

(** ** Sending *)

Lemma skipn_firstn_length {A : Type} (k : nat) (l : list A) :
  skipn (length (firstn k l)) l = skipn k l.
Proof.
  rewrite length_firstn. destruct (Nat.le_ge_cases k (length l)) as [H|H].
  - now rewrite Nat.min_l.
  - rewrite Nat.min_r by assumption. now rewrite !skipn_all2 by lia.
Qed.

Lemma a_sendBytes_loop_inv (bytes : list Z) (T : Z) (err : ErrorCode)
      (rounds : list WriteRound) :
  forall numSent sent res,
    (numSent <= length bytes)%nat ->
    a_sendBytes_loop bytes T err (Z.of_nat numSent) rounds = (sent, res) ->
    exists rest,
      skipn numSent bytes = sent ++ rest /\
      (res = Some (Returns tt) -> rest = []) /\
      (forall x, res = Some (Throws x) ->
                 x = ActionError Cancelled \/ x = ActionError err).
Proof.
  induction rounds as [|r rounds IH]; intros numSent sent res Hn H;
    cbn [a_sendBytes_loop] in H.
  { inversion H; subst. eexists; split; [reflexivity|].
    split; intros; discriminate. }
  destruct (wCancelled r); cbn [a_throwIfCancelled] in H.
  { inversion H; subst. eexists; split; [reflexivity|].
    split; [discriminate|]. intros x Hx. inversion Hx. now left. }
  destruct (wAccepts r) as [k|y].
  2:{ inversion H; subst. eexists; split; [reflexivity|].
      split; [discriminate|]. intros x Hx. inversion Hx. now right. }
  rewrite Nat2Z.id in H.
  set (rem := skipn numSent bytes) in *.
  assert (Hrem : length rem = (length bytes - numSent)%nat)
    by (unfold rem; apply length_skipn).
  set (chunk := firstn (Z.to_nat k) rem) in *.
  assert (Hchunk : (length chunk <= length rem)%nat)
    by (unfold chunk; rewrite length_firstn; lia).
  assert (Hsplit : rem = chunk ++ skipn (length chunk) rem).
  { unfold chunk. rewrite skipn_firstn_length. symmetry. apply firstn_skipn. }
  destruct (Z.leb_spec (Z.of_nat (length bytes))
              (Z.of_nat numSent + Z.of_nat (length chunk))) as [Hall|Hmore].
  { inversion H; subst sent res. exists (skipn (length chunk) rem).
    split; [exact Hsplit|]. split.
    - intros _. apply skipn_all2. lia.
    - intros x Hx. discriminate Hx. }
  destruct (T <? wClock r).
  { inversion H; subst sent res. exists (skipn (length chunk) rem).
    split; [exact Hsplit|]. split; [discriminate|].
    intros x Hx. inversion Hx. now right. }
  rewrite <- Nat2Z.inj_add in H.
  destruct (a_sendBytes_loop bytes T err
              (Z.of_nat (numSent + length chunk)) rounds) as [sent' res'] eqn:Hloop.
  inversion H; subst sent res.
  destruct (IH (numSent + length chunk)%nat sent' res' ltac:(lia) Hloop)
    as (rest & Hrest & Hok & Herr).
  exists rest. split; [|split; assumption].
  rewrite <- app_assoc, <- Hrest.
  rewrite Hsplit at 1. f_equal. unfold rem. rewrite skipn_skipn.
  f_equal. lia.
Qed.

Lemma a_sendBytes_inv (a_baudrate : Z) (bytes : list Z) (err : ErrorCode)
      (now : Z) (rounds : list WriteRound) (sent : list Z)
      (res : option (outcome Z)) :
  a_sendBytes a_baudrate bytes err now rounds = (sent, res) ->
  (exists rest, bytes = sent ++ rest) /\
  (forall drainTime,
     res = Some (Returns drainTime) ->
     sent = bytes /\ bytes <> [] /\
     exists transitDuration,
       a_transitDuration a_baudrate (Z.of_nat (length bytes)) =
         Some transitDuration /\
       drainTime = now + transitDuration) /\
  (forall x, res = Some (Throws x) ->
             x = ActionError Cancelled \/ x = ActionError err) /\
  (bytes = [] -> sent = [] /\ res = Some (Throws (ActionError err))).
Proof.
  unfold a_sendBytes. intros H.
  destruct (Z.eqb_spec (Z.of_nat (length bytes)) 0) as [Hz|Hnz].
  { inversion H; subst sent res. split; [now exists bytes|].
    split; [discriminate|]. split; [|auto].
    intros x Hx. inversion Hx. now right. }
  assert (Hne : bytes <> []) by (intros ->; now elim Hnz).
  destruct (a_transitDuration a_baudrate (Z.of_nat (length bytes)))
    as [transitDuration|].
  2:{ inversion H; subst sent res. split; [now exists bytes|].
      split; [discriminate|]. split; [discriminate|]. intros E. now elim Hne. }
  destruct (a_responsivenessTimeout transitDuration) as [timeout|].
  2:{ inversion H; subst sent res. split; [now exists bytes|].
      split; [discriminate|]. split; [discriminate|]. intros E. now elim Hne. }
  destruct (a_sendBytes_loop bytes (now + 1000 * timeout) err 0 rounds)
    as [sent' res'] eqn:Hloop.
  inversion H; subst sent res. clear H.
  destruct (a_sendBytes_loop_inv bytes _ err rounds O sent' res'
              ltac:(lia) Hloop) as (rest & Hrest & Hok & Herr).
  cbn [skipn] in Hrest.
  split; [now exists rest|]. split; [|split].
  - intros drainTime Hd. destruct res' as [[[]|x]|]; try discriminate Hd.
    rewrite (Hok eq_refl), app_nil_r in Hrest.
    split; [now symmetry|]. split; [exact Hne|].
    exists transitDuration. split; [reflexivity|]. congruence.
  - intros x Hx. destruct res' as [[[]|y]|]; try discriminate Hx.
    apply Herr. congruence.
  - intros E. now elim Hne.
Qed.

(** X10. [a_sendBytes] hands the bytes to the port in order and without
    gaps or repetitions, however the port splits the writes: what the port
    has taken is always a beginning of the bytes, and all of them when the
    function returns; it then returns the time of the call plus the transit
    duration of the bytes.  It throws nothing but [Cancelled] and the error
    code it was given, and that one at once for an empty vector. *)
Theorem a_sendBytes_in_order (a_baudrate : Z) (bytes : list Z)
        (err : ErrorCode) (now : Z) (rounds : list WriteRound) :
  let sent := fst (a_sendBytes a_baudrate bytes err now rounds) in
  let res := snd (a_sendBytes a_baudrate bytes err now rounds) in
  (exists rest, bytes = sent ++ rest) /\
  (forall drainTime,
     res = Some (Returns drainTime) ->
     sent = bytes /\ bytes <> [] /\
     exists transitDuration,
       a_transitDuration a_baudrate (Z.of_nat (length bytes)) =
         Some transitDuration /\
       drainTime = now + transitDuration) /\
  (forall x, res = Some (Throws x) ->
             x = ActionError Cancelled \/ x = ActionError err) /\
  (bytes = [] -> sent = [] /\ res = Some (Throws (ActionError err))).
Proof.
  intros sent res. apply (a_sendBytes_inv a_baudrate bytes err now rounds).
  subst sent res. now destruct (a_sendBytes a_baudrate bytes err now rounds).
Qed.

Lemma a_sendBytes_in_order_witness :
  fst (a_sendBytes 115200 [1; 2; 3] FailedToSendCommand 0
         [mkWriteRound false (Returns 2) 5; mkWriteRound false (Returns 7) 9]) =
  [1; 2; 3].
Proof.
  refine (proj1 (proj1 (proj2
    (a_sendBytes_in_order 115200 [1; 2; 3] FailedToSendCommand 0
       [mkWriteRound false (Returns 2) 5; mkWriteRound false (Returns 7) 9]))
    260 _)).
  vm_compute. reflexivity.
Defined.

(** ** Receiving *)

Lemma store_app (got tail chunk : list Z) :
  store (got ++ tail) (length got) chunk =
  got ++ chunk ++ skipn (length chunk) tail.
Proof.
  unfold store. rewrite firstn_app, firstn_all, Nat.sub_diag. cbn [firstn].
  rewrite app_nil_r. do 2 f_equal.
  rewrite skipn_app. rewrite skipn_all2 by lia. cbn [app]. f_equal. lia.
Qed.

Lemma a_receiveBytes_loop_inv (N : nat) (T : Z) (err : ErrorCode)
      (rounds : list ReadRound) :
  forall got tail stream buffer' stream' res,
    length (got ++ tail) = N ->
    a_receiveBytes_loop (Z.of_nat N) T err (Z.of_nat (length got))
                        (got ++ tail) stream rounds = (buffer', stream', res) ->
    exists more tail',
      stream = more ++ stream' /\ buffer' = got ++ more ++ tail' /\
      length buffer' = N /\
      (res = Some (Returns tt) -> tail' = []) /\
      (forall x, res = Some (Throws x) ->
                 x = ActionError Cancelled \/ x = ActionError err).
Proof.
  induction rounds as [|r rounds IH];
    intros got tail stream buffer' stream' res Hlen H;
    cbn [a_receiveBytes_loop] in H.
  { inversion H; subst. exists [], tail. cbn [app].
    repeat split; try assumption; try reflexivity; intros; discriminate. }
  destruct (rCancelled r); cbn [a_throwIfCancelled] in H.
  { inversion H; subst. exists [], tail. cbn [app].
    repeat split; try assumption; try reflexivity; try discriminate.
    intros x Hx. inversion Hx. now left. }
  destruct (rDelivers r) as [k|y].
  2:{ inversion H; subst. exists [], tail. cbn [app].
      repeat split; try assumption; try reflexivity; try discriminate.
      intros x Hx. inversion Hx. now right. }
  rewrite Nat2Z.id in H.
  set (chunk := firstn (Z.to_nat (Z.min k (Z.of_nat N - Z.of_nat (length got))))
                       stream) in *.
  rewrite length_app in Hlen.
  assert (Hchunk : (length chunk <= length tail)%nat)
    by (unfold chunk; rewrite length_firstn; lia).
  assert (Hsplit : stream = chunk ++ skipn (length chunk) stream).
  { unfold chunk. rewrite skipn_firstn_length. symmetry. apply firstn_skipn. }
  rewrite store_app in H.
  assert (Hlen' : length (got ++ chunk ++ skipn (length chunk) tail) = N)
    by (rewrite !length_app, length_skipn; lia).
  destruct (Z.leb_spec (Z.of_nat N)
              (Z.of_nat (length got) + Z.of_nat (length chunk))) as [Hall|Hmore].
  { inversion H; subst buffer' stream' res.
    exists chunk, (skipn (length chunk) tail).
    split; [exact Hsplit|]. split; [reflexivity|]. split; [exact Hlen'|].
    split; [|discriminate]. intros _. apply skipn_all2. lia. }
  destruct (T <? rClock r).
  { inversion H; subst buffer' stream' res.
    exists chunk, (skipn (length chunk) tail).
    split; [exact Hsplit|]. split; [reflexivity|]. split; [exact Hlen'|].
    split; [discriminate|]. intros x Hx. inversion Hx. now right. }
  rewrite <- Nat2Z.inj_add, <- length_app, app_assoc in H.
  rewrite app_assoc in Hlen'.
  destruct (IH _ _ _ _ _ _ Hlen' H) as (more & tail' & Hs & Hb & Hl & Hok & Herr).
  exists (chunk ++ more), tail'.
  split. { rewrite Hsplit at 1. rewrite <- app_assoc. now f_equal. }
  split. { rewrite Hb. now rewrite <- !app_assoc. }
  split; [exact Hl|]. split; assumption.
Qed.

Lemma a_receiveBytes_inv (buffer : list Z) (totalToReceive T : Z)
      (err : ErrorCode) (stream : list Z) (rounds : list ReadRound)
      (buffer' stream' : list Z) (res : option (outcome unit)) :
  0 <= totalToReceive ->
  a_receiveBytes buffer totalToReceive T err stream rounds =
    (buffer', stream', res) ->
  (exists got, stream = got ++ stream' /\
               (res = Some (Returns tt) ->
                buffer' = got /\ Z.of_nat (length got) = totalToReceive)) /\
  (forall x, res = Some (Throws x) ->
             x = ActionError Cancelled \/ x = ActionError err) /\
  (totalToReceive = 0 ->
   buffer' = buffer /\ stream' = stream /\
   res = Some (Throws (ActionError err))).
Proof.
  unfold a_receiveBytes. intros Hpos H.
  destruct (Z.eqb_spec totalToReceive 0) as [Hz|Hnz].
  { inversion H; subst buffer' stream' res. split.
    - exists []. split; [reflexivity|discriminate].
    - split; [|auto]. intros x Hx. inversion Hx. now right. }
  remember (Z.to_nat totalToReceive) as N eqn:HN.
  assert (HZ : totalToReceive = Z.of_nat N) by lia.
  rewrite HZ in H.
  assert (Hsize : length ([] ++ resize N buffer) = N).
  { unfold resize. cbn [app].
    rewrite length_app, length_firstn, repeat_length. lia. }
  destruct (a_receiveBytes_loop_inv N T err rounds [] (resize N buffer) stream
              buffer' stream' res Hsize H)
    as (more & tail' & Hs & Hb & Hl & Hok & Herr).
  cbn [app] in Hb. split; [|split; [exact Herr|]].
  - exists more. split; [exact Hs|]. intros Hres.
    rewrite (Hok Hres), app_nil_r in Hb. subst buffer'.
    split; [reflexivity|]. lia.
  - intros E. now elim Hnz.
Qed.

(** X11. [a_receiveBytes] fills the buffer with the next bytes of the
    incoming stream, in order, however the port splits the reads: what it
    has read is always a beginning of the stream, and when it returns, the
    buffer holds exactly [totalToReceive] bytes, which are the bytes read.
    It throws nothing but [Cancelled] and the error code it was given, and
    that one at once, touching nothing, when asked for zero bytes. *)
Theorem a_receiveBytes_in_order (buffer : list Z) (totalToReceive T : Z)
        (err : ErrorCode) (stream : list Z) (rounds : list ReadRound) :
  0 <= totalToReceive ->
  let run := a_receiveBytes buffer totalToReceive T err stream rounds in
  (exists got, stream = got ++ snd (fst run) /\
               (snd run = Some (Returns tt) ->
                fst (fst run) = got /\ Z.of_nat (length got) = totalToReceive)) /\
  (forall x, snd run = Some (Throws x) ->
             x = ActionError Cancelled \/ x = ActionError err) /\
  (totalToReceive = 0 ->
   fst (fst run) = buffer /\ snd (fst run) = stream /\
   snd run = Some (Throws (ActionError err))).
Proof.
  intros Hpos run.
  apply (a_receiveBytes_inv buffer totalToReceive T err stream rounds);
    [exact Hpos|].
  subst run.
  now destruct (a_receiveBytes buffer totalToReceive T err stream rounds)
    as [[b s] r].
Qed.

Lemma a_receiveBytes_in_order_witness :
  Z.of_nat (length (fst (fst
    (a_receiveBytes [9] 3 100 FailedToReceiveChipVersion [1; 2; 3; 4]
       [mkReadRound false (Returns 2) 5; mkReadRound false (Returns 7) 9])))) = 3.
Proof.
  destruct (a_receiveBytes_in_order [9] 3 100 FailedToReceiveChipVersion
              [1; 2; 3; 4]
              [mkReadRound false (Returns 2) 5; mkReadRound false (Returns 7) 9]
              ltac:(lia)) as [(got & _ & Hok) _].
  destruct (Hok eq_refl) as [Hgot Hlen]. rewrite Hgot. exact Hlen.
Defined.

(** ** Stage 3: the Propeller is authenticated *)

Lemma a_stage3_work_inv (a_baudrate : Z) (buffer stream : list Z)
      (env : Stage3Env) :
  (exists rest, InitBytes = taken (a_stage3_work a_baudrate buffer stream env) ++ rest) /\
  (ending (a_stage3_work a_baudrate buffer stream env) = Some (Returns tt) ->
   taken (a_stage3_work a_baudrate buffer stream env) = InitBytes /\
   stream = PropAuthBytes ++ [0xCF; 0xCE; 0xCE; 0xCE] ++
            incoming (a_stage3_work a_baudrate buffer stream env)) /\
  (forall x,
     ending (a_stage3_work a_baudrate buffer stream env) = Some (Throws x) ->
     exists code, x = ActionError code /\ In code stage3Errors).
Proof.
  unfold a_stage3_work, a_checkPoint.
  destruct (cancelledAtSending env); cbn [a_throwIfCancelled].
  { cbn [taken ending]. split; [now exists InitBytes|].
    split; [discriminate|]. intros x Hx. inversion Hx.
    eexists; split; [reflexivity|cbn; auto]. }
  destruct (a_sendBytes a_baudrate InitBytes FailedToSendInitialBytes
              (sendingNow env) (initWrites env)) as [sent res] eqn:Hsend.
  destruct (a_sendBytes_inv _ _ _ _ _ _ _ Hsend) as (Hpre & Hret & Hthr & _).
  destruct res as [[drainTime|x]|]; cbn [taken ending].
  2:{ split; [exact Hpre|]. split; [discriminate|]. intros y Hy.
      inversion Hy; subst y.
      destruct (Hthr x eq_refl) as [->| ->];
        (eexists; split; [reflexivity|cbn; auto]). }
  2:{ split; [exact Hpre|]. split; discriminate. }
  destruct (Hret drainTime eq_refl) as (Hsent & _ & _). subst sent.
  destruct (cancelledAtAuthenticating env); cbn [a_throwIfCancelled taken ending].
  { split; [exact Hpre|]. split; [discriminate|]. intros x Hx. inversion Hx.
    eexists; split; [reflexivity|cbn; auto]. }
  destruct (a_receiveBytes buffer (Z.of_nat (length PropAuthBytes))
              (drainTime + 1000 * InitBytesTimeout)
              FailedToReceivePropAuthentication stream (authReads env))
    as [[buffer1 stream1] res1] eqn:Hauth.
  destruct (a_receiveBytes_inv _ _ _ _ _ _ _ _ _ (Nat2Z.is_nonneg _) Hauth)
    as ((got1 & Hstream1 & Hok1) & Hthr1 & _).
  destruct res1 as [[[]|x]|]; cbn [taken ending].
  2:{ split; [exact Hpre|]. split; [discriminate|]. intros y Hy.
      inversion Hy; subst y.
      destruct (Hthr1 x eq_refl) as [->| ->];
        (eexists; split; [reflexivity|cbn; auto]). }
  2:{ split; [exact Hpre|]. split; discriminate. }
  destruct (Hok1 eq_refl) as [Hgot1 _]. subst got1.
  destruct (list_eq_dec Z.eq_dec PropAuthBytes buffer1) as [Heq|Hneq];
    cbn [taken ending].
  2:{ split; [exact Hpre|]. split; [discriminate|]. intros x Hx. inversion Hx.
      eexists; split; [reflexivity|cbn; auto]. }
  destruct (cancelledAtVerifying env); cbn [a_throwIfCancelled taken ending].
  { split; [exact Hpre|]. split; [discriminate|]. intros x Hx. inversion Hx.
    eexists; split; [reflexivity|cbn; auto]. }
  destruct (a_receiveBytes buffer1 4 (drainTime + 1000 * InitBytesTimeout)
              FailedToReceiveChipVersion stream1 (versionReads env))
    as [[buffer2 stream2] res2] eqn:Hversion.
  destruct (a_receiveBytes_inv _ 4 _ _ _ _ _ _ _ ltac:(lia) Hversion)
    as ((got2 & Hstream2 & Hok2) & Hthr2 & _).
  destruct res2 as [[[]|x]|]; cbn [taken ending].
  2:{ split; [exact Hpre|]. split; [discriminate|]. intros y Hy.
      inversion Hy; subst y.
      destruct (Hthr2 x eq_refl) as [->| ->];
        (eexists; split; [reflexivity|cbn; auto 10]). }
  2:{ split; [exact Hpre|]. split; discriminate. }
  destruct (Hok2 eq_refl) as [Hgot2 Hlen2]. subst got2.
  split; [exact Hpre|].
  destruct (decode3BPByte buffer2) as [[version rest]|y] eqn:Hdecode.
  2:{ split; [discriminate|]. intros x Hx. inversion Hx.
      eexists; split; [reflexivity|cbn; auto 10]. }
  destruct (Z.eqb_spec version 1) as [->|Hv]; cbn [negb].
  2:{ split; [discriminate|]. intros x Hx. inversion Hx.
      eexists; split; [reflexivity|cbn; auto 10]. }
  split; [|discriminate]. intros _. split; [reflexivity|].
  apply decode3BPByte_returns in Hdecode. destruct Hdecode as [_ Hbuf].
  assert (rest = []).
  { rewrite Hbuf, length_app in Hlen2.
    change (length (responseBytes 1)) with 4%nat in Hlen2.
    destruct rest; [reflexivity|cbn [length] in Hlen2; lia]. }
  subst rest. rewrite app_nil_r in Hbuf.
  rewrite Hstream1, Hstream2, <- Heq, Hbuf. reflexivity.
Qed.

Lemma a_receiveBytes_prompt (buffer got rest : list Z) (T : Z)
      (err : ErrorCode) :
  0 < Z.of_nat (length got) <= 100000 ->
  a_receiveBytes buffer (Z.of_nat (length got)) T err (got ++ rest) [promptRead] =
  (got, rest, Some (Returns tt)).
Proof.
  intros Hlen. unfold a_receiveBytes.
  destruct (Z.eqb_spec (Z.of_nat (length got)) 0) as [Hz|_]; [lia|].
  rewrite Nat2Z.id. cbn [a_receiveBytes_loop promptRead rCancelled rDelivers
                         a_throwIfCancelled].
  rewrite Z.sub_0_r, Z.min_r, Nat2Z.id by lia.
  rewrite firstn_app, firstn_all, Nat.sub_diag. cbn [firstn].
  rewrite app_nil_r, skipn_app, skipn_all, Nat.sub_diag. cbn [skipn app].
  rewrite (proj2 (Z.leb_le _ _)) by lia.
  do 2 f_equal. unfold store. cbn [Z.to_nat firstn app Nat.add].
  rewrite skipn_all2; [apply app_nil_r|].
  unfold resize. rewrite length_app, length_firstn, repeat_length. lia.
Qed.

Lemma a_sendBytes_InitBytes_prompt :
  exists drainTime,
    a_sendBytes 115200 InitBytes FailedToSendInitialBytes 0 [promptWrite] =
    (InitBytes, Some (Returns drainTime)).
Proof. eexists. vm_compute. reflexivity. Qed.

Lemma a_stage3_work_prompt (buffer stream : list Z) :
  ending (a_stage3_work 115200 buffer
            (PropAuthBytes ++ [0xCF; 0xCE; 0xCE; 0xCE] ++ stream) promptStage3) =
  Some (Returns tt).
Proof.
  unfold a_stage3_work, promptStage3.
  cbn [cancelledAtSending sendingNow initWrites cancelledAtAuthenticating
       authReads cancelledAtVerifying versionReads a_checkPoint
       a_throwIfCancelled].
  destruct a_sendBytes_InitBytes_prompt as [drainTime ->].
  rewrite a_receiveBytes_prompt
    by (change (length PropAuthBytes) with 125%nat; lia).
  destruct (list_eq_dec Z.eq_dec PropAuthBytes PropAuthBytes) as [_|Hne];
    [|now elim Hne].
  change 4 with (Z.of_nat (length [0xCF; 0xCE; 0xCE; 0xCE])).
  rewrite a_receiveBytes_prompt by (cbn; lia).
  reflexivity.
Qed.

(** X12. Stage 3 authenticates the Propeller.  The body of
    [a_stage3_establishComms] hands nothing but [InitBytes] to the port, and
    it ends normally only when all of [InitBytes] was taken and the next
    bytes of the incoming stream were the 125 bytes of [PropAuthBytes]
    followed by 0xCF, 0xCE, 0xCE, 0xCE, the encoding of chip version 1;
    these 129 bytes, and no more, have then been read.  All it throws is an
    [ActionError] with [Cancelled] or one of the six error codes of the
    stage.  With a port that takes and delivers everything at once, such a
    stream makes the stage succeed. *)
Theorem a_stage3_authenticates (a_baudrate : Z) (buffer stream : list Z)
        (env : Stage3Env) :
  let ex := a_stage3_work a_baudrate buffer stream env in
  (exists rest, InitBytes = taken ex ++ rest) /\
  (ending ex = Some (Returns tt) ->
   taken ex = InitBytes /\
   stream = PropAuthBytes ++ [0xCF; 0xCE; 0xCE; 0xCE] ++ incoming ex) /\
  (forall x, ending ex = Some (Throws x) ->
             exists code, x = ActionError code /\ In code stage3Errors) /\
  ending (a_stage3_work 115200 buffer
            (PropAuthBytes ++ [0xCF; 0xCE; 0xCE; 0xCE] ++ stream) promptStage3) =
    Some (Returns tt).
Proof.
  intros ex.
  destruct (a_stage3_work_inv a_baudrate buffer stream env) as (H1 & H2 & H3).
  split; [exact H1|]. split; [exact H2|]. split; [exact H3|].
  apply a_stage3_work_prompt.
Qed.

(** ** Stage 4: the download *)

Lemma encodeLong_sends (buf : list Z) (w : Z) :
  exists tr,
    sends (symbolsOfLong w) tr /\
    wire (TBP.buffer (TBP.encodeLong (TBP.new buf) w)) = train tr.
Proof.
  unfold TBP.encodeLong.
  pose proof (lineOf_encodeLongInternal (TBP.new buf) w [] (lineOf_new buf))
    as H.
  cbn [app] in H. apply lineOf_push in H.
  destruct H as (_ & _ & _ & H). exact H.
Qed.

Lemma encodeBytesAsLongs_sends (buf bytes : list Z) :
  Forall isByte bytes ->
  exists tr,
    sends (flat_map symbolsOfLong (fullLongs (padToLongs bytes))) tr /\
    wire (TBP.buffer (fst (TBP.encodeBytesAsLongs (TBP.new buf) bytes))) =
    train tr.
Proof.
  intros Hb. rewrite encodeBytesAsLongs_longs by assumption. cbn [fst].
  rewrite <- longsOfBytes_padded.
  pose proof (lineOf_fold (longsOfBytes bytes) (TBP.new buf) []
                (lineOf_new buf)) as H.
  cbn [app] in H. apply lineOf_push in H.
  destruct H as (_ & _ & _ & H). exact H.
Qed.

Lemma verifyAndEncodeImage_returns (image encodedImage : list Z) (n : Z) :
  Forall isByte image ->
  snd (verifyAndEncodeImage image encodedImage) = Returns n ->
  fst (verifyAndEncodeImage image encodedImage) =
    TBP.buffer (fst (TBP.encodeBytesAsLongs (TBP.new encodedImage) image)) /\
  n = (Z.of_nat (length image) + 3) / 4 /\
  1 <= Z.of_nat (length image) <= 32768.
Proof.
  intros Hb. unfold verifyAndEncodeImage.
  destruct (Z.eqb_spec (Z.of_nat (length image)) 0) as [Hz|Hnz];
    [discriminate|].
  destruct (Z.ltb_spec 32768 (Z.of_nat (length image))) as [Hbig|Hok];
    [discriminate|].
  pose proof (encodeBytesAsLongs_count (TBP.new encodedImage) image Hb) as Hn.
  destruct (TBP.encodeBytesAsLongs (TBP.new encodedImage) image) as [e numLongs].
  cbn [fst snd] in *. intros H. split; [reflexivity|]. split; [congruence|lia].
Qed.

Lemma a_stage4a_work_returns (a_baudrate : Z) (a_action : Action)
      (env : Stage4aEnv) (drainTime : Z) :
  snd (a_stage4a_work a_baudrate a_action env) = Some (Returns drainTime) ->
  fst (a_stage4a_work a_baudrate a_action env) =
  TBP.buffer (TBP.encodeLong (TBP.new []) (commandForAction a_action)).
Proof.
  unfold a_stage4a_work, a_checkPoint.
  destruct (cancelledAtCommand env); cbn [a_throwIfCancelled];
    [discriminate|].
  destruct (encodedCommand a_action) as [table|x] eqn:Htable; [|discriminate].
  destruct (a_sendBytes a_baudrate table FailedToSendCommand (commandNow env)
              (commandWrites env)) as [sent res] eqn:Hsend.
  cbn [fst snd]. intros ->.
  destruct (a_sendBytes_inv _ _ _ _ _ _ _ Hsend) as (_ & Hret & _).
  destruct (Hret drainTime eq_refl) as (-> & _).
  symmetry. now apply encodedCommand_encodeLong.
Qed.

Lemma a_stage4b_work_returns (a_baudrate a_imageSizeInLongs : Z)
      (a_encodedImage buffer : list Z) (a_stage4DrainTime : Z)
      (env : Stage4bEnv) (drainTime : Z) :
  snd (a_stage4b_work a_baudrate a_imageSizeInLongs a_encodedImage buffer
         a_stage4DrainTime env) = Some (Returns drainTime) ->
  fst (fst (a_stage4b_work a_baudrate a_imageSizeInLongs a_encodedImage buffer
              a_stage4DrainTime env)) =
  TBP.buffer (TBP.encodeLong (TBP.new buffer) (u32 a_imageSizeInLongs)) ++
  a_encodedImage.
Proof.
  unfold a_stage4b_work, a_checkPoint.
  destruct (cancelledAtImageSize env); cbn [a_throwIfCancelled];
    [discriminate|]. cbv zeta.
  set (sizeBytes := TBP.buffer (TBP.encodeLong (TBP.new buffer)
                                  (u32 a_imageSizeInLongs))).
  destruct (a_sendBytes a_baudrate sizeBytes FailedToSendImageSize
              (sizeNow env) (sizeWrites env)) as [sent res] eqn:Hsize.
  destruct (a_sendBytes_inv _ _ _ _ _ _ _ Hsize) as (_ & Hret & _).
  destruct res as [[d|x]|]; [|discriminate..].
  destruct (Hret d eq_refl) as (-> & _).
  destruct (cancelledAtImage env); cbn [a_throwIfCancelled]; [discriminate|].
  destruct (a_sendBytes a_baudrate a_encodedImage FailedToSendImage
              (imageNow env) (imageWrites env)) as [sent' res'] eqn:Himage.
  destruct (a_sendBytes_inv _ _ _ _ _ _ _ Himage) as (_ & Hret' & _).
  destruct res' as [[d'|x]|]; [|discriminate..].
  destruct (Hret' d' eq_refl) as (-> & _).
  destruct (a_transitDuration a_baudrate
              (Z.of_nat (length sizeBytes) + Z.of_nat (length a_encodedImage)));
    [|discriminate].
  destruct (a_waitUntil _ (waitNow env) (waits env)) as [[[]|x]|];
    [|discriminate..].
  reflexivity.
Qed.

(** X13. The download.  When stage 4a and stage 4b of an action end
    normally, the bytes the port has taken in them are, sent as 8N1 frames,
    one train of the pulses of the three-bit protocol: the thirty-two bits
    of the command of the action, those of the size of the image in longs,
    and those of every long of the image padded with NUL bytes, each long
    from its least significant bit and followed by two bit periods of idle
    at least.  The image is the one [verifyAndEncodeImage] has encoded when
    the action was started. *)
Theorem stage4_download (a_baudrate : Z) (a_action : Action)
        (image encodedImage buffer : list Z) (envA : Stage4aEnv)
        (envB : Stage4bEnv) (numLongs drainTime drainTime' : Z) :
  Forall isByte image ->
  snd (verifyAndEncodeImage image encodedImage) = Returns numLongs ->
  snd (a_stage4a_work a_baudrate a_action envA) = Some (Returns drainTime) ->
  snd (a_stage4b_work a_baudrate numLongs
         (fst (verifyAndEncodeImage image encodedImage)) buffer drainTime envB) =
    Some (Returns drainTime') ->
  exists tr,
    sends (flat_map symbolsOfLong
             (commandForAction a_action :: numLongs ::
              fullLongs (padToLongs image))) tr /\
    wire (fst (a_stage4a_work a_baudrate a_action envA) ++
          fst (fst (a_stage4b_work a_baudrate numLongs
                      (fst (verifyAndEncodeImage image encodedImage)) buffer
                      drainTime envB))) = train tr.
Proof.
  intros Hb Himage Ha Hb4.
  rewrite (a_stage4a_work_returns _ _ _ _ Ha).
  rewrite (a_stage4b_work_returns _ _ _ _ _ _ _ Hb4).
  destruct (verifyAndEncodeImage_returns _ _ _ Hb Himage) as (-> & Hn & Hlen).
  assert (Hu : u32 numLongs = numLongs).
  { unfold u32. apply Z.mod_small. subst numLongs.
    pose proof (Z.div_pos (Z.of_nat (length image) + 3) 4 ltac:(lia) ltac:(lia)).
    assert ((Z.of_nat (length image) + 3) / 4 < 8193)
      by (apply Z.div_lt_upper_bound; lia).
    lia. }
  rewrite Hu.
  destruct (encodeLong_sends [] (commandForAction a_action)) as (tr1 & Hs1 & Hw1).
  destruct (encodeLong_sends buffer numLongs) as (tr2 & Hs2 & Hw2).
  destruct (encodeBytesAsLongs_sends encodedImage image Hb) as (tr3 & Hs3 & Hw3).
  exists (tr1 ++ tr2 ++ tr3). split.
  - cbn [flat_map]. apply sends_app; [exact Hs1|].
    apply sends_app; [exact Hs2|exact Hs3].
  - rewrite !wire_app, !train_app, Hw1, Hw2, Hw3. reflexivity.
Qed.

Lemma stage4_download_witness :
  exists tr,
    sends (flat_map symbolsOfLong (1 :: 2 :: fullLongs (padToLongs [1; 2; 3; 4; 5])))
          tr /\
    wire (fst (a_stage4a_work 115200 LoadRAM promptStage4a) ++
          fst (fst (a_stage4b_work 115200 2
                      (fst (verifyAndEncodeImage [1; 2; 3; 4; 5] [])) [] 954
                      promptStage4b))) = train tr.
Proof.
  apply (stage4_download 115200 LoadRAM [1; 2; 3; 4; 5] [] [] promptStage4a
           promptStage4b 2 954 3731).
  - repeat constructor; unfold isByte; lia.
  - vm_compute. reflexivity.
  - vm_compute. reflexivity.
  - vm_compute. reflexivity.
Defined.

Lemma a_waitUntil_loop_throws (waitTime : Z) (rounds : list WaitRound) :
  forall timeRemaining x,
    a_waitUntil_loop waitTime timeRemaining rounds = Some (Throws x) ->
    x = ActionError Cancelled.
Proof.
  induction rounds as [|r rounds IH]; intros timeRemaining x H;
    cbn [a_waitUntil_loop] in H; destruct (0 <? timeRemaining);
    try discriminate H.
  destruct (waCancelled r); cbn [a_throwIfCancelled] in H; [congruence|].
  destruct (timeRemaining <? 1000 * CancellationCheckInterval).
  - destruct (waCancelledAfter r); cbn [a_throwIfCancelled] in H;
      [congruence|discriminate H].
  - exact (IH _ _ H).
Qed.

(** X14. What stage 4 can do besides.  The bodies of stage 4a and stage 4b
    hand to the port nothing but a beginning of the encoded command, and of
    the encoded size followed by the encoded image; for an action without a
    command nothing is sent.  Stage 4a throws [Cancelled] or
    [FailedToSendCommand] only, stage 4b [Cancelled],
    [FailedToSendImageSize] or [FailedToSendImage] only. *)
Theorem stage4_sends_nothing_else (a_baudrate : Z) (a_action : Action)
        (a_imageSizeInLongs : Z) (a_encodedImage buffer : list Z)
        (a_stage4DrainTime : Z) (envA : Stage4aEnv) (envB : Stage4bEnv) :
  let runA := a_stage4a_work a_baudrate a_action envA in
  let runB := a_stage4b_work a_baudrate a_imageSizeInLongs a_encodedImage
                buffer a_stage4DrainTime envB in
  (forall table, encodedCommand a_action = Returns table ->
                 exists rest, table = fst runA ++ rest) /\
  (forall x, encodedCommand a_action = Throws x -> fst runA = []) /\
  (forall x, snd runA = Some (Throws x) ->
             x = ActionError Cancelled \/ x = ActionError FailedToSendCommand) /\
  (exists rest,
     TBP.buffer (TBP.encodeLong (TBP.new buffer) (u32 a_imageSizeInLongs)) ++
     a_encodedImage = fst (fst runB) ++ rest) /\
  (forall x, snd runB = Some (Throws x) ->
             x = ActionError Cancelled \/
             x = ActionError FailedToSendImageSize \/
             x = ActionError FailedToSendImage).
Proof.
  intros runA runB. subst runA runB.
  assert (HA : (forall table, encodedCommand a_action = Returns table ->
                  exists rest,
                    table = fst (a_stage4a_work a_baudrate a_action envA) ++ rest) /\
               (forall x, encodedCommand a_action = Throws x ->
                  fst (a_stage4a_work a_baudrate a_action envA) = []) /\
               (forall x, snd (a_stage4a_work a_baudrate a_action envA) =
                            Some (Throws x) ->
                  x = ActionError Cancelled \/
                  x = ActionError FailedToSendCommand)).
  { unfold a_stage4a_work, a_checkPoint.
    destruct (cancelledAtCommand envA); cbn [a_throwIfCancelled fst snd].
    { split; [intros table _; now exists table|]. split; [reflexivity|].
      intros x Hx. inversion Hx. now left. }
    destruct (encodedCommand a_action) as [table|x] eqn:Htable; cbn [fst snd].
    - destruct (a_sendBytes a_baudrate table FailedToSendCommand
                  (commandNow envA) (commandWrites envA)) as [sent res] eqn:Hsend.
      destruct (a_sendBytes_inv _ _ _ _ _ _ _ Hsend) as (Hpre & _ & Hthr & _).
      cbn [fst snd]. split; [|split; [discriminate|exact Hthr]].
      intros table' Ht. inversion Ht; subst table'. exact Hpre.
    - split; [discriminate|]. split; [reflexivity|].
      intros y Hy. inversion Hy; subst y.
      destruct a_action; inversion Htable; now right. }
  destruct HA as (HA1 & HA2 & HA3).
  split; [exact HA1|]. split; [exact HA2|]. split; [exact HA3|].
  unfold a_stage4b_work, a_checkPoint. cbv zeta.
  generalize (TBP.buffer (TBP.encodeLong (TBP.new buffer)
                            (u32 a_imageSizeInLongs))).
  intros sizeBytes.
  destruct (cancelledAtImageSize envB); cbn [a_throwIfCancelled fst snd].
  { split; [eexists; reflexivity|]. intros x Hx. inversion Hx. now left. }
  destruct (a_sendBytes a_baudrate sizeBytes FailedToSendImageSize
              (sizeNow envB) (sizeWrites envB)) as [sent res] eqn:Hsize.
  destruct (a_sendBytes_inv _ _ _ _ _ _ _ Hsize)
    as ((rest & Hrest) & Hret & Hthr & _).
  destruct res as [[d|x]|]; cbn [fst snd].
  2:{ split; [exists (rest ++ a_encodedImage);
              now rewrite Hrest, <- app_assoc|].
      intros y Hy. inversion Hy; subst y.
      destruct (Hthr x eq_refl) as [->| ->]; auto. }
  2:{ split; [exists (rest ++ a_encodedImage);
              now rewrite Hrest, <- app_assoc|discriminate]. }
  destruct (Hret d eq_refl) as (Hsent & _). subst sent. clear Hrest rest.
  destruct (cancelledAtImage envB); cbn [a_throwIfCancelled fst snd].
  { split; [now exists a_encodedImage|]. intros x Hx. inversion Hx. now left. }
  destruct (a_sendBytes a_baudrate a_encodedImage FailedToSendImage
              (imageNow envB) (imageWrites envB)) as [sent' res'] eqn:Himage.
  destruct (a_sendBytes_inv _ _ _ _ _ _ _ Himage)
    as ((rest' & Hrest') & _ & Hthr' & _).
  assert (Hpre : exists rest0, sizeBytes ++ a_encodedImage =
                               (sizeBytes ++ sent') ++ rest0).
  { exists rest'. now rewrite Hrest', app_assoc. }
  destruct res' as [[d'|x]|]; cbn [fst snd].
  2:{ split; [exact Hpre|]. intros y Hy. inversion Hy; subst y.
      destruct (Hthr' x eq_refl) as [->| ->]; auto. }
  2:{ split; [exact Hpre|discriminate]. }
  destruct (a_transitDuration a_baudrate
              (Z.of_nat (length sizeBytes) + Z.of_nat (length a_encodedImage)));
    cbn [fst snd]; [|split; [exact Hpre|discriminate]].
  unfold a_waitUntil.
  destruct (a_waitUntil_loop _ _ (waits envB)) as [[[]|x]|] eqn:Hwait;
    cbn [fst snd]; (split; [exact Hpre|]); try discriminate.
  intros y Hy. inversion Hy; subst y.
  left. exact (a_waitUntil_loop_throws _ _ _ _ Hwait).
Qed.

(** ** Starting an action *)

Lemma verifyAndEncodeImage_cases (image encodedImage : list Z) :
  (1 <= Z.of_nat (length image) <= 32768 /\
   exists n, snd (verifyAndEncodeImage image encodedImage) = Returns n) \/
  (~ 1 <= Z.of_nat (length image) <= 32768 /\
   fst (verifyAndEncodeImage image encodedImage) = encodedImage /\
   exists why,
     snd (verifyAndEncodeImage image encodedImage) = Throws (invalid_argument why)).
Proof.
  unfold verifyAndEncodeImage.
  destruct (Z.eqb_spec (Z.of_nat (length image)) 0) as [Hz|Hnz].
  { right. split; [lia|]. split; [reflexivity|]. eexists; reflexivity. }
  destruct (Z.ltb_spec 32768 (Z.of_nat (length image))) as [Hbig|Hok].
  { right. split; [lia|]. split; [reflexivity|]. eexists; reflexivity. }
  left. split; [lia|].
  destruct (TBP.encodeBytesAsLongs (TBP.new encodedImage) image) as [e n].
  exists n. reflexivity.
Qed.

(** X15. When an action starts.  [startAction] launches the action exactly
    when the action is valid, no action is in progress and, for the actions
    that need one, the image has from 1 to 32768 bytes.  It then marks the
    loader busy with that action, clears the cancellation flag (a [cancel]
    given before the start does not reach the action), counts the action,
    locks in the current settings and, for an action with an image, stores
    the image as [verifyAndEncodeImage] encodes it.  A refused start never
    changes the action in progress, the cancellation flag or the encoded
    image, and a start refused because the loader is busy or the action
    invalid changes nothing at all. *)
Theorem startAction_guard (l : Loader) (action : Action) (image : list Z) :
  let l' := fst (startAction l action image) in
  let res := snd (startAction l action image) in
  (res = Started <->
   actionIsValid action = true /\ isBusy l = false /\
   (actionRequiresImage action = true ->
    1 <= Z.of_nat (length image) <= 32768)) /\
  (res = Started ->
   a_action l' = action /\ isBusy l' = true /\ a_isCancelled l' = false /\
   a_isCancelled (fst (startAction (cancel l) action image)) = false /\
   a_counter l' = u32 (a_counter l + 1) /\ a_settings l' = settings l /\
   (actionRequiresImage action = true ->
    (a_encodedImage l', Returns (a_imageSizeInLongs l')) =
    verifyAndEncodeImage image (a_encodedImage l))) /\
  (res <> Started ->
   a_action l' = a_action l /\ a_isCancelled l' = a_isCancelled l /\
   a_encodedImage l' = a_encodedImage l /\
   a_imageSizeInLongs l' = a_imageSizeInLongs l /\ settings l' = settings l) /\
  (res = InvalidAction \/ res = IsBusyError -> l' = l) /\
  (isBusy l = true -> res = IsBusyError \/ res = InvalidAction).
Proof.
  intros l' res. subst l' res. unfold startAction.
  change (isBusy (cancel l)) with (isBusy l).
  change (settings (cancel l)) with (settings l).
  change (a_counter (cancel l)) with (a_counter l).
  change (a_encodedImage (cancel l)) with (a_encodedImage l).
  change (a_imageSizeInLongs (cancel l)) with (a_imageSizeInLongs l).
  destruct (actionIsValid action) eqn:Hvalid; cbn [negb fst snd].
  2:{ split; [split; [discriminate|intros (H & _); discriminate H]|].
      split; [discriminate|]. split; [intros _; now repeat split|].
      split; [reflexivity|]. intros _. now right. }
  destruct (isBusy l) eqn:Hbusy; cbn [fst snd].
  { split; [split; [discriminate|intros (_ & H & _); discriminate H]|].
    split; [discriminate|]. split; [intros _; now repeat split|].
    split; [reflexivity|]. intros _. now left. }
  destruct (actionRequiresImage action) eqn:Himage; cbn [fst snd].
  2:{ assert (Hb : isBusy (mkLoader (settings l) action false
                             (u32 (a_counter l + 1)) (settings l)
                             (a_encodedImage l) (a_imageSizeInLongs l)) = true).
      { destruct action; try discriminate Hvalid; reflexivity. }
      split; [split; [intros _|reflexivity]|].
      { split; [reflexivity|]. split; [reflexivity|discriminate]. }
      split.
      { intros _. cbn [a_action a_isCancelled a_counter a_settings].
        split; [reflexivity|]. split; [exact Hb|]. split; [reflexivity|].
        split; [reflexivity|]. split; [reflexivity|].
        split; [reflexivity|discriminate]. }
      split; [intros H; now elim H|].
      split; [intros [H|H]; discriminate H|discriminate]. }
  destruct (verifyAndEncodeImage_cases image (a_encodedImage l))
    as [(Hlen & n & Hn)|(Hlen & Henc & why & Hwhy)].
  - destruct (verifyAndEncodeImage image (a_encodedImage l)) as [enc r].
    cbn [fst snd] in Hn. subst r. cbn [fst snd].
    assert (Hb : isBusy (mkLoader (settings l) action false
                           (u32 (a_counter l + 1)) (settings l) enc n) = true).
    { destruct action; try discriminate Hvalid; reflexivity. }
    split; [split; [intros _|reflexivity]|].
    { split; [reflexivity|]. split; [reflexivity|]. intros _. exact Hlen. }
    split.
    { intros _. cbn [a_action a_isCancelled a_counter a_settings a_encodedImage
                     a_imageSizeInLongs].
      split; [reflexivity|]. split; [exact Hb|]. split; [reflexivity|].
      split; [reflexivity|]. split; [reflexivity|].
      split; reflexivity. }
    split; [intros H; now elim H|].
    split; [intros [H|H]; discriminate H|discriminate].
  - destruct (verifyAndEncodeImage image (a_encodedImage l)) as [enc r].
    cbn [fst snd] in Henc, Hwhy. subst enc r. cbn [fst snd].
    split; [split; [discriminate|intros (_ & _ & H); elim Hlen; now apply H]|].
    split; [discriminate|].
    split; [intros _; now repeat split|].
    split; [intros [H|H]; discriminate H|discriminate].
Qed.

Lemma startAction_guard_witness :
  snd (startAction idleLoader LoadRAM [1; 2; 3; 4; 5]) = Started.
Proof.
  apply (proj1 (startAction_guard idleLoader LoadRAM [1; 2; 3; 4; 5])).
  split; [reflexivity|]. split; [reflexivity|]. intros _. cbn. lia.
Defined.

Lemma startAction_started (l : Loader) (action : Action) (image : list Z) :
  snd (startAction l action image) = Started ->
  isBusy l = false /\ isBusy (fst (startAction l action image)) = true.
Proof.
  unfold startAction.
  destruct (actionIsValid action) eqn:Hvalid; cbn [negb fst snd];
    [|discriminate].
  destruct (isBusy l) eqn:Hbusy; cbn [fst snd]; [discriminate|].
  assert (Hb : forall c s e n, isBusy (mkLoader (settings l) action false c s e n) = true).
  { intros. destruct action; try discriminate Hvalid; reflexivity. }
  destruct (actionRequiresImage action); cbn [fst snd].
  - destruct (verifyAndEncodeImage image (a_encodedImage l)) as [enc [n|x]];
      cbn [fst snd]; [|discriminate]. intros _. split; [reflexivity|apply Hb].
  - intros _. split; [reflexivity|apply Hb].
Qed.

Lemma startAction_busy (l : Loader) (action : Action) (image : list Z) :
  isBusy l = true ->
  fst (startAction l action image) = l /\
  snd (startAction l action image) <> Started.
Proof.
  intros Hbusy. unfold startAction.
  destruct (actionIsValid action); cbn [negb fst snd];
    [|split; [reflexivity|discriminate]].
  rewrite Hbusy. cbn [fst snd]. split; [reflexivity|discriminate].
Qed.

(** X16. One action at a time.  Once [startAction] has launched an action,
    and until the action thread calls [finishAction], every further start
    (through [restart], [shutdown], [loadRAM], [programEEPROM]) is refused
    and leaves the loader as it is, and [willMakeInactive] refuses to give
    up the serial port; a [cancel] in between changes neither.  After
    [finishAction] the loader is idle: the port can be given up and
    [restart] launches a new action. *)
Theorem one_action_at_a_time (l : Loader) (action : Action) (image : list Z) :
  snd (startAction l action image) = Started ->
  let l' := fst (startAction l action image) in
  (forall busy, busy = l' \/ busy = cancel l' ->
     willMakeInactive busy = true /\
     (forall image' run,
        fst (restart busy) = busy /\ snd (restart busy) <> Started /\
        fst (shutdown busy) = busy /\ snd (shutdown busy) <> Started /\
        fst (loadRAM busy image') = busy /\
        snd (loadRAM busy image') <> Started /\
        fst (programEEPROM busy image' run) = busy /\
        snd (programEEPROM busy image' run) <> Started)) /\
  (forall busy, busy = l' \/ busy = cancel l' ->
     willMakeInactive (finishAction busy) = false /\
     snd (restart (finishAction busy)) = Started).
Proof.
  intros H l'. destruct (startAction_started l action image H) as [_ Hb].
  fold l' in Hb.
  assert (Hbusy : forall busy, busy = l' \/ busy = cancel l' -> isBusy busy = true)
    by (intros busy [->| ->]; exact Hb).
  split.
  - intros busy Hcase. specialize (Hbusy busy Hcase).
    split; [exact Hbusy|]. intros image' run.
    unfold restart, shutdown, loadRAM, programEEPROM.
    destruct run;
      repeat match goal with
             | |- _ /\ _ => split
             | |- fst (startAction _ _ _) = _ =>
                 exact (proj1 (startAction_busy _ _ _ Hbusy))
             | |- snd (startAction _ _ _) <> _ =>
                 exact (proj2 (startAction_busy _ _ _ Hbusy))
             end.
  - intros busy _. split; reflexivity.
Qed.

Lemma one_action_at_a_time_witness :
  snd (loadRAM (cancel (fst (startAction idleLoader Restart []))) [1; 2; 3]) <>
  Started.
Proof.
  refine (proj1 (proj2 (proj2 (proj2 (proj2 (proj2 (proj2 (proj1
    (one_action_at_a_time idleLoader Restart [] eq_refl)
    (cancel (fst (startAction idleLoader Restart []))) (or_intror eq_refl))
    [1; 2; 3] true))))))).
Defined.

(** ** Whatever the stages throw *)

Lemma ErrorCode_eq_dec (a b : ErrorCode) : {a = b} + {a <> b}.
Proof. decide equality. Qed.

Lemma actionWillFinish_fst (mon : bool) (code : ErrorCode) (w : WorkerState) :
  Profiler.currStage (profiler (fst (actionWillFinish mon code w))) =
    Profiler.Finished /\
  (Profiler.wasSuccessful (profiler (fst (actionWillFinish mon code w))) = true <->
   code = ErrNone) /\
  calls (fst (actionWillFinish mon code w)) =
    calls w ++ (if mon then [LoaderHasFinished code] else []) /\
  (Profiler.assertionFailed (profiler w) = true ->
   Profiler.assertionFailed (profiler (fst (actionWillFinish mon code w))) = true).
Proof.
  destruct w as [[cs t ws ec af] c].
  destruct (ErrorCode_eq_dec code ErrNone) as [->|Hne].
  - destruct mon; cbn; rewrite ?app_nil_r; repeat split; auto.
  - rewrite actionWillFinish_error by assumption.
    destruct mon; cbn [fst profiler calls Profiler.currStage
                       Profiler.wasSuccessful Profiler.endWithError];
      rewrite ?app_nil_r;
      (split; [reflexivity|]); (split; [split; [discriminate|contradiction]|]);
      (split; [reflexivity|]); cbn; intros ->; destruct cs; reflexivity.
Qed.

Lemma stagesCalled_app (a b : list Event) :
  stagesCalled (a ++ b) = stagesCalled a ++ stagesCalled b.
Proof.
  induction a as [|[s|st|c] a IH]; cbn [app stagesCalled]; [reflexivity|..];
    now rewrite IH.
Qed.

Ltac stage_step_any stageWork Hrun s :=
  match type of Hrun with
  | context [stageWork s] =>
      let E := fresh "E" in
      let x := fresh "x" in
      destruct (stageWork s) as [[]|x] eqn:E;
      [|destruct x as [?|?| |?code]];
      cbn -[actionWillFinish] in Hrun
  | _ => idtac
  end.

Ltac thrown_leaf :=
  match goal with
  | E : ?f ?s = _ |- forall x, ?f ?s = Throws x -> _ => rewrite E
  end;
  let x := fresh "x" in
  let Hx := fresh "Hx" in
  let Hnot := fresh "Hnot" in
  intros x Hx Hnot;
  first [discriminate Hx
        |injection Hx as <-;
         first [now elim (Hnot _ eq_refl)|split; reflexivity]].

(** X18. Every action ends.  Whatever the stages throw, [actionThread]
    leaves the profiler finished and reports success exactly when it
    finishes with the code [None]; with a status monitor,
    [loaderHasFinished] is called once, as the last call, with the code the
    action finishes with, and without one it is not called.  An exception
    that is not an [ActionError] is reported as [UnhandledException], and
    the assertion in its handler fails. *)
Theorem actionThread_always_finishes
        (stageWork : Profiler.Stage -> outcome unit) (mon : bool)
        (action : Action) :
  actionIsValid action = true ->
  let run := actionThread stageWork mon action freshWorker in
  let p := profiler (fst run) in
  Profiler.currStage p = Profiler.Finished /\
  (Profiler.wasSuccessful p = true <-> snd run = ErrNone) /\
  (if mon
   then last (calls (fst run)) (StageCalled Profiler.Finished) =
          LoaderHasFinished (snd run) /\
        existsb isFinishEvent (removelast (calls (fst run))) = false
   else existsb isFinishEvent (calls (fst run)) = false) /\
  (forall x,
     stageWork (last (stagesCalled (calls (fst run))) Profiler.Finished) =
       Throws x ->
     (forall code, x <> ActionError code) ->
     snd run = UnhandledException /\ Profiler.assertionFailed p = true).
Proof.
  intros Hvalid run p.
  assert (Hrun : actionThread stageWork mon action freshWorker = run)
    by reflexivity.
  clearbody run.
  destruct action; try discriminate Hvalid; destruct mon;
    unfold_worker_in Hrun; cbn -[actionWillFinish] in Hrun;
    stage_step_any stageWork Hrun Profiler.Stage1;
    stage_step_any stageWork Hrun Profiler.Stage2a;
    stage_step_any stageWork Hrun Profiler.Stage2b;
    stage_step_any stageWork Hrun Profiler.Stage3;
    stage_step_any stageWork Hrun Profiler.Stage4a;
    stage_step_any stageWork Hrun Profiler.Stage4b;
    stage_step_any stageWork Hrun Profiler.Stage5;
    stage_step_any stageWork Hrun Profiler.Stage6;
    stage_step_any stageWork Hrun Profiler.Stage7;
    match type of Hrun with
    | (fst (actionWillFinish ?m ?c ?w), _) = _ =>
        pose proof (actionWillFinish_fst m c w) as (H1 & H2 & H3 & H4)
    end;
    subst run; subst p; cbn [fst snd];
    (split; [exact H1|]); (split; [exact H2|]);
    rewrite H3; (split;
      [first [rewrite last_last, removelast_last; split; reflexivity
             |rewrite app_nil_r; reflexivity]|]);
    rewrite stagesCalled_app; cbn; thrown_leaf.
Qed.

(** A Restart whose first stage lets an exception of the port escape. *)
Lemma actionThread_always_finishes_witness :
  snd (actionThread (fun _ => Throws port_exception) true Restart freshWorker) =
    UnhandledException /\
  Profiler.assertionFailed
    (profiler (fst (actionThread (fun _ => Throws port_exception) true Restart
                      freshWorker))) = true.
Proof.
  refine (proj2 (proj2 (proj2
    (actionThread_always_finishes (fun _ => Throws port_exception) true Restart
       eq_refl))) port_exception eq_refl _).
  intros code. discriminate.
Defined.

(** ** Cancellation *)

Lemma a_sendBytes_loop_cancelled (bytes : list Z) (T : Z) (err : ErrorCode)
      (r : WriteRound) (later : list WriteRound) (before : list WriteRound) :
  wCancelled r = true ->
  forall numSent sent,
    a_sendBytes_loop bytes T err numSent before = (sent, None) ->
    a_sendBytes_loop bytes T err numSent (before ++ r :: later) =
    (sent, Some (Throws (ActionError Cancelled))).
Proof.
  intros Hr. induction before as [|q before IH]; intros numSent sent H.
  - cbn [a_sendBytes_loop] in H. inversion H; subst sent.
    cbn [app a_sendBytes_loop]. now rewrite Hr.
  - cbn [app a_sendBytes_loop] in *.
    destruct (a_throwIfCancelled (wCancelled q)); [|discriminate H].
    destruct (wAccepts q) as [k|]; [|discriminate H].
    destruct (Z.of_nat (length bytes) <=? _); [discriminate H|].
    destruct (T <? wClock q); [discriminate H|].
    destruct (a_sendBytes_loop bytes T err _ before) as [sent' [res|]] eqn:Hloop;
      [discriminate H|].
    inversion H; subst sent. now rewrite (IH _ _ Hloop).
Qed.

Lemma a_receiveBytes_loop_cancelled (total T : Z) (err : ErrorCode)
      (r : ReadRound) (later : list ReadRound) (before : list ReadRound) :
  rCancelled r = true ->
  forall numReceived buffer stream buffer' stream',
    a_receiveBytes_loop total T err numReceived buffer stream before =
      (buffer', stream', None) ->
    a_receiveBytes_loop total T err numReceived buffer stream
                        (before ++ r :: later) =
      (buffer', stream', Some (Throws (ActionError Cancelled))).
Proof.
  intros Hr. induction before as [|q before IH];
    intros numReceived buffer stream buffer' stream' H.
  - cbn [a_receiveBytes_loop] in H. inversion H; subst.
    cbn [app a_receiveBytes_loop]. now rewrite Hr.
  - cbn [app a_receiveBytes_loop] in *.
    destruct (a_throwIfCancelled (rCancelled q)); [|discriminate H].
    destruct (rDelivers q) as [k|]; [|discriminate H].
    destruct (total <=? _); [discriminate H|].
    destruct (T <? rClock q); [discriminate H|].
    now apply IH.
Qed.

Lemma a_receiveStatus_loop_cancelled (T : Z) (err : ErrorCode)
      (r : Round) (later : list Round) (before : list Round) :
  isCancelled r = true ->
  a_receiveStatus_loop T err before = None ->
  a_receiveStatus_loop T err (before ++ r :: later) =
    Some (Throws (ActionError Cancelled)).
Proof.
  intros Hr. induction before as [|q before IH]; intros H.
  - cbn [app a_receiveStatus_loop]. now rewrite Hr.
  - cbn [app a_receiveStatus_loop] in *.
    destruct (a_throwIfCancelled (isCancelled q)); [|discriminate H].
    destruct (writePrompt q); [|discriminate H].
    destruct (available q) as [numAvailable|]; [|discriminate H].
    destruct (0 <? numAvailable).
    + destruct (readByte q) as [[numReceived b]|]; [|discriminate H].
      destruct (numReceived =? 1); [|discriminate H].
      destruct (b =? 255); [discriminate H|].
      destruct (b =? 254); discriminate H.
    + destruct (T <? clock q); [discriminate H|]. now apply IH.
Qed.

Lemma a_waitUntil_loop_cancelled (waitTime : Z) (r : WaitRound)
      (later : list WaitRound) (before : list WaitRound) :
  waCancelled r = true ->
  forall timeRemaining,
    a_waitUntil_loop waitTime timeRemaining before = None ->
    a_waitUntil_loop waitTime timeRemaining (before ++ r :: later) =
      Some (Throws (ActionError Cancelled)).
Proof.
  intros Hr. induction before as [|q before IH]; intros timeRemaining H.
  - cbn [app a_waitUntil_loop] in *.
    destruct (0 <? timeRemaining); [|discriminate H]. now rewrite Hr.
  - cbn [app a_waitUntil_loop] in *.
    destruct (0 <? timeRemaining); [|discriminate H].
    destruct (a_throwIfCancelled (waCancelled q)); [|discriminate H].
    destruct (timeRemaining <? 1000 * CancellationCheckInterval);
      [discriminate H|]. now apply IH.
Qed.

(** X20. Cancellation is honoured at the next round.  In each of the four
    loops of the action thread (sending, receiving, the status poll, the
    wait), when the rounds so far have not ended the loop and the
    cancellation flag is found set at the start of the next round, the
    function throws [Cancelled] in that round, before it writes, reads or
    sleeps again: what the port has taken, the receive buffer and the
    incoming stream are as the rounds before left them. *)
Theorem cancellation_honoured :
  (forall bytes T err numSent rounds r later sent,
     wCancelled r = true ->
     a_sendBytes_loop bytes T err numSent rounds = (sent, None) ->
     a_sendBytes_loop bytes T err numSent (rounds ++ r :: later) =
       (sent, Some (Throws (ActionError Cancelled)))) /\
  (forall buffer total T err stream rounds r later buffer' stream',
     rCancelled r = true ->
     a_receiveBytes buffer total T err stream rounds =
       (buffer', stream', None) ->
     a_receiveBytes buffer total T err stream (rounds ++ r :: later) =
       (buffer', stream', Some (Throws (ActionError Cancelled)))) /\
  (forall timeout err now rounds r later,
     isCancelled r = true ->
     a_receiveStatus timeout err now rounds = None ->
     a_receiveStatus timeout err now (rounds ++ r :: later) =
       Some (Throws (ActionError Cancelled))) /\
  (forall waitTime now rounds r later,
     waCancelled r = true ->
     a_waitUntil waitTime now rounds = None ->
     a_waitUntil waitTime now (rounds ++ r :: later) =
       Some (Throws (ActionError Cancelled))).
Proof.
  split; [|split; [|split]].
  - intros bytes T err numSent rounds r later sent Hr H.
    now apply a_sendBytes_loop_cancelled.
  - intros buffer total T err stream rounds r later buffer' stream' Hr.
    unfold a_receiveBytes. destruct (total =? 0); [discriminate|].
    intros H. now apply a_receiveBytes_loop_cancelled.
  - intros timeout err now rounds r later Hr. unfold a_receiveStatus.
    now apply a_receiveStatus_loop_cancelled.
  - intros waitTime now rounds r later Hr. unfold a_waitUntil.
    now apply a_waitUntil_loop_cancelled.
Qed.

(** ** The responsiveness timeout *)

Lemma rounded_scale (x y k : Z) : 0 <= k -> rounded x y -> rounded (x * k) (y * k).
Proof.
  unfold rounded. intros Hk [H1 H2]. split.
  - replace ((2 ^ 24 - 1) * (x * k)) with ((2 ^ 24 - 1) * x * k) by ring.
    replace (2 ^ 24 * (y * k)) with (2 ^ 24 * y * k) by ring.
    now apply Z.mul_le_mono_nonneg_r.
  - replace ((2 ^ 24 + 1) * (x * k)) with ((2 ^ 24 + 1) * x * k) by ring.
    replace (2 ^ 24 * (y * k)) with (2 ^ 24 * y * k) by ring.
    now apply Z.mul_le_mono_nonneg_r.
Qed.

(** [binary_round_aux_rounded] with the scale as a parameter. *)
Lemma binary_round_aux_scaled (mx : positive) (ex : Z) (lx : location)
      (A B S : Z) :
  24 <= Zpos (digits2_pos mx) -> -149 <= ex ->
  ex + Zpos (digits2_pos mx) <= 127 -> 0 <= ex + S ->
  approx A B (shr_record_of_loc (Zpos mx) lx) ->
  exists (mr : positive) (er : Z),
    binary_round_aux 24 128 false (Zpos mx) ex lx = S754_finite false mr er /\
    ex + Zpos (digits2_pos mx) - 24 <= er <= ex + Zpos (digits2_pos mx) - 23 /\
    2 ^ 23 <= Zpos mr < 2 ^ 24 /\
    rounded (B * (Zpos mr * 2 ^ (er + S))) (A * 2 ^ (ex + S)).
Proof.
  intros Hd Hex Hmax HS Happ.
  destruct (binary_round_aux_correct mx ex lx A B Hd Hex Hmax Happ)
    as (mr & K & Heq & HK & Hmr & Herr).
  set (d := Zpos (digits2_pos mx)) in *.
  assert (HB : 0 < B) by apply Happ.
  exists mr, (ex + K). split; [exact Heq|]. split; [lia|]. split; [exact Hmr|].
  assert (HT : 0 < 2 ^ K) by (apply Z.pow_pos_nonneg; lia).
  assert (HU : 0 < 2 ^ (ex + S)) by (apply Z.pow_pos_nonneg; lia).
  assert (HTd : 2 ^ (d - 24) <= 2 ^ K) by (apply Z.pow_le_mono_r; lia).
  replace (ex + K + S) with (K + (ex + S)) by lia.
  rewrite Z.pow_add_r by lia.
  set (T := 2 ^ K) in *. set (U := 2 ^ (ex + S)) in *.
  set (x := Z.pos mr * T * B) in *.
  replace (B * (Z.pos mr * (T * U))) with (x * U) by (unfold x; ring).
  apply rounded_scale; [lia|]. unfold rounded.
  assert (Hw : 2 ^ 23 * (2 ^ (d - 24) * B) <= x).
  { unfold x.
    assert (2 ^ 23 * (2 ^ (d - 24) * B) <= 2 ^ 23 * (T * B)) by nia.
    assert (2 ^ 23 * (T * B) <= Z.pos mr * (T * B)) by nia.
    lia. }
  lia.
Qed.

(** The conversion of a [long long] below 2^62 to binary32. *)
Lemma of_Z_wide (n : Z) :
  1 <= n < 2 ^ 62 ->
  exists (m : positive) (e : Z),
    binary_normalize 24 128 n 0 false = S754_finite false m e /\
    2 ^ 23 <= Zpos m < 2 ^ 24 /\ -23 <= e <= 39 /\
    rounded (sval64 m e) (n * 2 ^ 64).
Proof.
  intros Hn. destruct (Z.lt_ge_cases n (2 ^ 32)) as [Hsmall|Hbig].
  - destruct (of_Z_rounded n ltac:(lia)) as (m & e & Heq & Hm & He & Hr & _).
    exists m, e. split; [exact Heq|]. split; [exact Hm|]. split; [lia|].
    replace (sval64 m e) with (sval m e * 2 ^ 40).
    + replace (n * 2 ^ 64) with (n * 2 ^ 24 * 2 ^ 40) by lia.
      apply rounded_scale; [lia|exact Hr].
    + unfold sval, sval64. replace (e + 64) with (e + 24 + 40) by lia.
      rewrite (Z.pow_add_r 2 (e + 24) 40) by lia. ring.
  - destruct n as [|p|p]; try lia.
    cbn [binary_normalize]. unfold binary_round.
    pose proof (digits2_bounds p) as Hdig.
    set (dp := Zpos (digits2_pos p)) in *.
    assert (Hdp : 33 <= dp <= 62).
    { split.
      - destruct (Z.le_gt_cases 33 dp) as [|Hlt]; [assumption|].
        assert (2 ^ dp <= 2 ^ 32) by (apply Z.pow_le_mono_r; lia). lia.
      - destruct (Z.le_gt_cases dp 62) as [|Hgt]; [assumption|].
        assert (2 ^ 62 <= 2 ^ (dp - 1)) by (apply Z.pow_le_mono_r; lia). lia. }
    rewrite Z.add_0_r.
    assert (Hf : fexp 24 128 dp = dp - 24) by (unfold fexp, emin; lia).
    rewrite Hf. unfold shl_align.
    destruct (dp - 24 - 0) as [|k|k] eqn:Hk; try lia.
    destruct (binary_round_aux_scaled p 0 loc_Exact (Zpos p) 1 64)
      as (mr & er & Heq & Her & Hmr & Hr).
    { fold dp. lia. } { lia. } { fold dp. lia. } { lia. }
    { apply approx_exact. lia. }
    fold dp in Her.
    exists mr, er. split; [exact Heq|]. split; [exact Hmr|]. split; [lia|].
    rewrite Z.mul_1_l in Hr. exact Hr.
Qed.

Lemma mul_multiplier_rounded (mN : positive) (eN : Z) :
  2 ^ 23 <= Zpos mN < 2 ^ 24 -> -23 <= eN <= 39 ->
  exists (mP : positive) (eP : Z),
    SFmul 24 128 ResponsivenessMultiplier (S754_finite false mN eN) =
    S754_finite false mP eP /\
    2 ^ 23 <= Zpos mP < 2 ^ 24 /\ eN <= eP <= eN + 2 /\
    rounded (2 * sval64 mP eP) (3 * sval64 mN eN).
Proof.
  intros HmN HeN. unfold ResponsivenessMultiplier. cbn [SFmul xorb].
  pose proof (digits2_bounds (12582912 * mN)) as Hdig.
  set (d := Zpos (digits2_pos (12582912 * mN))) in *.
  rewrite Pos2Z.inj_mul in Hdig.
  assert (Hd : 47 <= d <= 48).
  { split.
    - destruct (Z.le_gt_cases 47 d) as [|Hlt]; [assumption|].
      assert (2 ^ d <= 2 ^ 46) by (apply Z.pow_le_mono_r; lia). nia.
    - destruct (Z.le_gt_cases d 48) as [|Hgt]; [assumption|].
      assert (2 ^ 48 <= 2 ^ (d - 1)) by (apply Z.pow_le_mono_r; lia). nia. }
  destruct (binary_round_aux_scaled (12582912 * mN) (-23 + eN) loc_Exact
              (Zpos (12582912 * mN)) 1 87)
    as (mP & eP & Heq & HeP & HmP & Hr).
  { fold d. lia. } { lia. } { fold d. lia. } { lia. }
  { apply approx_exact. lia. }
  fold d in HeP.
  exists mP, eP. split; [exact Heq|]. split; [exact HmP|]. split; [lia|].
  rewrite Z.mul_1_l, Pos2Z.inj_mul in Hr.
  assert (HsP : Z.pos mP * 2 ^ (eP + 87) = sval64 mP eP * 2 ^ 23).
  { unfold sval64. replace (eP + 87) with (eP + 64 + 23) by lia.
    rewrite (Z.pow_add_r 2 (eP + 64) 23) by lia. ring. }
  assert (HsN : Z.pos 12582912 * Z.pos mN * 2 ^ (-23 + eN + 87) =
                3 * sval64 mN eN * 2 ^ 22).
  { unfold sval64. replace (-23 + eN + 87) with (eN + 64) by lia.
    change (Z.pos 12582912) with (3 * 2 ^ 22). ring. }
  rewrite HsP, HsN in Hr. unfold rounded in *.
  change (2 ^ 23) with 8388608 in Hr. change (2 ^ 22) with 4194304 in Hr.
  lia.
Qed.

Lemma div_thousand_rounded (mP : positive) (eP : Z) :
  2 ^ 23 <= Zpos mP < 2 ^ 24 -> -23 <= eP <= 41 ->
  exists (mQ : positive) (eQ : Z),
    SFdiv 24 128 (S754_finite false mP eP) thousand = S754_finite false mQ eQ /\
    2 ^ 23 <= Zpos mQ < 2 ^ 24 /\ eP - 10 <= eQ <= eP - 8 /\
    rounded (1000 * sval64 mQ eQ) (sval64 mP eP).
Proof.
  intros HmP HeP. unfold thousand. cbn [SFdiv xorb].
  unfold SFdiv_core_binary.
  assert (HdP : Zdigits2 (Zpos mP) = 24) by (apply digits2_unique; lia).
  change (Zdigits2 16384000) with 24.
  rewrite HdP.
  replace (24 + eP - (24 + -14)) with (eP + 14) by lia.
  rewrite fexp_normal by lia.
  replace (eP - -14) with (eP + 14) by lia.
  rewrite Z.min_l by lia.
  replace (eP + 14 - (eP + 14 - 24)) with 24 by lia.
  cbv iota beta.
  rewrite Z.shiftl_mul_pow2 by lia.
  pose proof (Z_div_mod (Zpos mP * 2 ^ 24) 16384000 ltac:(lia)) as Hdm.
  destruct (Z.div_eucl (Zpos mP * 2 ^ 24) 16384000) as [q r].
  destruct Hdm as [Hdm Hr].
  assert (Hq : 2 ^ 23 <= q < 2 ^ 25) by lia.
  destruct q as [|qq|qq]; try lia.
  pose proof (digits2_bounds qq) as Hdig.
  set (d := Zpos (digits2_pos qq)) in *.
  assert (Hd : 24 <= d <= 25).
  { split.
    - destruct (Z.le_gt_cases 24 d) as [|Hlt]; [assumption|].
      assert (2 ^ d <= 2 ^ 23) by (apply Z.pow_le_mono_r; lia). lia.
    - destruct (Z.le_gt_cases d 25) as [|Hgt]; [assumption|].
      assert (2 ^ 25 <= 2 ^ (d - 1)) by (apply Z.pow_le_mono_r; lia). lia. }
  destruct (binary_round_aux_scaled qq (eP + 14 - 24)
              (new_location 16384000 r) (Zpos mP * 2 ^ 24) 16384000 74)
    as (mQ & eQ & Heq & HeQ & HmQ & Hrd).
  { fold d. lia. } { lia. } { fold d. lia. } { lia. }
  { rewrite Hdm. rewrite (Z.mul_comm 16384000 (Zpos qq)).
    apply new_location_approx; lia. }
  fold d in HeQ.
  exists mQ, eQ. split; [exact Heq|]. split; [exact HmQ|]. split; [lia|].
  assert (HsQ : 16384000 * (Z.pos mQ * 2 ^ (eQ + 74)) =
                1000 * sval64 mQ eQ * 2 ^ 24).
  { unfold sval64. replace (eQ + 74) with (eQ + 64 + 10) by lia.
    rewrite (Z.pow_add_r 2 (eQ + 64) 10) by lia.
    change 16384000 with (1000 * 2 ^ 14).
    change (2 ^ 24) with (2 ^ 14 * 2 ^ 10). ring. }
  assert (HsP : Z.pos mP * 2 ^ 24 * 2 ^ (eP + 14 - 24 + 74) =
                sval64 mP eP * 2 ^ 24).
  { unfold sval64. replace (eP + 14 - 24 + 74) with (eP + 64) by lia. ring. }
  rewrite HsQ, HsP in Hrd. unfold rounded in *.
  change (2 ^ 24) with 16777216 in *. lia.
Qed.

Lemma to_long_long_floor64 (mQ : positive) (eQ : Z) :
  2 ^ 23 <= Zpos mQ < 2 ^ 24 -> -64 <= eQ <= 38 ->
  exists t,
    Float32.to_long_long (S754_finite false mQ eQ) = Some t /\
    0 <= t /\ t * 2 ^ 64 <= sval64 mQ eQ < (t + 1) * 2 ^ 64.
Proof.
  intros HmQ HeQ. unfold Float32.to_long_long, sval64.
  destruct (Z.leb_spec 0 eQ) as [Hpos|Hneg].
  - exists (Zpos mQ * 2 ^ eQ).
    assert (H1 : 0 < 2 ^ eQ) by (apply Z.pow_pos_nonneg; lia).
    assert (H2 : 2 ^ eQ <= 2 ^ 38) by (apply Z.pow_le_mono_r; lia).
    assert (Hv : 0 <= Zpos mQ * 2 ^ eQ < 2 ^ 63).
    { split; [lia|].
      apply Z.le_lt_trans with (Zpos mQ * 2 ^ 38); [nia|].
      change (2 ^ 63) with (2 ^ 25 * 2 ^ 38). nia. }
    rewrite (proj2 (Z.leb_le (- 2 ^ 63) _)) by lia.
    rewrite (proj2 (Z.ltb_lt _ (2 ^ 63))) by lia.
    split; [reflexivity|]. split; [lia|].
    rewrite Z.pow_add_r by lia. lia.
  - set (k := - eQ) in *.
    assert (Hk : 1 <= k <= 64) by lia.
    assert (H1 : 0 < 2 ^ k) by (apply Z.pow_pos_nonneg; lia).
    assert (H2 : 0 < 2 ^ (64 - k)) by (apply Z.pow_pos_nonneg; lia).
    pose proof (Z.div_mod (Zpos mQ) (2 ^ k) ltac:(lia)) as Hdm.
    pose proof (Z.mod_pos_bound (Zpos mQ) (2 ^ k) H1) as Hrem.
    assert (Ht : 0 <= Zpos mQ / 2 ^ k) by (apply Z.div_pos; lia).
    assert (Ht' : Zpos mQ / 2 ^ k <= Zpos mQ) by (apply Z.div_le_upper_bound; nia).
    exists (Zpos mQ / 2 ^ k).
    rewrite (proj2 (Z.leb_le (- 2 ^ 63) _)) by lia.
    rewrite (proj2 (Z.ltb_lt _ (2 ^ 63))) by lia.
    split; [reflexivity|]. split; [lia|].
    replace (eQ + 64) with (64 - k) by lia.
    assert (H64 : 2 ^ 64 = 2 ^ k * 2 ^ (64 - k))
      by (rewrite <- Z.pow_add_r by lia; f_equal; lia).
    rewrite H64.
    set (t := Zpos mQ / 2 ^ k) in *. set (rem := Zpos mQ mod 2 ^ k) in *.
    set (U := 2 ^ (64 - k)) in *. set (V := 2 ^ k) in *.
    rewrite Hdm. nia.
Qed.

Lemma a_responsivenessTimeout_floor (t : Z) :
  0 <= t < 2 ^ 62 ->
  exists n,
    a_responsivenessTimeout t = Some (Z.max n MinResponsivenessTimeout) /\
    0 <= n /\
    2 ^ 22 * (2000 * n) <= (3 * 2 ^ 22 + 3) * t /\
    (3 * 2 ^ 22 - 3) * t < 2 ^ 22 * (2000 * (n + 1)).
Proof.
  intros Ht. destruct (Z.eq_dec t 0) as [->|Hnz].
  { exists 0. split; [reflexivity|]. lia. }
  destruct (of_Z_wide t ltac:(lia)) as (mN & eN & HfN & HmN & HeN & HrN).
  destruct (mul_multiplier_rounded mN eN HmN HeN)
    as (mP & eP & HfP & HmP & HeP & HrP).
  destruct (div_thousand_rounded mP eP HmP ltac:(lia))
    as (mQ & eQ & HfQ & HmQ & HeQ & HrQ).
  destruct (to_long_long_floor64 mQ eQ HmQ ltac:(lia)) as (n & Hn & Hn0 & Hfloor).
  exists n. split.
  { unfold a_responsivenessTimeout, Float32.of_Z, Float32.mul, Float32.div,
      Float32.prec, Float32.emax.
    now rewrite HfN, HfP, HfQ, Hn. }
  split; [exact Hn0|].
  unfold rounded in *.
  set (sN := sval64 mN eN) in *. set (sP := sval64 mP eP) in *.
  set (sQ := sval64 mQ eQ) in *.
  change (2 ^ 24) with 16777216 in *. change (2 ^ 22) with 4194304.
  change (2 ^ 64) with 18446744073709551616 in *.
  split; lia.
Qed.

(** X21. The responsiveness timeout covers the transmission.  For every
    transit duration (in microseconds, below 2^62) the timeout that
    [a_responsivenessTimeout] computes in single precision is defined, is at
    least [MinResponsivenessTimeout] (1000 ms), and is never shorter than
    the transit duration itself; above the minimum it is at most 1.5 times
    the transit duration, up to the rounding of the three float operations
    (a factor of 1 + 2^-22). *)
Theorem a_responsivenessTimeout_covers (transitDuration : Z) :
  0 <= transitDuration < 2 ^ 62 ->
  exists timeout,
    a_responsivenessTimeout transitDuration = Some timeout /\
    MinResponsivenessTimeout <= timeout /\
    transitDuration <= 1000 * timeout /\
    (MinResponsivenessTimeout < timeout ->
     2 ^ 22 * (2000 * timeout) <= (3 * 2 ^ 22 + 3) * transitDuration).
Proof.
  intros Ht.
  destruct (a_responsivenessTimeout_floor transitDuration Ht)
    as (n & Heq & Hn & Hhi & Hlo).
  exists (Z.max n MinResponsivenessTimeout). split; [exact Heq|].
  unfold MinResponsivenessTimeout in *.
  change (2 ^ 22) with 4194304 in *.
  split; [lia|]. split; lia.
Qed.

Lemma a_responsivenessTimeout_covers_witness :
  exists timeout,
    a_responsivenessTimeout 8000000 = Some timeout /\
    MinResponsivenessTimeout <= timeout /\ 8000000 <= 1000 * timeout /\
    (MinResponsivenessTimeout < timeout ->
     2 ^ 22 * (2000 * timeout) <= (3 * 2 ^ 22 + 3) * 8000000).
Proof. apply (a_responsivenessTimeout_covers 8000000). lia. Defined.

Lemma a_transitDuration_defined (b n : Z) :
  1 <= n < 2 ^ 32 -> 1 <= b <= 115200 ->
  exists t, a_transitDuration b n = Some t /\ 1 <= t < 2 ^ 62.
Proof.
  intros Hn Hb.
  destruct (of_Z_rounded n Hn) as (mN & eN & HfN & HmN & HeN & HrN & _).
  destruct (of_Z_rounded b ltac:(lia)) as (mB & eB & HfB & HmB & HeB & _ & HxB).
  destruct (HxB ltac:(lia)) as [HsB HeB0].
  destruct (mul_ten_million_rounded mN eN HmN ltac:(lia))
    as (mP & eP & HfP & HmP & HeP & HrP).
  destruct (div_rounded mP mB eP eB HmP HmB ltac:(lia) ltac:(lia) ltac:(lia))
    as (mQ & eQ & HfQ & HmQ & HeQ & HrQ).
  destruct (to_long_long_floor mQ eQ HmQ ltac:(lia)) as (t & Ht & Ht0 & Hfloor).
  exists (if t <? 1 then 1 else t). split.
  { unfold a_transitDuration, Float32.of_Z, Float32.mul, Float32.div,
      Float32.ten_million, Float32.prec, Float32.emax.
    now rewrite HfN, HfB, HfP, HfQ, Ht. }
  assert (Hs : sval mQ eQ < 2 ^ 24 * 2 ^ (eQ + 24)).
  { unfold sval. apply Z.mul_lt_mono_pos_r; [apply Z.pow_pos_nonneg|]; lia. }
  assert (Hp : 2 ^ (eQ + 24) <= 2 ^ 59) by (apply Z.pow_le_mono_r; lia).
  destruct (Z.ltb_spec t 1); [lia|]. split; [lia|].
  change (2 ^ 24) with 16777216 in *.
  change (2 ^ 59) with 576460752303423488 in *.
  change (2 ^ 62) with 4611686018427387904. nia.
Qed.

(** X22. The timing of [a_sendBytes] is defined.  For a baudrate from 1 to
    115200 and a vector of at least one and fewer than 2^32 bytes, the
    transit duration and the responsiveness timeout are both defined, so
    that [a_sendBytes] is its loop with the deadline
    [now + responsiveness timeout]; that deadline is never before the drain
    time [now + transit duration] which the function returns. *)
Theorem a_sendBytes_deadline (a_baudrate : Z) (bytes : list Z)
        (err : ErrorCode) (now : Z) (rounds : list WriteRound) :
  1 <= a_baudrate <= 115200 -> 1 <= Z.of_nat (length bytes) < 2 ^ 32 ->
  exists transitDuration timeout,
    a_transitDuration a_baudrate (Z.of_nat (length bytes)) = Some transitDuration /\
    a_responsivenessTimeout transitDuration = Some timeout /\
    now + transitDuration <= now + 1000 * timeout /\
    a_sendBytes a_baudrate bytes err now rounds =
    (fst (a_sendBytes_loop bytes (now + 1000 * timeout) err 0 rounds),
     match snd (a_sendBytes_loop bytes (now + 1000 * timeout) err 0 rounds) with
     | Some (Returns _) => Some (Returns (now + transitDuration))
     | Some (Throws x) => Some (Throws x)
     | None => None
     end).
Proof.
  intros Hb Hn.
  destruct (a_transitDuration_defined a_baudrate _ Hn Hb) as (t & Ht & Htr).
  destruct (a_responsivenessTimeout_floor t ltac:(lia))
    as (n & Hr & Hn0 & _ & Hlo).
  exists t, (Z.max n MinResponsivenessTimeout).
  split; [exact Ht|]. split; [exact Hr|].
  split. { unfold MinResponsivenessTimeout. change (2 ^ 22) with 4194304 in *. lia. }
  unfold a_sendBytes.
  destruct (Z.eqb_spec (Z.of_nat (length bytes)) 0) as [Hz|_]; [lia|].
  rewrite Ht, Hr.
  now destruct (a_sendBytes_loop bytes _ err 0 rounds).
Qed.

Lemma a_sendBytes_deadline_witness :
  exists transitDuration timeout,
    a_transitDuration 115200 3 = Some transitDuration /\
    a_responsivenessTimeout transitDuration = Some timeout /\
    0 + transitDuration <= 0 + 1000 * timeout.
Proof.
  destruct (a_sendBytes_deadline 115200 [1; 2; 3] FailedToSendCommand 0 []
              ltac:(lia) ltac:(cbn; lia)) as (t & r & H1 & H2 & H3 & _).
  exists t, r. split; [exact H1|]. split; [exact H2|exact H3].
Defined.
